(** * codegate: muxing adapter and database recorder

    A shallow embedding of [src/codegate/muxing/adapter.py] and
    [src/codegate/db/connection.py], with the properties the specification
    states about them.

    Conventions of the embedding:
    - a Python [str] is a [string]; a character stands for the code point of
      the same number (the Latin-1 range);
    - a Python call that may raise returns [res A]; a [try ... except
      Exception] block whose body only calls into libraries is an [option]
      computation whose [None] is the handler's branch;
    - library code (json, litellm, ollama, uuid, the SQL engine, the FIM
      cache) is taken through the classes [JsonLib], [ChunkLib], [Engine]
      and [FimCache]; a reference instance of each is given for running
      the code on concrete inputs. *)

From Stdlib Require Import ZArith Ascii String List Lia Floats.SpecFloat.
From stdpp Require Import base option list strings gmap pretty.

Local Open Scope Z_scope.
Set Warnings "-register-all".

(** ** Python primitives *)

Module Py.

(** The exceptions the modelled code raises itself. *)
Inductive exn : Type :=
| IndexError
| ValueError
| TypeError
| MuxingAdapterError (msg : string).

Inductive res (A : Type) : Type :=
| Ret (a : A)
| Raise (e : exn).
Arguments Ret {A} a.
Arguments Raise {A} e.

Definition bind {A B : Type} (m : res A) (k : A -> res B) : res B :=
  match m with
  | Ret a => k a
  | Raise e => Raise e
  end.

Definition raises {A : Type} (m : res A) : Prop :=
  match m with
  | Ret _ => False
  | Raise _ => True
  end.

(** [str.isspace] on one character of the Latin-1 range. *)
Definition isspace (c : ascii) : bool :=
  let n := nat_of_ascii c in
  ((9 <=? n) && (n <=? 13) || (28 <=? n) && (n <=? 32)
   || (n =? 133) || (n =? 160))%nat.

(** [s.lstrip()] *)
Fixpoint lstrip (s : string) : string :=
  match s with
  | EmptyString => EmptyString
  | String c s' => if isspace c then lstrip s' else s
  end.

(** [s.rstrip()]: a character goes when it is a space and all that follows
    it went. *)
Fixpoint rstrip (s : string) : string :=
  match s with
  | EmptyString => EmptyString
  | String c s' =>
      match rstrip s' with
      | EmptyString => if isspace c then EmptyString else String c EmptyString
      | t => String c t
      end
  end.

(** [s.strip()] *)
Definition strip (s : string) : string := rstrip (lstrip s).

(** The scan of [s.split(sep)], for a non-empty [sep]: the piece being read
    and the pieces after it. [skip] counts the characters of a separator
    just matched that are still to be passed over. *)
Fixpoint split_go (sep s : string) (skip : nat) : string * list string :=
  match s with
  | EmptyString => (EmptyString, [])
  | String c s' =>
      match skip with
      | S k => split_go sep s' k
      | O =>
          if String.prefix sep s
          then (EmptyString,
                let '(p, ps) := split_go sep s' (String.length sep - 1) in
                p :: ps)
          else let '(p, ps) := split_go sep s' 0 in (String c p, ps)
      end
  end.

(** [s.split(sep)]; an empty separator is a [ValueError]. *)
Definition split (s sep : string) : res (list string) :=
  match sep with
  | EmptyString => Raise ValueError
  | _ => let '(p, ps) := split_go sep s 0 in Ret (p :: ps)
  end.

(** [l[i]] for a non-negative literal index. *)
Definition getitem {A : Type} (l : list A) (i : nat) : res A :=
  match l !! i with
  | Some x => Ret x
  | None => Raise IndexError
  end.

(** Truth value of a [str]. *)
Definition str_truthy (s : string) : bool :=
  match s with
  | EmptyString => false
  | _ => true
  end.

(** [sep in s] *)
Fixpoint contains (sep s : string) : bool :=
  String.prefix sep s ||
  match s with
  | EmptyString => false
  | String _ s' => contains sep s'
  end.

(** Nothing but spaces, or nothing. *)
Definition all_space (s : string) : Prop :=
  forall c, In c (list_ascii_of_string s) -> isspace c = true.

End Py.

#[global] Instance res_ret : MRet Py.res := @Py.Ret.
#[global] Instance res_bind : MBind Py.res := fun A B k m => Py.bind m k.

(** ** JSON values as Python objects *)

Module Json.

(** What [json.loads] builds: [None], [bool], [int], [float], [str], [list]
    and [dict] (keys in insertion order, no key twice). *)
Inductive JValue : Type :=
| JNull
| JBool (b : bool)
| JInt (n : Z)
| JFloat (f : spec_float)
| JStr (s : string)
| JArr (l : list JValue)
| JObj (d : list (string * JValue)).

(** Truth value of an object, as [if x], [not x] and [x or y] take it. *)
Definition truthy (v : JValue) : bool :=
  match v with
  | JNull => false
  | JBool b => b
  | JInt n => negb (n =? 0)
  | JFloat (S754_zero _) => false
  | JFloat _ => true
  | JStr s => Py.str_truthy s
  | JArr l => match l with [] => false | _ => true end
  | JObj d => match d with [] => false | _ => true end
  end.

(** [x or y], with [y] already evaluated: both operands of the source are
    calls without effects. *)
Definition or_ (x y : JValue) : JValue := if truthy x then x else y.

Fixpoint assoc {V : Type} (k : string) (d : list (string * V)) : option V :=
  match d with
  | [] => None
  | (k', v) :: d' => if String.eqb k k' then Some v else assoc k d'
  end.

(** [d[k] = v] on the items of a dict: an existing key keeps its place. *)
Fixpoint setitem {V : Type} (k : string) (v : V) (d : list (string * V))
  : list (string * V) :=
  match d with
  | [] => [(k, v)]
  | (k', v') :: d' =>
      if String.eqb k k' then (k, v) :: d' else (k', v') :: setitem k v d'
  end.

(** [x.get(k, default)]: only a dict has the method; on any other object
    the attribute lookup raises (here [None]). *)
Definition get_item (d : list (string * JValue)) (k : string)
    (default : JValue) : JValue :=
  match assoc k d with
  | Some v => v
  | None => default
  end.
Arguments get_item : simpl never.

Definition get (x : JValue) (k : string) (default : JValue) : option JValue :=
  match x with
  | JObj d => Some (get_item d k default)
  | _ => None
  end.

(** [x == s] for a string literal [s]. *)
Definition eq_str (x : JValue) (s : string) : bool :=
  match x with
  | JStr t => String.eqb t s
  | _ => false
  end.

End Json.

(** ** The muxing adapter: [codegate/muxing/adapter.py] *)

Module Adapter.
Import Py Json.

(** Modelled from the spec: [db_models.ProviderType], declared in
    [codegate/db/models.py], which is not among the sources; the closed
    enumeration of the specification's data model. *)
Inductive ProviderType : Type :=
| ollama
| openai
| anthropic
| llamacpp
| openrouter.

#[global] Instance ProviderType_eq_dec : EqDecision ProviderType.
Proof. solve_decision. Defined.

(** Modelled from the spec: [rulematcher.ModelRoute], declared in
    [codegate/muxing/rulematcher.py], which is not among the sources; a
    model name and an endpoint with its provider type, read as
    [model_route.model.name], [model_route.endpoint.endpoint] and
    [model_route.endpoint.provider_type]. *)
Record ProviderModel : Type := { name : string }.
Record ProviderEndpoint : Type :=
  { endpoint : string; provider_type : ProviderType }.
Record ModelRoute : Type :=
  { route_model : ProviderModel; route_endpoint : ProviderEndpoint }.

(** The litellm objects [_format_antropic] builds. *)
Record Delta : Type := { content : JValue; role : string }.
Record StreamingChoices : Type :=
  { finish_reason : option string;
    index : Z;
    delta : Delta;
    logprobs : option JValue }.
Record ModelResponse : Type :=
  { mr_id : string;
    mr_model : string;
    mr_object : string;
    mr_choices : list StreamingChoices }.

(** [json.loads]: [None] when it raises. *)
Class JsonLib : Type :=
  { json_loads : string -> option JValue }.

(** The chunk objects of litellm and ollama, each with its
    [model_dump_json(exclude_none=True, exclude_unset=True)]; [None] when
    the construction, the normalisation or the dump raises.
    - [openai_dump d] is the dump of [ModelResponse], built with the items of
      [d] as keyword arguments;
    - [ollama_dump d] is the dump of [OLlamaToModel.normalize_chunk] applied
      to [ChatResponse], built with the items of [d] as keyword arguments;
    - [model_dump_json r] is the dump of a [ModelResponse] built from
      keyword arguments. *)
Class ChunkLib : Type :=
  { openai_dump : JValue -> option string;
    ollama_dump : JValue -> option string;
    model_dump_json : ModelResponse -> option string }.

Section StreamChunkFormatter.
Context `{JsonLib} `{ChunkLib}.

(** [try: body except Exception: handler] for a body that raises nothing
    the handler lets through. *)
Definition try_except {A : Type} (body : option A) (handler : A) : A :=
  default handler body.

Definition _format_ollama (chunk : string) : res string :=
  Ret (try_except
         (chunk_dict ← json_loads chunk;
          ollama_dump chunk_dict)
         chunk).

Definition _format_openai (chunk : string) : res string :=
  parts ← split chunk "data:";
  piece ← getitem parts 1;
  let cleaned_chunk := strip piece in
  Ret (try_except
         (chunk_dict ← json_loads cleaned_chunk;
          openai_dump chunk_dict)
         cleaned_chunk).

(** [uuid] is the text of the [uuid.uuid4()] this call draws if it gets
    that far. *)
Definition _format_antropic (uuid : string) (chunk : string) : res string :=
  parts ← split chunk "data:";
  piece ← getitem parts 1;
  let cleaned_chunk := strip piece in
  Ret (try_except
         (chunk_dict ← json_loads cleaned_chunk;
          msg_type ← get chunk_dict "type" (JStr EmptyString);
          let finish_reason :=
            if eq_str msg_type "message_stop" then Some "stop" else None in
          from_delta ← get chunk_dict "delta" (JObj []);
          from_block ← get chunk_dict "content_block" (JObj []);
          let msg_content_dict := or_ from_delta from_block in
          if negb (truthy msg_content_dict) then Some EmptyString
          else
            msg_content ← get msg_content_dict "text" (JStr EmptyString);
            model_dump_json
              {| mr_id := "anthropic-chat-" +:+ uuid;
                 mr_model := "anthropic-muxed-model";
                 mr_object := "chat.completion.chunk";
                 mr_choices :=
                   [ {| finish_reason := finish_reason;
                        index := 0;
                        delta := {| content := msg_content;
                                    role := "assistant" |};
                        logprobs := None |} ] |})
         (strip cleaned_chunk)).

(** [self.provider_to_func] of [__init__]. *)
Definition provider_to_func (uuid : string)
  : list (ProviderType * (string -> res string)) :=
  [ (ollama, _format_ollama);
    (openai, _format_openai);
    (anthropic, _format_antropic uuid);
    (llamacpp, _format_openai);
    (openrouter, _format_openai) ].

Fixpoint dict_get {V : Type} (d : list (ProviderType * V)) (k : ProviderType)
  : option V :=
  match d with
  | [] => None
  | (k', v) :: d' => if decide (k = k') then Some v else dict_get d' k
  end.

Definition format (uuid : string) (chunk : string) (dest_prov : ProviderType)
  : res string :=
  match dict_get (provider_to_func uuid) dest_prov with
  | None => Raise (MuxingAdapterError "Provider not supported.")
      (* the message of the source also names [dest_prov] *)
  | Some format_func => format_func chunk
  end.

(** [ResponseAdapter._format_as_openai_chunk] *)
Definition _format_as_openai_chunk (formatted_chunk : string) : string :=
  "data:" +:+ formatted_chunk +:+ String "010" (String "010" EmptyString).

(** [ResponseAdapter._format_streaming_response] run to its end over the
    chunks the upstream iterator gives: the frames yielded, in order, and
    the exception that ended the generator, if one did. [uuids i] is the
    uuid available to the formatting of the [i]-th chunk. *)
Fixpoint _format_streaming_response (uuids : nat -> string) (i : nat)
    (body_iterator : list string) (dest_prov : ProviderType)
  : list string * option exn :=
  match body_iterator with
  | [] => ([], None)
  | chunk :: rest =>
      match format (uuids i) chunk dest_prov with
      | Raise e => ([], Some e)
      | Ret openai_chunk =>
          if negb (str_truthy openai_chunk)
          then _format_streaming_response uuids (S i) rest dest_prov
          else
            let '(frames, e) :=
              _format_streaming_response uuids (S i) rest dest_prov in
            (_format_as_openai_chunk openai_chunk :: frames, e)
      end
  end.

End StreamChunkFormatter.

End Adapter.

(** ** A reference [json] for running the code

    [dumps_strs] is [json.dumps] on a list of [str] (default separators,
    [ensure_ascii]). [loads] decodes the JSON texts whose numbers are
    integers, [NaN] or the infinities and whose strings stay in the Latin-1
    range; it answers [None] on every other text, also on texts with
    fractions or exponents that [json.loads] would decode. *)

Module JsonRef.
Import Json.

Definition dquote : ascii := "034"%char.
Definition backslash : ascii := "092"%char.

Definition hex_digit (n : nat) : ascii :=
  ascii_of_nat (if (n <? 10)%nat then 48 + n else 87 + n)%nat.

(** One character of [py_encode_basestring_ascii]. *)
Definition escape_char (c : ascii) : string :=
  let n := nat_of_ascii c in
  if Ascii.eqb c dquote then String backslash (String dquote EmptyString)
  else if Ascii.eqb c backslash
  then String backslash (String backslash EmptyString)
  else if (n =? 10)%nat then String backslash "n"
  else if (n =? 13)%nat then String backslash "r"
  else if (n =? 9)%nat then String backslash "t"
  else if (n =? 8)%nat then String backslash "b"
  else if (n =? 12)%nat then String backslash "f"
  else if ((32 <=? n) && (n <=? 126))%nat then String c EmptyString
  else String backslash
         (String "u" (String "0" (String "0"
            (String (hex_digit (n / 16)) (String (hex_digit (n mod 16))
               EmptyString))))).

Fixpoint escape (s : string) : string :=
  match s with
  | EmptyString => EmptyString
  | String c s' => escape_char c +:+ escape s'
  end.

Definition dumps_str (s : string) : string :=
  String dquote (escape s +:+ String dquote EmptyString).

Fixpoint join (sep : string) (l : list string) : string :=
  match l with
  | [] => EmptyString
  | [x] => x
  | x :: l' => x +:+ sep +:+ join sep l'
  end.

Definition dumps_strs (l : list string) : string :=
  "[" +:+ join ", " (map dumps_str l) +:+ "]".

Definition is_ws (c : ascii) : bool :=
  let n := nat_of_ascii c in
  ((n =? 32) || (n =? 9) || (n =? 10) || (n =? 13))%nat.

Fixpoint skip_ws (s : string) : string :=
  match s with
  | String c s' => if is_ws c then skip_ws s' else s
  | EmptyString => EmptyString
  end.

Fixpoint drop_chars (n : nat) (s : string) : string :=
  match n, s with
  | S n', String _ s' => drop_chars n' s'
  | _, _ => s
  end.

Definition expect (lit s : string) : option string :=
  if String.prefix lit s then Some (drop_chars (String.length lit) s)
  else None.

Definition digit_of (c : ascii) : option Z :=
  let n := nat_of_ascii c in
  if ((48 <=? n) && (n <=? 57))%nat then Some (Z.of_nat n - 48) else None.

Definition hex_of (c : ascii) : option nat :=
  let n := nat_of_ascii c in
  if ((48 <=? n) && (n <=? 57))%nat then Some (n - 48)%nat
  else if ((97 <=? n) && (n <=? 102))%nat then Some (n - 87)%nat
  else if ((65 <=? n) && (n <=? 70))%nat then Some (n - 55)%nat
  else None.

(** The digits at the head of [s], read onto [acc]. *)
Fixpoint digits (acc : Z) (s : string) : Z * string :=
  match s with
  | String c s' =>
      match digit_of c with
      | Some d => digits (10 * acc + d) s'
      | None => (acc, s)
      end
  | EmptyString => (acc, s)
  end.

(** An integer literal without its sign: [0], or digits not led by [0];
    a fraction or an exponent after it is outside the fragment. *)
Definition parse_nat (s : string) : option (Z * string) :=
  match s with
  | String c s' =>
      match digit_of c with
      | Some d =>
          let '(n, rest) := if d =? 0 then (0, s') else digits d s' in
          match rest with
          | String c' _ =>
              if (Ascii.eqb c' "." || Ascii.eqb c' "e" || Ascii.eqb c' "E")%bool
              then None else Some (n, rest)
          | EmptyString => Some (n, rest)
          end
      | None => None
      end
  | EmptyString => None
  end.

(** The rest of a string literal, after its opening quote. *)
Fixpoint parse_string (s : string) : option (string * string) :=
  match s with
  | EmptyString => None
  | String c s' =>
      if Ascii.eqb c dquote then Some (EmptyString, s')
      else if Ascii.eqb c backslash then
        match s' with
        | String e s'' =>
            let lit (x : ascii) :=
              '(t, rest) ← parse_string s''; Some (String x t, rest) in
            if Ascii.eqb e dquote then lit dquote
            else if Ascii.eqb e backslash then lit backslash
            else if Ascii.eqb e "/" then lit "/"%char
            else if Ascii.eqb e "b" then lit "008"%char
            else if Ascii.eqb e "f" then lit "012"%char
            else if Ascii.eqb e "n" then lit "010"%char
            else if Ascii.eqb e "r" then lit "013"%char
            else if Ascii.eqb e "t" then lit "009"%char
            else if Ascii.eqb e "u" then
              match s'' with
              | String h1 (String h2 (String h3 (String h4 s4))) =>
                  a ← hex_of h1; b ← hex_of h2; c ← hex_of h3; d ← hex_of h4;
                  if ((a =? 0) && (b =? 0))%nat then
                    '(t, rest) ← parse_string s4;
                    Some (String (ascii_of_nat (16 * c + d)) t, rest)
                  else None
              | _ => None
              end
            else None
        | EmptyString => None
        end
      else if (nat_of_ascii c <? 32)%nat then None
      else '(t, rest) ← parse_string s'; Some (String c t, rest)
  end.

(** A value at the head of [s]; [parse_elems] and [parse_members] read what
    follows an opening bracket or a comma. *)
Fixpoint parse_value (fuel : nat) (s : string) : option (JValue * string) :=
  match fuel with
  | O => None
  | S f =>
      match skip_ws s with
      | EmptyString => None
      | String c s' =>
          if Ascii.eqb c "{" then
            match skip_ws s' with
            | String "}" rest => Some (JObj [], rest)
            | _ => '(d, rest) ← parse_members f s' []; Some (JObj d, rest)
            end
          else if Ascii.eqb c "[" then
            match skip_ws s' with
            | String "]" rest => Some (JArr [], rest)
            | _ => '(l, rest) ← parse_elems f s' []; Some (JArr l, rest)
            end
          else if Ascii.eqb c dquote then
            '(t, rest) ← parse_string s'; Some (JStr t, rest)
          else if Ascii.eqb c "n" then
            rest ← expect "ull" s'; Some (JNull, rest)
          else if Ascii.eqb c "t" then
            rest ← expect "rue" s'; Some (JBool true, rest)
          else if Ascii.eqb c "f" then
            rest ← expect "alse" s'; Some (JBool false, rest)
          else if Ascii.eqb c "N" then
            rest ← expect "aN" s'; Some (JFloat S754_nan, rest)
          else if Ascii.eqb c "I" then
            rest ← expect "nfinity" s'; Some (JFloat (S754_infinity false), rest)
          else if Ascii.eqb c "-" then
            match expect "Infinity" s' with
            | Some rest => Some (JFloat (S754_infinity true), rest)
            | None => '(n, rest) ← parse_nat s'; Some (JInt (- n), rest)
            end
          else '(n, rest) ← parse_nat (String c s'); Some (JInt n, rest)
      end
  end
with parse_elems (fuel : nat) (s : string) (acc : list JValue)
  : option (list JValue * string) :=
  match fuel with
  | O => None
  | S f =>
      '(v, rest) ← parse_value f s;
      match skip_ws rest with
      | String "," rest' => parse_elems f rest' (acc ++ [v])
      | String "]" rest' => Some (acc ++ [v], rest')
      | _ => None
      end
  end
with parse_members (fuel : nat) (s : string) (acc : list (string * JValue))
  : option (list (string * JValue) * string) :=
  match fuel with
  | O => None
  | S f =>
      match skip_ws s with
      | String c s' =>
          if Ascii.eqb c dquote then
            '(k, rest) ← parse_string s';
            match skip_ws rest with
            | String ":" rest' =>
                '(v, rest'') ← parse_value f rest';
                match skip_ws rest'' with
                | String "," r => parse_members f r (setitem k v acc)
                | String "}" r => Some (setitem k v acc, r)
                | _ => None
                end
            | _ => None
            end
          else None
      | EmptyString => None
      end
  end.

Definition loads (s : string) : option JValue :=
  '(v, rest) ← parse_value (S (String.length s)) s;
  match skip_ws rest with
  | EmptyString => Some v
  | _ => None
  end.

(** [s] between double quotes, for writing JSON texts. *)
Definition q (s : string) : string :=
  String dquote (s +:+ String dquote EmptyString).

End JsonRef.

(** ** The recorder: [codegate/db/connection.py] *)

Module Connection.
Import Json.

(** Modelled from the spec: the pydantic models [Prompt], [Output] and
    [Alert] of [codegate/db/models.py], which is not among the sources;
    their fields are the columns of the three [INSERT] statements, each by
    its text. *)
Record Prompt : Type :=
  { p_id : string;
    p_timestamp : string;
    p_provider : string;
    p_request : string;
    p_type : string }.

Record Output : Type :=
  { o_id : string;
    o_prompt_id : string;
    o_timestamp : string;
    o_output : string }.

Record Alert : Type :=
  { a_id : string;
    a_prompt_id : string;
    a_code_snippet : string;
    a_trigger_string : string;
    a_trigger_type : string;
    a_trigger_category : string;
    a_timestamp : string }.

(** The columns of a row, as [model.model_dump()] and [row._asdict()] give
    them. *)
Inductive Row : Type :=
| RPrompt (p : Prompt)
| ROutput (o : Output)
| RAlert (a : Alert).

(** A pydantic model class: its dump, and its construction from the columns
    of a row ([None] when the construction raises). *)
Class Model (M : Type) : Type :=
  { model_dump : M -> Row;
    model_class : Row -> option M }.

#[global] Instance Prompt_model : Model Prompt :=
  {| model_dump := RPrompt;
     model_class r := match r with RPrompt p => Some p | _ => None end |}.
#[global] Instance Output_model : Model Output :=
  {| model_dump := ROutput;
     model_class r := match r with ROutput o => Some o | _ => None end |}.
#[global] Instance Alert_model : Model Alert :=
  {| model_dump := RAlert;
     model_class r := match r with RAlert a => Some a | _ => None end |}.

(** Modelled from the spec: [PipelineContext] of
    [codegate/pipeline/base.py], which is not among the sources; the
    original prompt, the output fragments in order, the alerts raised
    and the metadata bag, as the recorder reads them. *)
Record PipelineContext : Type :=
  { input_request : option Prompt;
    output_responses : list Output;
    alerts_raised : list Alert;
    metadata : gmap string JValue }.

(** The SQL engine: [execute stored params] is [result.first()] of the
    [INSERT ... RETURNING *] run with [params] on a database holding the
    rows [stored]; [None] when the statement raises or no row comes back. *)
Class Engine : Type :=
  { execute : list Row -> Row -> option Row }.

(** Modelled from the spec: [FimCache] of [codegate/db/fim_cache.py],
    which is not among the sources; a state and its decision on a context,
    with no policy fixed. *)
Class FimCache : Type :=
  { Cache : Type;
    could_store_fim_request : Cache -> PipelineContext -> bool * Cache }.

(** What the recorder does to the world outside it, in order. *)
Inductive Effect : Type :=
| Execute (params : Row) (returned : option Row)
| Put (item : string).

Section DbRecorder.
Context `{Engine} `{FimCache}.

(** The process state: the effects so far, the module-level [fim_cache],
    and the context objects by address. [alert_queue] and the database are
    read off the effects. *)
Record World : Type :=
  { effects : list Effect;
    fim_cache : Cache;
    contexts : gmap nat PipelineContext }.

Definition stored (w : World) : list Row :=
  omap (fun e => match e with Execute _ r => r | Put _ => None end)
       (effects w).

Definition alert_queue (w : World) : list string :=
  omap (fun e => match e with Put m => Some m | Execute _ _ => None end)
       (effects w).

Definition emit (e : Effect) (w : World) : World :=
  {| effects := effects w ++ [e];
     fim_cache := fim_cache w;
     contexts := contexts w |}.

(** [await alert_queue.put(item)]: the queue has no bound. *)
Definition put (item : string) (w : World) : World := emit (Put item) w.

(** The connection is taken to open and commit; what [conn.execute]
    raises is caught by the [try] of the source and gives [None], and so
    does a model class that rejects the row. *)
Definition _insert_pydantic_model {M : Type} `{Model M} (model : M) (w : World)
  : option M * World :=
  let returned := execute (stored w) (model_dump model) in
  let w' := emit (Execute (model_dump model) returned) w in
  match returned with
  | None => (None, w')
  | Some row => (model_class row, w')
  end.

Definition record_request (prompt_params : option Prompt) (w : World)
  : option Prompt * World :=
  match prompt_params with
  | None => (None, w)
  | Some prompt => _insert_pydantic_model prompt w
  end.

(** [json.dumps] of a list of [str]. *)
Definition json_dumps : list string -> string := JsonRef.dumps_strs.

Definition record_outputs (outputs : list Output) (w : World)
  : option Output * World :=
  match outputs with
  | [] => (None, w)
  | first_output :: _ =>
      let full_outputs := map o_output outputs in
      let output_db :=
        {| o_id := o_id first_output;
           o_prompt_id := o_prompt_id first_output;
           o_timestamp := o_timestamp first_output;
           o_output := json_dumps full_outputs |} in
      _insert_pydantic_model output_db w
  end.

(** A task of the group: the coroutine [_insert_pydantic_model(alert, sql)]
    by its model, and its outcome once it has run. *)
Record Task : Type :=
  { coro_model : Alert;
    outcome : option (option Alert) }.

(** [tg.create_task(coro)] *)
Definition create_task (alert : Alert) : Task :=
  {| coro_model := alert; outcome := None |}.

(** The event loop runs the pending task [i] to its end for each [i] of
    [order]. *)
Fixpoint run_tasks (order : list nat) (tasks : list Task) (w : World)
  : list Task * World :=
  match order with
  | [] => (tasks, w)
  | i :: order' =>
      match tasks !! i with
      | Some {| coro_model := model; outcome := None |} =>
          let '(returned, w') := _insert_pydantic_model model w in
          run_tasks order'
            (<[i := {| coro_model := model; outcome := Some returned |}]> tasks)
            w'
      | _ => run_tasks order' tasks w
      end
  end.

(** Leaving [async with asyncio.TaskGroup()]: the tasks finish in the order
    [sched] picks, and whatever [sched] leaves out finishes after. *)
Definition task_group (sched : list nat) (tasks : list Task) (w : World)
  : list Task * World :=
  run_tasks (sched ++ seq 0 (length tasks)) tasks w.

(** [task.result()]; every task of a group that was left has an outcome
    ([task_group_done]). *)
Definition result (t : Task) : option Alert :=
  match outcome t with
  | Some returned => returned
  | None => None
  end.

Definition is_critical (alert_result : option Alert) : bool :=
  match alert_result with
  | Some a => String.eqb (a_trigger_category a) "critical"
  | None => false
  end.

(** The second loop of [record_alerts]; [alert] is the variable the first
    loop left bound. *)
Fixpoint collect_results (alert : Alert) (alerts_tasks : list Task)
    (recorded_alerts : list (option Alert)) (w : World)
  : list (option Alert) * World :=
  match alerts_tasks with
  | [] => (recorded_alerts, w)
  | alert_coro :: rest =>
      let alert_result := result alert_coro in
      let recorded_alerts := recorded_alerts ++ [alert_result] in
      let w' :=
        if is_critical alert_result
        then put ("New alert detected: " +:+ a_timestamp alert) w
        else w in
      collect_results alert rest recorded_alerts w'
  end.

Definition record_alerts (sched : list nat) (alerts : list Alert) (w : World)
  : option (list (option Alert)) * World :=
  match alerts with
  | [] => (None, w)
  | first :: _ =>
      let alerts_tasks := map create_task alerts in
      let alert := List.last alerts first in
      let '(alerts_tasks, w1) := task_group sched alerts_tasks w in
      let '(recorded_alerts, w2) := collect_results alert alerts_tasks [] w1 in
      (Some recorded_alerts, w2)
  end.

Definition stored_in_db (context : PipelineContext) : bool :=
  truthy (default (JBool false) (metadata context !! "stored_in_db")).

Definition _should_record_context (context : option PipelineContext)
    (w : World) : bool * World :=
  match context with
  | None => (false, w)
  | Some c =>
      if stored_in_db c then (false, w)
      else
        match input_request c with
        | None => (false, w)
        | Some request =>
            if negb (String.eqb (p_type request) "fim") then (true, w)
            else
              let '(b, cache) := could_store_fim_request (fim_cache w) c in
              (b, {| effects := effects w;
                     fim_cache := cache;
                     contexts := contexts w |})
        end
  end.

Definition set_metadata (l : nat) (k : string) (v : JValue) (w : World)
  : World :=
  {| effects := effects w;
     fim_cache := fim_cache w;
     contexts :=
       alter (fun c =>
                {| input_request := input_request c;
                   output_responses := output_responses c;
                   alerts_raised := alerts_raised c;
                   metadata := <[k := v]> (metadata c) |})
             l (contexts w) |}.

(** [context] is [None] or the address of a context object (an address
    passed in holds one). No modelled step of the [try] block raises, so
    its handler has no branch here. *)
Definition record_context (sched : list nat) (context : option nat)
    (w : World) : World :=
  match context with
  | None => snd (_should_record_context None w)
  | Some l =>
      match contexts w !! l with
      | None => w
      | Some c =>
          let '(should, w0) := _should_record_context (Some c) w in
          if negb should then w0
          else
            let '(_, w1) := record_request (input_request c) w0 in
            let '(_, w2) := record_outputs (output_responses c) w1 in
            let '(_, w3) := record_alerts sched (alerts_raised c) w2 in
            set_metadata l "stored_in_db" (JBool true) w3
      end
  end.

(** The three record steps of [record_context], in their order. *)
Definition record_steps (sched : list nat) (c : PipelineContext) (w : World)
  : World :=
  (record_alerts sched (alerts_raised c)
     (record_outputs (output_responses c)
        (record_request (input_request c) w).2).2).2.

(** The statement of an [Execute] effect and the model its task got
    back. *)
Definition exec_pair (e : Effect) : option (Row * option Alert) :=
  match e with
  | Execute params returned => Some (params, returned ≫= model_class)
  | Put _ => None
  end.

(** The tasks that have run, by statement and result. *)
Definition done_pairs (tasks : list Task) : list (Row * option Alert) :=
  omap (fun t => r ← outcome t; Some (RAlert (coro_model t), r)) tasks.

End DbRecorder.

End Connection.

(** ** Objects on a heap, for [copy.deepcopy] and item assignment *)

Module Heap.
Import Json.

(** A Python value: an immutable atom, or the address of a [dict] or a
    [list]. *)
Inductive pyval : Type :=
| VNone
| VBool (b : bool)
| VInt (n : Z)
| VFloat (f : spec_float)
| VStr (s : string)
| VRef (l : nat).

Inductive pyobj : Type :=
| ODict (items : list (string * pyval))
| OList (items : list pyval).

(** Address [l] holds the [l]-th object; a new object goes to the end. *)
Abbreviation heap := (list pyobj).

Definition alloc (o : pyobj) (h : heap) : nat * heap :=
  (length h, h ++ [o]).

(** [y[key] = value] for the dict at [y]; [None] when [y] holds no dict. *)
Definition setitem_at (y : nat) (key : string) (value : pyval) (h : heap)
  : option heap :=
  match h !! y with
  | Some (ODict items) => Some (<[y := ODict (setitem key value items)]> h)
  | _ => None
  end.

(** [y.append(value)] for the list at [y]. *)
Definition append_at (y : nat) (value : pyval) (h : heap) : option heap :=
  match h !! y with
  | Some (OList items) => Some (<[y := OList (items ++ [value])]> h)
  | _ => None
  end.

(** The loop of [_deepcopy_dict]: [y[key] = deepcopy(value, memo)] for each
    item, with [copy] for the recursive call. *)
Definition copy_dict_items
    (copy : pyval -> gmap nat nat -> heap -> option (pyval * gmap nat nat * heap))
    (y : nat)
  : list (string * pyval) -> gmap nat nat -> heap ->
    option (gmap nat nat * heap) :=
  fix loop items memo h :=
    match items with
    | [] => Some (memo, h)
    | (key, value) :: rest =>
        '(value', memo, h) ← copy value memo h;
        h ← setitem_at y key value' h;
        loop rest memo h
    end.

(** The loop of [_deepcopy_list]: [y.append(deepcopy(a, memo))] for each
    item. *)
Definition copy_list_items
    (copy : pyval -> gmap nat nat -> heap -> option (pyval * gmap nat nat * heap))
    (y : nat)
  : list pyval -> gmap nat nat -> heap -> option (gmap nat nat * heap) :=
  fix loop items memo h :=
    match items with
    | [] => Some (memo, h)
    | a :: rest =>
        '(a', memo, h) ← copy a memo h;
        h ← append_at y a' h;
        loop rest memo h
    end.

(** [copy.deepcopy(x, memo)]: an atom is returned as it is; a dict or a
    list already in [memo] gives its copy; otherwise the empty copy is
    made and entered in [memo] first, then filled item by item
    ([_deepcopy_dict], [_deepcopy_list]). [None]: the nesting is deeper
    than [fuel], or an address holds nothing. *)
Fixpoint deepcopy (fuel : nat) (x : pyval) (memo : gmap nat nat) (h : heap)
  : option (pyval * gmap nat nat * heap) :=
  match x with
  | VRef l =>
      match memo !! l with
      | Some y => Some (VRef y, memo, h)
      | None =>
          match fuel with
          | O => None
          | S fuel' =>
              match h !! l with
              | None => None
              | Some (ODict items) =>
                  let '(y, h) := alloc (ODict []) h in
                  let memo := <[l := y]> memo in
                  '(memo, h) ← copy_dict_items (deepcopy fuel') y items memo h;
                  Some (VRef y, memo, h)
              | Some (OList items) =>
                  let '(y, h) := alloc (OList []) h in
                  let memo := <[l := y]> memo in
                  '(memo, h) ← copy_list_items (deepcopy fuel') y items memo h;
                  Some (VRef y, memo, h)
              end
          end
      end
  | _ => Some (x, memo, h)
  end.

(** The items of a JSON list and of a JSON object built on the heap, with
    [build] for the items themselves. *)
Definition alloc_list (build : JValue -> heap -> pyval * heap)
  : list JValue -> heap -> list pyval * heap :=
  fix go vs h :=
    match vs with
    | [] => ([], h)
    | v :: vs' =>
        let '(x, h) := build v h in
        let '(xs, h) := go vs' h in
        (x :: xs, h)
    end.

Definition alloc_members (build : JValue -> heap -> pyval * heap)
  : list (string * JValue) -> heap -> list (string * pyval) * heap :=
  fix go d h :=
    match d with
    | [] => ([], h)
    | (k, v) :: d' =>
        let '(x, h) := build v h in
        let '(xs, h) := go d' h in
        ((k, x) :: xs, h)
    end.

(** A JSON value built on the heap, as parsing a request body builds it:
    the items first, then the object that holds them. *)
Fixpoint alloc_json (v : JValue) (h : heap) : pyval * heap :=
  match v with
  | JNull => (VNone, h)
  | JBool b => (VBool b, h)
  | JInt n => (VInt n, h)
  | JFloat f => (VFloat f, h)
  | JStr s => (VStr s, h)
  | JArr vs =>
      let '(items, h) := alloc_list alloc_json vs h in
      let '(l, h) := alloc (OList items) h in
      (VRef l, h)
  | JObj d =>
      let '(items, h) := alloc_members alloc_json d h in
      let '(l, h) := alloc (ODict items) h in
      (VRef l, h)
  end.

(** The nesting depth of a JSON value. *)
Fixpoint depth (v : JValue) : nat :=
  match v with
  | JArr vs => S (foldr (fun v n => Nat.max (depth v) n) O vs)
  | JObj d => S (foldr (fun kv n => Nat.max (depth kv.2) n) O d)
  | _ => O
  end.

(** [repr h x v]: read from [h], the value [x] is the JSON value [v]. *)
Inductive repr (h : heap) : pyval -> JValue -> Prop :=
| repr_null : repr h VNone JNull
| repr_bool b : repr h (VBool b) (JBool b)
| repr_int n : repr h (VInt n) (JInt n)
| repr_float f : repr h (VFloat f) (JFloat f)
| repr_str s : repr h (VStr s) (JStr s)
| repr_arr l items vs :
    h !! l = Some (OList items) ->
    Forall2 (repr h) items vs ->
    repr h (VRef l) (JArr vs)
| repr_obj l items d :
    h !! l = Some (ODict items) ->
    Forall2 (fun i e => i.1 = e.1 /\ repr h i.2 e.2) items d ->
    repr h (VRef l) (JObj d).

(** [h'] has every object of [h], unchanged, at its address. *)
Definition extends (h h' : heap) : Prop :=
  (length h <= length h')%nat /\
  forall l : nat, (l < length h)%nat -> h' !! l = h !! l.

(** A value that holds no address below [n]. *)
Definition val_from (n : nat) (x : pyval) : Prop :=
  match x with
  | VRef y => (n <= y)%nat
  | _ => True
  end.

Definition obj_from (n : nat) (o : pyobj) : Prop :=
  match o with
  | ODict items => Forall (fun kv => val_from n kv.2) items
  | OList items => Forall (val_from n) items
  end.

(** The objects of [h] from address [n] on hold no address below [n]:
    nothing reached from them is an object below [n]. *)
Definition separate (n : nat) (h : heap) : Prop :=
  forall (l : nat) (o : pyobj),
    (n <= l)%nat -> h !! l = Some o -> obj_from n o.

(** No key twice, at any depth: the JSON values that are Python objects. *)
Fixpoint wf_json (v : JValue) : Prop :=
  match v with
  | JArr vs => foldr (fun v P => wf_json v /\ P) True vs
  | JObj d =>
      NoDup (map fst d) /\ foldr (fun kv P => wf_json kv.2 /\ P) True d
  | _ => True
  end.

(** The frame of a copy function: it leaves every object it is given
    where and as it is. *)
Definition frames
    (copy : pyval -> gmap nat nat -> heap -> option (pyval * gmap nat nat * heap))
  : Prop :=
  forall x memo h r memo' h',
    copy x memo h = Some (r, memo', h') -> extends h h'.

(** Every copy in [memo] is at address [n] or above. *)
Definition memo_from (n : nat) (memo : gmap nat nat) : Prop :=
  forall l y : nat, memo !! l = Some y -> (n <= y)%nat.

(** A copy function that builds from address [n] on: what it returns and
    what it stores holds no address below [n], unless it is an atom. *)
Definition builds_from (n : nat)
    (copy : pyval -> gmap nat nat -> heap -> option (pyval * gmap nat nat * heap))
  : Prop :=
  forall x memo h r memo' h',
    memo_from n memo -> (n <= length h)%nat -> separate n h ->
    copy x memo h = Some (r, memo', h') ->
    memo_from n memo' /\ separate n h' /\ val_from n r.

(** A copy function that returns on whatever represents [v]. *)
Definition returns_on (h0 : heap) (v : JValue)
    (copy : pyval -> gmap nat nat -> heap -> option (pyval * gmap nat nat * heap))
  : Prop :=
  forall x memo h, repr h0 x v -> extends h0 h -> is_Some (copy x memo h).

(** The number of dicts and lists in a JSON value. *)
Fixpoint size (v : JValue) : nat :=
  match v with
  | JArr vs => S (foldr (fun v n => (size v + n)%nat) O vs)
  | JObj d => S (foldr (fun kv n => (size kv.2 + n)%nat) O d)
  | _ => O
  end.

(** A value, an object, that holds addresses of [D] only. *)
Definition val_in (D : nat -> Prop) (x : pyval) : Prop :=
  match x with
  | VRef y => D y
  | _ => True
  end.

Definition obj_in (D : nat -> Prop) (o : pyobj) : Prop :=
  match o with
  | ODict items => Forall (fun kv => val_in D kv.2) items
  | OList items => Forall (val_in D) items
  end.

(** The objects at the addresses of [D] hold addresses of [D] only. *)
Definition closed (D : nat -> Prop) (h : heap) : Prop :=
  forall (a : nat) (o : pyobj), D a -> h !! a = Some o -> obj_in D o.

Section Copied.
Variable h0 : heap.

(** A memo entry for an object of [h0] that stands for a value smaller
    than [n] is a complete copy of it. *)
Definition memo_ok (n : nat) (D : nat -> Prop) (memo : gmap nat nat)
    (h : heap) : Prop :=
  forall l y v', memo !! l = Some y -> repr h0 (VRef l) v' ->
                 (size v' < n)%nat -> D y /\ repr h (VRef y) v'.

(** What [memo'] has more than [memo] is for values smaller than [s]. *)
Definition memo_new (s : nat) (memo memo' : gmap nat nat) : Prop :=
  forall l y v', memo !! l = None -> memo' !! l = Some y ->
                 repr h0 (VRef l) v' -> (size v' < s)%nat.

(** What a copy function does on what stands for [v] in [h0]: the result
    stands for [v], and the complete copies stay complete. *)
Definition copied
    (copy : pyval -> gmap nat nat -> heap -> option (pyval * gmap nat nat * heap))
    (v : JValue) : Prop :=
  forall x memo h r memo' h' n (D : nat -> Prop),
    repr h0 x v -> wf_json v -> extends h0 h -> (size v < n)%nat ->
    memo_ok n D memo h -> closed D h ->
    (forall a, D a -> (a < length h)%nat) ->
    copy x memo h = Some (r, memo', h') ->
    exists D' : nat -> Prop,
      (forall a, D a -> D' a) /\
      (forall a, D' a -> D a \/ (length h <= a)%nat) /\
      (forall a, D' a -> (a < length h')%nat) /\
      (forall a, D a -> h' !! a = h !! a) /\
      closed D' h' /\
      memo_ok n D' memo' h' /\
      memo ⊆ memo' /\
      memo_new (S (size v)) memo memo' /\
      val_in D' r /\
      repr h' r v.

End Copied.

End Heap.

(** ** The body adapter: [BodyAdapter] of [codegate/muxing/adapter.py] *)

Module BodyAdapter.
Import Py Json Heap Adapter.

Definition _get_provider_formatted_url (model_route : ModelRoute) : string :=
  if bool_decide
       (provider_type (route_endpoint model_route) ∈ [openai; openrouter])
  then endpoint (route_endpoint model_route) +:+ "/v1"
  else endpoint (route_endpoint model_route).

(** [new_data[key] = value]: item assignment with a [str] key is a
    [TypeError] on anything but a dict. *)
Definition setitem_or_raise (new_data : pyval) (key : string) (value : pyval)
    (h : heap) : res unit * heap :=
  match new_data with
  | VRef y =>
      match setitem_at y key value h with
      | Some h' => (Ret (), h')
      | None => (Raise TypeError, h)
      end
  | _ => (Raise TypeError, h)
  end.

Definition set_destination_info (fuel : nat) (model_route : ModelRoute)
    (data : pyval) (h : heap) : option (res pyval * heap) :=
  '(new_data, _, h) ← deepcopy fuel data ∅ h;
  Some
    match setitem_or_raise new_data "model"
            (VStr (name (route_model model_route))) h with
    | (Raise e, h) => (Raise e, h)
    | (Ret _, h) =>
        match setitem_or_raise new_data "base_url"
                (VStr (_get_provider_formatted_url model_route)) h with
        | (Raise e, h) => (Raise e, h)
        | (Ret _, h) => (Ret new_data, h)
        end
    end.

End BodyAdapter.

(** ** Creating the database: [DbRecorder.init_db] and [init_db_sync] of
    [codegate/db/connection.py] *)

Module InitDb.
Import Py.

(** The list comprehension of [init_db]: the schema cut at every [;], each
    piece stripped, the pieces that strip to nothing left out. *)
Definition statements (schema : string) : res (list string) :=
  parts ← split schema ";";
  Ret (map strip (List.filter (fun stmt => str_truthy (strip stmt)) parts)).

(** What [init_db] raises: its own [FileNotFoundError], an exception of
    the string methods, or what [conn.execute] raises on a statement. *)
Inductive exn : Type :=
| FileNotFoundError
| Raised (e : Py.exn)
| ExecuteError (statement : string).

(** The SQLite engine as [init_db] drives it: whether opening a connection
    leaves a database file behind, and whether [conn.execute] returns on a
    statement, given the statements run on the connection before it. *)
Class Sqlite : Type :=
  { begin_creates_file : bool;
    conn_execute : list string -> string -> bool }.

(** What [init_db] reads and changes outside the recorder: whether
    [_db_path] is a file, the text of [schema.sql] when that file exists,
    and the statements passed to [conn.execute] so far, in order. *)
Record State : Type :=
  { db_file : bool;
    schema_sql : option string;
    executed : list string }.

Section DbRecorder.
Context `{Sqlite}.

(** [self._async_db_engine.begin()] *)
Definition begin (st : State) : State :=
  {| db_file := db_file st || begin_creates_file;
     schema_sql := schema_sql st;
     executed := executed st |}.

(** The [for] loop of [init_db]; [ran] holds the statements of this
    connection that returned. *)
Fixpoint execute_each (ran statements : list string) (st : State)
  : option exn * State :=
  match statements with
  | [] => (None, st)
  | statement :: rest =>
      let st' := {| db_file := db_file st;
                    schema_sql := schema_sql st;
                    executed := executed st ++ [statement] |} in
      if conn_execute ran statement
      then execute_each (ran ++ [statement]) rest st'
      else (Some (ExecuteError statement), st')
  end.

(** [DbRecorder.init_db]: the exception it ends with, if any, and the
    state it leaves. The [dispose] of its [finally] changes nothing of the
    state. *)
Definition init_db (st : State) : option exn * State :=
  if db_file st then (None, st)
  else
    match schema_sql st with
    | None => (Some FileNotFoundError, st)
    | Some schema =>
        let st := begin st in
        match statements schema with
        | Raise e => (Some (Raised e), st)
        | Ret statements => execute_each [] statements st
        end
    end.

(** [DbRecorder.__init__], after the engine is made. *)
Definition DbRecorder__init__ (st : State) : option exn * State :=
  if negb (db_file st) then init_db st else (None, st).

Definition init_db_sync (st : State) : option exn * State :=
  match DbRecorder__init__ st with
  | (Some e, st) => (Some e, st)
  | (None, st) => init_db st
  end.

End DbRecorder.

(** A schema file written statement by statement: each statement between
    two runs of spaces and closed by [;], and [tail] after the last [;]. *)
Fixpoint schema_text (items : list (string * string * string))
    (tail : string) : string :=
  match items with
  | [] => tail
  | (before, statement, after) :: rest =>
      before +:+ statement +:+ after +:+ ";" +:+ schema_text rest tail
  end.

End InitDb.

(** ** Reference libraries

    Instances of the library classes for running the code: the reference
    [json], a litellm that re-serialises what it is given, an engine whose
    tables have [id] as their key, and a FIM cache that remembers the
    requests it has seen. *)

Module Ref.
Import Json JsonRef Adapter Connection.

(** A compact JSON text of a value; [None] on a finite float. *)
Fixpoint dumps (v : JValue) : option string :=
  match v with
  | JNull => Some "null"
  | JBool b => Some (if b then "true" else "false")
  | JInt n => Some (pretty n)
  | JFloat S754_nan => Some "NaN"
  | JFloat (S754_infinity sign) => Some (if sign then "-Infinity" else "Infinity")
  | JFloat _ => None
  | JStr s => Some (dumps_str s)
  | JArr vs =>
      items ← (fix go (vs : list JValue) : option (list string) :=
                 match vs with
                 | [] => Some []
                 | v :: vs' => t ← dumps v; ts ← go vs'; Some (t :: ts)
                 end) vs;
      Some ("[" +:+ join "," items +:+ "]")
  | JObj d =>
      items ← (fix go (d : list (string * JValue)) : option (list string) :=
                 match d with
                 | [] => Some []
                 | (k, v) :: d' =>
                     t ← dumps v; ts ← go d';
                     Some ((dumps_str k +:+ ":" +:+ t) :: ts)
                 end) d;
      Some ("{" +:+ join "," items +:+ "}")
  end.

Definition choice_to_json (c : StreamingChoices) : JValue :=
  JObj
    (match finish_reason c with
     | Some r => [("finish_reason", JStr r)]
     | None => []
     end ++
     [("index", JInt (index c));
      ("delta", JObj [("content", content (delta c));
                      ("role", JStr (role (delta c)))])] ++
     match logprobs c with
     | Some l => [("logprobs", l)]
     | None => []
     end).

Definition response_to_json (r : ModelResponse) : JValue :=
  JObj [("id", JStr (mr_id r));
        ("model", JStr (mr_model r));
        ("object", JStr (mr_object r));
        ("choices", JArr (map choice_to_json (mr_choices r)))].

Definition json : JsonLib := {| json_loads := loads |}.

Definition litellm : ChunkLib :=
  {| openai_dump v := match v with JObj _ => dumps v | _ => None end;
     ollama_dump v := match v with JObj _ => dumps v | _ => None end;
     model_dump_json r := dumps (response_to_json r) |}.

Definition row_key (r : Row) : nat * string :=
  match r with
  | RPrompt p => (0%nat, p_id p)
  | ROutput o => (1%nat, o_id o)
  | RAlert a => (2%nat, a_id a)
  end.

(** An [INSERT] fails on a key already in its table and otherwise returns
    the row as given. *)
Definition sqlite : Engine :=
  {| execute stored params :=
       if bool_decide (row_key params ∈ map row_key stored)
       then None else Some params |}.

(** The cache accepts a context whose request text it has not seen. *)
Definition seen_requests : FimCache :=
  {| Cache := list string;
     could_store_fim_request cache context :=
       match input_request context with
       | Some p =>
           if bool_decide (p_request p ∈ cache) then (false, cache)
           else (true, p_request p :: cache)
       | None => (false, cache)
       end |}.

(** An engine without constraints: every [INSERT] returns the row as
    given. *)
Definition unconstrained : Engine :=
  {| execute _ params := Some params |}.

(** An engine on which every statement raises, as on a database that
    cannot be written. *)
Definition read_only : Engine :=
  {| execute _ _ := None |}.

(** For [init_db]: opening a connection creates the file, and a statement
    fails when it was run before, as [CREATE TABLE] does. *)
Definition sqlite3 : InitDb.Sqlite :=
  {| InitDb.begin_creates_file := true;
     InitDb.conn_execute ran statement :=
       negb (bool_decide (statement ∈ ran)) |}.

End Ref.

(** ** Sample inputs *)

Module Samples.
Import JsonRef Adapter.

(** [data: {"type": "message_stop"}], the last event of an Anthropic
    stream. *)
Definition bare_message_stop : string :=
  "data: {" +:+ q "type" +:+ ": " +:+ q "message_stop" +:+ "}".

(** [data: {"type": "message_stop", "delta": {"stop_reason": null}}] *)
Definition message_stop_with_delta : string :=
  "data: {" +:+ q "type" +:+ ": " +:+ q "message_stop" +:+ ", "
  +:+ q "delta" +:+ ": {" +:+ q "stop_reason" +:+ ": null}}".

(** The chunk [_format_antropic] builds for a stop without text. *)
Definition stop_chunk (uuid : string) : ModelResponse :=
  {| mr_id := "anthropic-chat-" +:+ uuid;
     mr_model := "anthropic-muxed-model";
     mr_object := "chat.completion.chunk";
     mr_choices :=
       [ {| finish_reason := Some "stop";
            index := 0;
            delta := {| content := Json.JStr EmptyString;
                        role := "assistant" |};
            logprobs := None |} ] |}.

(** Three alerts of one prompt: [alert_a] and [alert_c] critical,
    [alert_b] not. *)
Definition alert_of (id category timestamp : string) : Connection.Alert :=
  {| Connection.a_id := id;
     Connection.a_prompt_id := "p";
     Connection.a_code_snippet := EmptyString;
     Connection.a_trigger_string := "secret";
     Connection.a_trigger_type := "codegate-secrets";
     Connection.a_trigger_category := category;
     Connection.a_timestamp := timestamp |}.

Definition alert_a : Connection.Alert := alert_of "A" "critical" "t1".
Definition alert_b : Connection.Alert := alert_of "B" "info" "t2".
Definition alert_c : Connection.Alert := alert_of "C" "critical" "t3".

(** Two fragments of one output. *)
Definition out_a : Connection.Output :=
  {| Connection.o_id := "1";
     Connection.o_prompt_id := "p";
     Connection.o_timestamp := "t1";
     Connection.o_output := "a" |}.
Definition out_b : Connection.Output :=
  {| Connection.o_id := "1";
     Connection.o_prompt_id := "p";
     Connection.o_timestamp := "t2";
     Connection.o_output := "b" |}.

Definition prompt_of (type : string) : Connection.Prompt :=
  {| Connection.p_id := "p";
     Connection.p_timestamp := "t0";
     Connection.p_provider := "openai";
     Connection.p_request := "r";
     Connection.p_type := type |}.

Definition context_of (type : string) : Connection.PipelineContext :=
  {| Connection.input_request := Some (prompt_of type);
     Connection.output_responses := [out_a; out_b];
     Connection.alerts_raised := [alert_a; alert_b];
     Connection.metadata := ∅ |}.

(** A world with nothing stored, the requests [seen] in the FIM cache and
    one context object at address [7]. *)
Definition world_of (seen : list string) (c : Connection.PipelineContext)
  : @Connection.World Ref.seen_requests :=
  @Connection.Build_World Ref.seen_requests [] seen {[ 7%nat := c ]}.

(** The body [{"model": "m", "messages": [{"role": "user"}]}]. *)
Definition body : Json.JValue :=
  Json.JObj [("model", Json.JStr "m");
             ("messages", Json.JArr [Json.JObj [("role", Json.JStr "user")]])].

Definition route_of (url : string) (provider : ProviderType) : ModelRoute :=
  {| route_model := {| name := "gpt" |};
     route_endpoint := {| endpoint := url; provider_type := provider |} |}.

(** The chunk [_format_antropic] builds, by its finish reason and text. *)
Definition anthropic_chunk (uuid : string) (finish_reason : option string)
    (msg_content : Json.JValue) : ModelResponse :=
  {| mr_id := "anthropic-chat-" +:+ uuid;
     mr_model := "anthropic-muxed-model";
     mr_object := "chat.completion.chunk";
     mr_choices :=
       [ {| finish_reason := finish_reason;
            index := 0;
            delta := {| content := msg_content; role := "assistant" |};
            logprobs := None |} ] |}.

(** [data: {"type": "content_block_delta", "delta": {"text": "hi"}}] *)
Definition content_block_delta : string :=
  "data: {" +:+ q "type" +:+ ": " +:+ q "content_block_delta" +:+ ", "
  +:+ q "delta" +:+ ": {" +:+ q "text" +:+ ": " +:+ q "hi" +:+ "}}".

(** No database file yet, and a schema of three statements, the second a
    repetition of the first. *)
Definition fresh_install : InitDb.State :=
  {| InitDb.db_file := false;
     InitDb.schema_sql :=
       Some "CREATE TABLE a (x); CREATE TABLE a (x); CREATE TABLE b (y);";
     InitDb.executed := [] |}.

End Samples.

(** * Properties *)

(** ** [str.split] and [str.strip] *)

Section PyFacts.
Import Py.

Lemma split_go_absent (sep s : string) :
  contains sep s = false -> split_go sep s 0 = (s, []).
Proof.
  induction s as [|c s IH]; [done|].
  cbn [contains split_go]. intros Hc.
  apply orb_false_iff in Hc as [Hp Hs].
  rewrite Hp, (IH Hs). done.
Qed.

Lemma split_go_present (sep s : string) :
  sep <> EmptyString -> contains sep s = true ->
  exists p q ps, split_go sep s 0 = (p, q :: ps).
Proof.
  intros Hsep. induction s as [|c s IH].
  - destruct sep; [done|]. discriminate.
  - cbn [contains split_go]. intros Hc.
    destruct (String.prefix sep (String c s)) eqn:Hp.
    + destruct (split_go sep s (String.length sep - 1)) as [p ps]. eauto.
    + destruct (IH Hc) as (p & q & ps & ->). eauto.
Qed.

(** Without the separator the split has one piece, so its item [1] is an
    [IndexError]. *)
Lemma split_getitem_absent (sep s : string) :
  sep <> EmptyString -> contains sep s = false ->
  (parts ← split s sep; getitem parts 1) = Raise IndexError.
Proof.
  intros Hsep Hc. unfold split. destruct sep; [done|].
  rewrite (split_go_absent _ _ Hc). done.
Qed.

Lemma split_getitem_present (sep s : string) :
  sep <> EmptyString -> contains sep s = true ->
  exists piece, (parts ← split s sep; getitem parts 1) = Ret piece.
Proof.
  intros Hsep Hc. unfold split. destruct sep; [done|].
  destruct (split_go_present _ _ Hsep Hc) as (p & q & ps & ->). by exists q.
Qed.

(** Skipping the rest of a matched separator. *)
Lemma split_go_skip (sep pre s : string) :
  split_go sep (pre +:+ s) (String.length pre) = split_go sep s 0.
Proof.
  induction pre as [|c pre IH]; [done|]. exact IH.
Qed.

Lemma all_space_cons c s :
  all_space (String c s) <-> isspace c = true /\ all_space s.
Proof.
  unfold all_space. cbn. split.
  - intros Hs. split; [apply Hs; by left | intros c' Hc'; apply Hs; by right].
  - intros [Hc Hs] c' [<-|Hc']; auto.
Qed.

Lemma lstrip_all_space s : all_space s -> lstrip s = EmptyString.
Proof.
  induction s as [|c s IH]; [done|].
  intros [Hc Hs]%all_space_cons. cbn. rewrite Hc. auto.
Qed.

Lemma strip_all_space s : all_space s -> strip s = EmptyString.
Proof. intros Hs. unfold strip. by rewrite lstrip_all_space. Qed.

(** A run of spaces holds no [data:]. *)
Lemma contains_data_all_space s :
  all_space s -> contains "data:" s = false.
Proof.
  induction s as [|c s IH]; [done|].
  intros [Hc Hs]%all_space_cons. cbn [contains]. rewrite (IH Hs), orb_false_r.
  cbn [String.prefix].
  destruct (ascii_dec "d" c) as [<-|]; [discriminate Hc | done].
Qed.

Lemma prefix_append (p s : string) : String.prefix p (p +:+ s) = true.
Proof.
  induction p as [|a p IH]; [by destruct s|].
  change (String a p +:+ s) with (String a (p +:+ s)). cbn [String.prefix].
  by destruct (ascii_dec a a).
Qed.

(** A separator at the head of the text closes an empty piece. *)
Lemma split_go_at_sep (a : ascii) (sep' s : string) :
  split_go (String a sep') (String a sep' +:+ s) 0 =
  (EmptyString, let '(p, ps) := split_go (String a sep') s 0 in p :: ps).
Proof.
  pose proof (prefix_append (String a sep') s) as Hp.
  change (String a sep' +:+ s) with (String a (sep' +:+ s)) in *.
  cbn [split_go]. rewrite Hp.
  replace (String.length (String a sep') - 1)%nat with (String.length sep')
    by (cbn; lia).
  by rewrite split_go_skip.
Qed.

(** The item [1] of the split of [data:] followed by spaces is the
    spaces. *)
Lemma split_data_blank ws :
  all_space ws ->
  (parts ← split ("data:" +:+ ws) "data:"; getitem parts 1) = Ret ws.
Proof.
  intros Hws. unfold split.
  rewrite split_go_at_sep,
    (split_go_absent _ _ (contains_data_all_space _ Hws)).
  done.
Qed.

End PyFacts.

(** ** The reference [json]: decoding what [json.dumps] wrote *)

Section JsonRefFacts.
Import Json JsonRef.

Lemma append_cons (a : ascii) (s t : string) :
  String a s +:+ t = String a (s +:+ t).
Proof. reflexivity. Qed.

Lemma append_assoc (a b c : string) : (a +:+ b) +:+ c = a +:+ (b +:+ c).
Proof. induction a as [|x a IH]; [done|]. by rewrite !append_cons, IH. Qed.

Lemma length_append (a b : string) :
  String.length (a +:+ b) = (String.length a + String.length b)%nat.
Proof. induction a as [|x a IH]; [done|]. rewrite append_cons. cbn. by rewrite IH. Qed.

Lemma parse_string_escape_char (c : ascii) (t : string) :
  parse_string (escape_char c +:+ t) =
  ('(s, rest) ← parse_string t; Some (String c s, rest)).
Proof. destruct c as [[] [] [] [] [] [] [] []]; reflexivity. Qed.

Lemma parse_string_escape (s rest : string) :
  parse_string (escape s +:+ String dquote rest) = Some (s, rest).
Proof.
  induction s as [|c s IH]; [reflexivity|].
  cbn [escape]. by rewrite append_assoc, parse_string_escape_char, IH.
Qed.

Lemma parse_value_quote (f : nat) (t : string) :
  parse_value (S f) (String dquote t) =
  ('(s, rest) ← parse_string t; Some (JStr s, rest)).
Proof. reflexivity. Qed.

Lemma parse_value_space (f : nat) (t : string) :
  parse_value (S f) (String " " t) = parse_value (S f) t.
Proof. reflexivity. Qed.

Lemma parse_value_dumps_str (f : nat) (sp : bool) (s rest : string) :
  parse_value (S f) ((if sp then " " else EmptyString) +:+ dumps_str s +:+ rest)
  = Some (JStr s, rest).
Proof.
  unfold dumps_str. rewrite append_cons, append_assoc, append_cons.
  assert (parse_value (S f)
            (String dquote (escape s +:+ String dquote (EmptyString +:+ rest)))
          = Some (JStr s, rest)) as Hq.
  { by rewrite parse_value_quote, parse_string_escape. }
  destruct sp; [|exact Hq].
  change (" " +:+ ?t) with (String " " t). by rewrite parse_value_space.
Qed.

Lemma join_cons2 (sep x y : string) (l : list string) :
  join sep (x :: y :: l) = x +:+ sep +:+ join sep (y :: l).
Proof. reflexivity. Qed.

Lemma parse_elems_comma (f : nat) (s t : string) (acc : list JValue)
    (v : JValue) :
  parse_value f s = Some (v, String "," t) ->
  parse_elems (S f) s acc = parse_elems f t (acc ++ [v]).
Proof. intros Hv. cbn [parse_elems]. by rewrite Hv. Qed.

Lemma parse_elems_close (f : nat) (s t : string) (acc : list JValue)
    (v : JValue) :
  parse_value f s = Some (v, String "]" t) ->
  parse_elems (S f) s acc = Some (acc ++ [v], t).
Proof. intros Hv. cbn [parse_elems]. by rewrite Hv. Qed.

Lemma parse_elems_strs (l : list string) :
  forall (x : string) (acc : list JValue) (f : nat) (sp : bool) (rest : string),
    (length l + 1 <= f)%nat ->
    parse_elems (S f)
      ((if sp then " " else EmptyString) +:+
       join ", " (map dumps_str (x :: l)) +:+ "]" +:+ rest) acc =
    Some (acc ++ map JStr (x :: l), rest).
Proof.
  induction l as [|y l IH]; intros x acc f sp rest Hf;
    (destruct f as [|f]; [cbn in Hf; lia|]).
  - apply parse_elems_close. apply (parse_value_dumps_str f sp x).
  - cbn [map]. rewrite join_cons2, !append_assoc.
    rewrite (parse_elems_comma _ _
               (" " +:+ join ", " (dumps_str y :: map dumps_str l)
                +:+ "]" +:+ rest) _ (JStr x)).
    + etrans; [apply (IH y (acc ++ [JStr x]) f true rest); cbn in Hf; lia|].
      by rewrite <- app_assoc.
    + apply (parse_value_dumps_str f sp x).
Qed.

Lemma length_dumps_strs (l : list string) (t : string) :
  (length l <= String.length (join ", " (map dumps_str l) +:+ t))%nat.
Proof.
  induction l as [|x l IH]; [cbn; lia|].
  destruct l as [|y l].
  { cbn [map join length]. unfold dumps_str. rewrite !append_cons.
    cbn [String.length]. lia. }
  cbn [map] in *. rewrite join_cons2, !append_assoc.
  unfold dumps_str at 1. rewrite !append_cons. cbn [String.length length].
  rewrite length_append.
  change (", " +:+ ?u) with (String "," (String " " u)). cbn [String.length].
  change (EmptyString +:+ ?u) with u. cbn [length] in IH. lia.
Qed.

Lemma parse_value_bracket (f : nat) (u : string) :
  parse_value (S f) (String "[" (String dquote u)) =
  ('(l, rest) ← parse_elems f (String dquote u) []; Some (JArr l, rest)).
Proof. reflexivity. Qed.

Lemma join_dumps_head (x : string) (l : list string) (t : string) :
  exists u, join ", " (map dumps_str (x :: l)) +:+ t = String dquote u.
Proof.
  destruct l as [|y l]; cbn [map]; [cbn [join]|rewrite join_cons2];
    unfold dumps_str at 1; rewrite !append_cons; eauto.
Qed.

(** [json.dumps] of a list of strings is a text that decodes to the list. *)
Lemma loads_dumps_strs (l : list string) :
  loads (dumps_strs l) = Some (JArr (map JStr l)).
Proof.
  destruct l as [|x l]; [reflexivity|].
  unfold loads, dumps_strs.
  change ("[" +:+ ?t) with (String "[" t).
  set (t := join ", " (map dumps_str (x :: l)) +:+ "]").
  assert (parse_elems (String.length (String "[" t)) t [] =
          Some (map JStr (x :: l), EmptyString)) as Helems.
  { cbn [String.length].
    apply (parse_elems_strs l x [] _ false EmptyString).
    pose proof (length_dumps_strs (x :: l) "]") as Hlen. fold t in Hlen.
    cbn [length] in Hlen. lia. }
  destruct (join_dumps_head x l "]") as [u Hu]. fold t in Hu.
  rewrite Hu in *. by rewrite parse_value_bracket, Helems.
Qed.

End JsonRefFacts.

(** ** The chunk formatters and the stream adapter *)

Section AdapterFacts.
Import Py Json Adapter.
Context `{JsonLib} `{ChunkLib}.

Lemma openai_compatible (dest_prov : ProviderType) :
  dest_prov ∈ [openai; llamacpp; openrouter] ->
  dest_prov = openai \/ dest_prov = llamacpp \/ dest_prov = openrouter.
Proof. rewrite !elem_of_cons, elem_of_nil. tauto. Qed.

Lemma format_eq (uuid chunk : string) (dest_prov : ProviderType) :
  format uuid chunk dest_prov =
  match dest_prov with
  | ollama => _format_ollama chunk
  | anthropic => _format_antropic uuid chunk
  | openai | llamacpp | openrouter => _format_openai chunk
  end.
Proof. by destruct dest_prov. Qed.

(** Every provider type is in the dispatch table. *)
Lemma format_supported (uuid chunk : string) (dest_prov : ProviderType) :
  forall msg, format uuid chunk dest_prov <> Raise (MuxingAdapterError msg).
Proof.
  intros msg. rewrite format_eq.
  destruct dest_prov; unfold _format_ollama, _format_openai, _format_antropic;
    try done;
    (destruct (split chunk "data:") as [parts|e] eqn:Hs; cbn;
     [destruct (getitem parts 1) as [piece|e] eqn:Hg; cbn; [done|];
      unfold getitem in Hg; destruct (parts !! 1%nat); by inversion Hg
     |unfold split in Hs; cbn in Hs;
      destruct (split_go "data:" chunk 0); by inversion Hs]).
Qed.

Lemma _format_openai_piece (chunk piece : string) :
  (parts ← split chunk "data:"; getitem parts 1) = Ret piece ->
  _format_openai chunk =
  Ret (try_except (chunk_dict ← json_loads (strip piece);
                   openai_dump chunk_dict)
                  (strip piece)).
Proof.
  unfold _format_openai. destruct (split chunk "data:") as [parts|e]; cbn;
    [|done].
  destruct (getitem parts 1); cbn; [|done]. by intros [= ->].
Qed.

Lemma _format_openai_absent (chunk : string) :
  contains "data:" chunk = false -> _format_openai chunk = Raise IndexError.
Proof.
  intros Hc. pose proof (split_getitem_absent "data:" chunk) as Hs.
  unfold _format_openai. destruct (split chunk "data:") as [parts|e]; cbn in *.
  - destruct (getitem parts 1); cbn; [by specialize (Hs ltac:(done) Hc)|].
    by rewrite <- (Hs ltac:(done) Hc).
  - by rewrite <- (Hs ltac:(done) Hc).
Qed.

Lemma _format_antropic_absent (uuid chunk : string) :
  contains "data:" chunk = false ->
  _format_antropic uuid chunk = Raise IndexError.
Proof.
  intros Hc. pose proof (split_getitem_absent "data:" chunk) as Hs.
  unfold _format_antropic.
  destruct (split chunk "data:") as [parts|e]; cbn in *.
  - destruct (getitem parts 1); cbn; [by specialize (Hs ltac:(done) Hc)|].
    by rewrite <- (Hs ltac:(done) Hc).
  - by rewrite <- (Hs ltac:(done) Hc).
Qed.

(** Where [format] raises: exactly on a chunk without [data:] sent to a
    formatter that strips the prefix. *)
Lemma format_raises_iff (uuid chunk : string) (dest_prov : ProviderType) :
  raises (format uuid chunk dest_prov) <->
  dest_prov <> ollama /\ contains "data:" chunk = false.
Proof.
  rewrite format_eq. split.
  - intros Hr. destruct (contains "data:" chunk) eqn:Hc.
    + destruct (split_getitem_present "data:" chunk ltac:(done) Hc)
        as [piece Hp].
      destruct dest_prov; try done;
        unfold _format_openai, _format_antropic in Hr;
        (destruct (split chunk "data:") as [parts|e]; cbn in *; [|done];
         destruct (getitem parts 1); cbn in *; done).
    + by destruct dest_prov.
  - intros [Hp Hc].
    destruct dest_prov; try done;
      by rewrite ?_format_openai_absent, ?_format_antropic_absent.
Qed.

(** C1, at the failing input. A comment line of a server-sent-event
    stream, as OpenRouter sends while it waits for the model, has no
    [data:]: the split has one piece, and taking item [1] raises
    [IndexError] before the [try] block is entered. The formatter does not
    return a chunk, the empty string or the text passed through. *)
Theorem format_raises_on_sse_comment (uuid : string) :
  format uuid ": OPENROUTER PROCESSING" openrouter = Raise IndexError.
Proof. done. Qed.

Lemma _format_antropic_piece (uuid chunk piece : string) :
  (parts ← split chunk "data:"; getitem parts 1) = Ret piece ->
  _format_antropic uuid chunk =
  Ret (try_except
         (chunk_dict ← json_loads (strip piece);
          msg_type ← get chunk_dict "type" (JStr EmptyString);
          let finish_reason :=
            if eq_str msg_type "message_stop" then Some "stop" else None in
          from_delta ← get chunk_dict "delta" (JObj []);
          from_block ← get chunk_dict "content_block" (JObj []);
          let msg_content_dict := or_ from_delta from_block in
          if negb (truthy msg_content_dict) then Some EmptyString
          else
            msg_content ← get msg_content_dict "text" (JStr EmptyString);
            model_dump_json
              {| mr_id := "anthropic-chat-" +:+ uuid;
                 mr_model := "anthropic-muxed-model";
                 mr_object := "chat.completion.chunk";
                 mr_choices :=
                   [ {| finish_reason := finish_reason;
                        index := 0;
                        delta := {| content := msg_content;
                                    role := "assistant" |};
                        logprobs := None |} ] |})
         (strip (strip piece))).
Proof.
  unfold _format_antropic.
  destruct (split chunk "data:") as [parts|e]; cbn; [|done].
  destruct (getitem parts 1); cbn; [|done]. by intros [= ->].
Qed.

(** The stream adapter passes over a chunk formatted to the empty
    string. *)
Lemma stream_skip (uuids : nat -> string) (i : nat) (chunk : string)
    (rest : list string) (dest_prov : ProviderType) :
  format (uuids i) chunk dest_prov = Ret EmptyString ->
  _format_streaming_response uuids i (chunk :: rest) dest_prov =
  _format_streaming_response uuids (S i) rest dest_prov.
Proof. intros Hf. cbn [_format_streaming_response]. by rewrite Hf. Qed.

(** A formatted chunk that is not empty goes out in one frame. *)
Lemma stream_yield (uuids : nat -> string) (i : nat) (chunk : string)
    (rest : list string) (dest_prov : ProviderType) (c : ascii) (s : string) :
  format (uuids i) chunk dest_prov = Ret (String c s) ->
  _format_streaming_response uuids i (chunk :: rest) dest_prov =
  (_format_as_openai_chunk (String c s)
     :: (_format_streaming_response uuids (S i) rest dest_prov).1,
   (_format_streaming_response uuids (S i) rest dest_prov).2).
Proof.
  intros Hf. cbn [_format_streaming_response]. rewrite Hf. cbn.
  by destruct (_format_streaming_response uuids (S i) rest dest_prov).
Qed.

(** C5, as amended. For an Anthropic chunk whose text after [data:] parses
    to a JSON object [d]:
    - if [d] has type [message_stop] and its content dict ([delta], or
      [content_block] when [delta] is absent or empty) is a non-empty
      object without [text], the result is the dump of the canonical chunk
      with finish reason [stop] and empty text;
    - if [d] has neither [delta] nor [content_block], whatever its type,
      the result is the empty string, and the stream adapter yields no
      frame for the chunk. *)
Theorem anthropic_stop_and_empty (uuid chunk piece : string)
    (d : list (string * JValue)) :
  (parts ← split chunk "data:"; getitem parts 1) = Ret piece ->
  json_loads (strip piece) = Some (JObj d) ->
  (assoc "type" d = Some (JStr "message_stop") ->
   forall (items : list (string * JValue)) (text : string),
     or_ (get_item d "delta" (JObj []))
         (get_item d "content_block" (JObj [])) = JObj items ->
     items <> [] ->
     assoc "text" items = None ->
     model_dump_json (Samples.stop_chunk uuid) = Some text ->
     _format_antropic uuid chunk = Ret text)
  /\
  (assoc "delta" d = None ->
   assoc "content_block" d = None ->
   _format_antropic uuid chunk = Ret EmptyString /\
   forall (uuids : nat -> string) (i : nat) (rest : list string),
     uuids i = uuid ->
     _format_streaming_response uuids i (chunk :: rest) anthropic =
     _format_streaming_response uuids (S i) rest anthropic).
Proof.
  intros Hpiece Hloads.
  rewrite (_format_antropic_piece _ _ _ Hpiece), Hloads. cbn. split.
  - intros Htype items text Hor Hne Htext Hdump.
    rewrite Hor. unfold get_item at 1. rewrite Htype. cbn.
    destruct items as [|item items]; [done|].
    cbn [negb]. unfold get_item. rewrite Htext. cbn.
    unfold Samples.stop_chunk in Hdump. by rewrite Hdump.
  - intros Hdelta Hblock.
    assert (or_ (get_item d "delta" (JObj []))
                (get_item d "content_block" (JObj [])) = JObj []) as Hor
      by (unfold get_item; by rewrite Hdelta, Hblock).
    rewrite Hor. cbn. split; [done|].
    intros uuids i rest Hi. apply stream_skip.
    rewrite format_eq, Hi, (_format_antropic_piece _ _ _ Hpiece), Hloads.
    cbn. by rewrite Hor.
Qed.

(** C10. For every provider type, a chunk formatted to the empty string
    leaves the stream as it is without the chunk: no frame is yielded for
    it. So it is for a chunk of an OpenAI-compatible provider that is
    [data:] followed by nothing but spaces, when [json.loads] rejects the
    empty text. *)
Theorem stream_emits_no_frame_for_empty (uuids : nat -> string) (i : nat)
    (rest : list string) (dest_prov : ProviderType) :
  (forall chunk : string,
     format (uuids i) chunk dest_prov = Ret EmptyString ->
     _format_streaming_response uuids i (chunk :: rest) dest_prov =
     _format_streaming_response uuids (S i) rest dest_prov)
  /\
  (forall ws : string,
     dest_prov ∈ [openai; llamacpp; openrouter] ->
     all_space ws ->
     json_loads EmptyString = None ->
     format (uuids i) ("data:" +:+ ws) dest_prov = Ret EmptyString /\
     _format_streaming_response uuids i (("data:" +:+ ws) :: rest) dest_prov =
     _format_streaming_response uuids (S i) rest dest_prov).
Proof.
  split; [intros chunk; apply stream_skip|].
  intros ws Hprov Hws Hloads.
  assert (format (uuids i) ("data:" +:+ ws) dest_prov = Ret EmptyString) as Hf.
  { rewrite format_eq.
    assert (_format_openai ("data:" +:+ ws) = Ret EmptyString) as ->.
    { rewrite (_format_openai_piece _ _ (split_data_blank _ Hws)).
      rewrite (strip_all_space _ Hws), Hloads. done. }
    by destruct (openai_compatible _ Hprov) as [->|[->| ->]]. }
  split; [done|]. by apply stream_skip.
Qed.

End AdapterFacts.

Section AdapterRuns.
Import Py Json Adapter Samples.
#[local] Existing Instances Ref.json Ref.litellm.

(** The formatter at work on the reference libraries: a stop event with a
    [delta] gives the stop chunk, the bare stop event gives the empty
    string. *)
Lemma anthropic_stop_and_empty_witness :
  (exists text : string,
     model_dump_json (stop_chunk "u") = Some text /\
     _format_antropic "u" message_stop_with_delta = Ret text) /\
  _format_antropic "u" bare_message_stop = Ret EmptyString /\
  _format_streaming_response (fun _ => "u") 0 [bare_message_stop] anthropic =
  ([], None).
Proof.
  split.
  - eexists. split; [reflexivity|].
    refine (proj1 (anthropic_stop_and_empty "u" message_stop_with_delta _
                     [("type", JStr "message_stop");
                      ("delta", JObj [("stop_reason", JNull)])] _ _)
              _ [("stop_reason", JNull)] _ _ _ _ _);
      [vm_compute; reflexivity | vm_compute; reflexivity | reflexivity
      | reflexivity | discriminate | reflexivity | vm_compute; reflexivity].
  - destruct (proj2 (anthropic_stop_and_empty "u" bare_message_stop _
                       [("type", JStr "message_stop")]
                       ltac:(vm_compute; reflexivity)
                       ltac:(vm_compute; reflexivity))
                eq_refl eq_refl) as [Hempty Hstream].
    split; [exact Hempty|].
    exact (Hstream (fun _ => "u") 0%nat [] eq_refl).
Defined.

(** C5, as first stated, fails on the bare stop event: its JSON has type
    [message_stop] and no content, and the formatter returns the empty
    string, which is not the dump of the stop chunk. *)
Lemma anthropic_bare_message_stop_is_dropped :
  json_loads (strip (" {" +:+ JsonRef.q "type" +:+ ": "
                     +:+ JsonRef.q "message_stop" +:+ "}")) =
    Some (JObj [("type", JStr "message_stop")]) /\
  _format_antropic "u" bare_message_stop = Ret EmptyString /\
  model_dump_json (stop_chunk "u") <> Some EmptyString.
Proof. repeat split; vm_compute; congruence. Qed.

Lemma stream_emits_no_frame_for_empty_witness :
  format "u" "data:   " openai = Ret EmptyString /\
  _format_streaming_response (fun _ => "u") 0 ["data:   "; "data: [DONE]"]
    openai =
  _format_streaming_response (fun _ => "u") 1 ["data: [DONE]"] openai.
Proof.
  refine (proj2 (stream_emits_no_frame_for_empty (fun _ => "u") 0%nat
                   ["data: [DONE]"] openai) "   " _ _ _).
  - apply list_elem_of_In. simpl. auto.
  - intros c Hc. simpl in Hc. intuition (subst; reflexivity).
  - reflexivity.
Defined.

End AdapterRuns.

(** ** The recorder *)

Section ConnectionFacts.
Import Json Connection.
Context `{Engine} `{FimCache}.

Lemma insert_spec {M : Type} `{Model M} (model : M) (w : World) :
  _insert_pydantic_model model w =
  (execute (stored w) (model_dump model) ≫= model_class,
   emit (Execute (model_dump model) (execute (stored w) (model_dump model))) w).
Proof.
  unfold _insert_pydantic_model.
  by destruct (execute (stored w) (model_dump model)).
Qed.

Lemma done_pairs_insert (tasks : list Task) (i : nat) (t : Task)
    (r : option Alert) :
  tasks !! i = Some t -> outcome t = None ->
  done_pairs (<[i := {| coro_model := coro_model t; outcome := Some r |}]> tasks)
  ≡ₚ (RAlert (coro_model t), r) :: done_pairs tasks.
Proof.
  revert i. induction tasks as [|t0 tasks IH]; intros [|i] Hi Ht; try done.
  - injection Hi as ->. unfold done_pairs. cbn. by rewrite Ht.
  - cbn in Hi. specialize (IH i Hi Ht). unfold done_pairs in *. cbn.
    destruct (outcome t0) as [r0|]; cbn; [|done].
    rewrite IH. apply Permutation_swap.
Qed.

Lemma run_tasks_spec (order : list nat) :
  forall (tasks tasks' : list Task) (w w' : World),
    run_tasks order tasks w = (tasks', w') ->
    exists execs : list Effect,
      effects w' = effects w ++ execs /\
      fim_cache w' = fim_cache w /\
      contexts w' = contexts w /\
      map coro_model tasks' = map coro_model tasks /\
      Forall (fun e => is_Some (exec_pair e)) execs /\
      omap exec_pair execs ++ done_pairs tasks ≡ₚ done_pairs tasks' /\
      (forall i t, tasks !! i = Some t -> is_Some (outcome t) ->
                   tasks' !! i = Some t) /\
      (forall i, i ∈ order -> (i < length tasks)%nat ->
                 exists t, tasks' !! i = Some t /\ is_Some (outcome t)).
Proof.
  induction order as [|i order IH]; intros tasks tasks' w w' Hrun.
  - injection Hrun as <- <-. exists []. rewrite app_nil_r.
    repeat split; try done. intros i Hi. by apply elem_of_nil in Hi.
  - cbn [run_tasks] in Hrun.
    destruct (tasks !! i) as [[model [r|]]|] eqn:Hi.
    + destruct (IH _ _ _ _ Hrun)
        as (execs & He & Hf & Hc & Hm & Hall & Hp & Hmono & Hdone).
      exists execs. repeat split; try done.
      intros j [->|Hj]%elem_of_cons Hlt; [|by apply Hdone].
      eexists. split; [by eapply Hmono|done].
    + rewrite insert_spec in Hrun.
      destruct (IH _ _ _ _ Hrun)
        as (execs & He & Hf & Hc & Hm & Hall & Hp & Hmono & Hdone).
      set (ret := execute (stored w) (model_dump model)) in *.
      exists (Execute (model_dump model) ret :: execs).
      rewrite length_insert in Hdone.
      repeat split; try done.
      * rewrite He. cbn. by rewrite <- app_assoc.
      * rewrite Hm. rewrite list_fmap_insert. cbn.
        apply list_insert_id. by rewrite list_lookup_fmap, Hi.
      * constructor; [done|exact Hall].
      * rewrite <- Hp.
        rewrite (done_pairs_insert tasks i _ (ret ≫= model_class) Hi eq_refl).
        cbn. by rewrite Permutation_middle.
      * intros j t Hj Ht. apply Hmono; [|done].
        rewrite list_lookup_insert_ne; [done|].
        intros ->. rewrite Hi in Hj. injection Hj as <-.
        cbn in Ht. by apply is_Some_None in Ht.
      * intros j [->|Hj]%elem_of_cons Hlt; [|by apply Hdone].
        exists {| coro_model := model; outcome := Some (ret ≫= model_class) |}.
        split; [|done]. apply Hmono; [|done]. by apply list_lookup_insert_eq.
    + destruct (IH _ _ _ _ Hrun)
        as (execs & He & Hf & Hc & Hm & Hall & Hp & Hmono & Hdone).
      exists execs. repeat split; try done.
      intros j [->|Hj]%elem_of_cons Hlt; [|by apply Hdone].
      apply lookup_ge_None in Hi. lia.
Qed.

(** When the group is left every task has its outcome. *)
Lemma task_group_done (sched : list nat) (tasks tasks' : list Task)
    (w w' : World) :
  task_group sched tasks w = (tasks', w') ->
  Forall (fun t => is_Some (outcome t)) tasks'.
Proof.
  intros Hrun. unfold task_group in Hrun.
  destruct (run_tasks_spec _ _ _ _ _ Hrun)
    as (execs & _ & _ & _ & Hm & _ & _ & _ & Hdone).
  apply Forall_lookup. intros i t Hi.
  assert (i < length tasks)%nat as Hlt.
  { apply lookup_lt_Some in Hi. apply (f_equal length) in Hm.
    rewrite !length_map in Hm. lia. }
  destruct (Hdone i) as (t' & Hi' & Ht'); [|done|].
  - apply elem_of_app. right. apply elem_of_seq. lia.
  - rewrite Hi in Hi'. by injection Hi' as <-.
Qed.

Lemma done_pairs_all_done (tasks : list Task) :
  Forall (fun t => is_Some (outcome t)) tasks ->
  done_pairs tasks =
  zip (map RAlert (map coro_model tasks)) (map result tasks).
Proof.
  induction 1 as [|t tasks [r Hr] _ IH]; [done|].
  unfold done_pairs, result in *. cbn. rewrite Hr. cbn. by rewrite IH.
Qed.

Lemma collect_results_spec (alert : Alert) (alerts_tasks : list Task) :
  forall (recorded_alerts : list (option Alert)) (w : World),
    let out := collect_results alert alerts_tasks recorded_alerts w in
    out.1 = recorded_alerts ++ map result alerts_tasks /\
    effects out.2 =
      effects w ++
      map (fun _ => Put ("New alert detected: " +:+ a_timestamp alert))
          (filter (fun r => is_critical r) (map result alerts_tasks)) /\
    fim_cache out.2 = fim_cache w /\
    contexts out.2 = contexts w.
Proof.
  induction alerts_tasks as [|t tasks IH]; intros recorded w.
  - cbn. by rewrite !app_nil_r.
  - cbn [collect_results]. cbn zeta. cbn [map]. rewrite filter_cons.
    destruct (is_critical (result t)) eqn:Hcrit.
    + rewrite decide_True by done.
      destruct (IH (recorded ++ [result t])
                  (put ("New alert detected: " +:+ a_timestamp alert) w))
        as (Hr & He & Hf & Hc).
      rewrite Hr, He, Hf, Hc. cbn. repeat split; by rewrite <- ?app_assoc.
    + rewrite decide_False by (cbn; tauto).
      destruct (IH (recorded ++ [result t]) w) as (Hr & He & Hf & Hc).
      rewrite Hr, He, Hf, Hc. repeat split; by rewrite <- ?app_assoc.
Qed.

Lemma done_pairs_created (alerts : list Alert) :
  done_pairs (map create_task alerts) = [].
Proof. by induction alerts. Qed.

Lemma omap_exec_pair_length (execs : list Effect) :
  Forall (fun e => is_Some (exec_pair e)) execs ->
  length (omap exec_pair execs) = length execs.
Proof.
  induction 1 as [|e execs [p Hp] _ IH]; [done|]. cbn. rewrite Hp. cbn.
  by rewrite IH.
Qed.

Lemma alert_queue_execs (execs : list Effect) :
  Forall (fun e => is_Some (exec_pair e)) execs ->
  omap (fun e => match e with Put m => Some m | Execute _ _ => None end) execs
  = [].
Proof.
  induction 1 as [|e execs [p Hp] _ IH]; [done|]. cbn.
  by destruct e.
Qed.

Lemma alert_queue_puts (items : list string) :
  omap (fun e => match e with Put m => Some m | Execute _ _ => None end)
       (map Put items) = items.
Proof. induction items as [|m items IH]; [done|]. cbn. by rewrite IH. Qed.

Lemma record_alerts_cons (sched : list nat) (first : Alert)
    (rest : list Alert) (w : World) :
  record_alerts sched (first :: rest) w =
  let alerts := first :: rest in
  let '(alerts_tasks, w1) := task_group sched (map create_task alerts) w in
  let '(recorded_alerts, w2) :=
    collect_results (List.last alerts first) alerts_tasks [] w1 in
  (Some recorded_alerts, w2).
Proof. reflexivity. Qed.

(** What [record_alerts] does, for every order in which the inserts
    finish. *)
Lemma record_alerts_spec (sched : list nat) (first : Alert)
    (rest : list Alert) (w : World) :
  let alerts := first :: rest in
  let item := "New alert detected: " +:+ a_timestamp (List.last alerts first) in
  exists (recorded : list (option Alert)) (execs : list Effect),
    (record_alerts sched alerts w).1 = Some recorded /\
    length recorded = length alerts /\
    length execs = length alerts /\
    Forall (fun e => is_Some (exec_pair e)) execs /\
    omap exec_pair execs ≡ₚ zip (map RAlert alerts) recorded /\
    effects (record_alerts sched alerts w).2 =
      effects w ++ execs ++
      map Put (map (fun _ => item) (filter (fun r => is_critical r) recorded))
    /\
    fim_cache (record_alerts sched alerts w).2 = fim_cache w /\
    contexts (record_alerts sched alerts w).2 = contexts w.
Proof.
  intros alerts item. subst alerts item. rewrite record_alerts_cons.
  cbv zeta. set (alerts := first :: rest).
  destruct (task_group sched (map create_task alerts) w) as [tasks w1] eqn:Hg.
  pose proof (task_group_done _ _ _ _ _ Hg) as Hdone.
  unfold task_group in Hg.
  destruct (run_tasks_spec _ _ _ _ _ Hg)
    as (execs & He & Hf & Hc & Hm & Hall & Hp & _ & _).
  destruct (collect_results_spec (List.last alerts first) tasks [] w1)
    as (Hr' & He' & Hf' & Hc').
  destruct (collect_results (List.last alerts first) tasks [] w1)
    as [recorded w2] eqn:Hcol.
  cbn in Hr', He', Hf', Hc'. subst recorded.
  rewrite done_pairs_created, app_nil_r, (done_pairs_all_done _ Hdone) in Hp.
  rewrite Hm in Hp.
  assert (map coro_model (map create_task alerts) = alerts) as Hid.
  { rewrite map_map. apply map_id. }
  rewrite Hid in Hp, Hm.
  assert (length tasks = length alerts) as Hlen.
  { apply (f_equal length) in Hm. by rewrite length_map in Hm. }
  exists (map result tasks), execs. cbn [fst snd].
  repeat split; try done.
  - by rewrite length_map.
  - rewrite <- (omap_exec_pair_length _ Hall), Hp, length_zip.
    rewrite !length_map. lia.
  - rewrite He', He, <- app_assoc. do 2 f_equal. by rewrite map_map.
  - congruence.
  - congruence.
Qed.

(** C4. For a non-empty list of alerts and every order [sched] in which
    the insert tasks finish: each alert is the statement of exactly one
    [INSERT], whatever the engine answered to the others; [recorded] lists
    the results in submission order; all the inserts come before the
    first [put]; and the queue grows by one notification for each
    recorded alert of category [critical], taken in submission order. For
    three alerts of which the first and the third are recorded as
    critical, the queue grows by two notifications. *)
Theorem record_alerts_fan_out (sched : list nat) (first : Alert)
    (rest : list Alert) (w : World) :
  let alerts := first :: rest in
  exists (recorded : list (option Alert)) (execs : list Effect)
         (items : list string),
    (record_alerts sched alerts w).1 = Some recorded /\
    length recorded = length alerts /\
    Forall (fun e => is_Some (exec_pair e)) execs /\
    omap exec_pair execs ≡ₚ zip (map RAlert alerts) recorded /\
    effects (record_alerts sched alerts w).2 =
      effects w ++ execs ++ map Put items /\
    alert_queue (record_alerts sched alerts w).2 = alert_queue w ++ items /\
    length items = length (filter (fun r => is_critical r) recorded) /\
    (forall a b c : Alert,
       recorded = [Some a; Some b; Some c] ->
       a_trigger_category a = "critical" ->
       a_trigger_category b = "info" ->
       a_trigger_category c = "critical" ->
       length items = 2%nat).
Proof.
  intros alerts.
  destruct (record_alerts_spec sched first rest w)
    as (recorded & execs & Hr & Hlen & _ & Hall & Hp & He & _ & _).
  fold alerts in Hr, Hlen, Hp, He.
  eexists recorded, execs, _. repeat split; try done.
  - unfold alert_queue. rewrite He, !omap_app.
    by rewrite (alert_queue_execs _ Hall), alert_queue_puts.
  - by rewrite length_map.
  - intros a b c -> Ha Hb Hc. rewrite length_map.
    rewrite !filter_cons, filter_nil. cbn. by rewrite Ha, Hb, Hc.
Qed.

(** C6. For the fragments [first :: rest], [record_outputs] runs one
    [INSERT], whose row takes [id], [prompt_id] and [timestamp] from
    [first] and whose [output] is [json.dumps] of the fragments' outputs
    in their order; what it returns is what the insert returns, and the
    database grows by the row the insert returns, if it returns one. For
    no fragment it does nothing. The text in [output] decodes to the list
    of the fragments' outputs, in their order. *)
Theorem record_outputs_one_row (first : Output) (rest : list Output)
    (w : World) :
  let row :=
    ROutput {| o_id := o_id first;
               o_prompt_id := o_prompt_id first;
               o_timestamp := o_timestamp first;
               o_output := json_dumps (map o_output (first :: rest)) |} in
  record_outputs (first :: rest) w =
    (execute (stored w) row ≫= model_class,
     emit (Execute row (execute (stored w) row)) w) /\
  effects (record_outputs (first :: rest) w).2 =
    effects w ++ [Execute row (execute (stored w) row)] /\
  stored (record_outputs (first :: rest) w).2 =
    stored w ++ option_list (execute (stored w) row) /\
  record_outputs [] w = (None, w) /\
  JsonRef.loads (json_dumps (map o_output (first :: rest))) =
    Some (JArr (map JStr (map o_output (first :: rest)))).
Proof.
  intros row. unfold record_outputs. rewrite insert_spec.
  split_and!; try done; [|apply loads_dumps_strs].
  unfold stored. cbn. rewrite omap_app. cbn.
  by destruct (execute _ _).
Qed.

Lemma record_request_frame (prompt_params : option Prompt) (w : World) :
  fim_cache (record_request prompt_params w).2 = fim_cache w /\
  contexts (record_request prompt_params w).2 = contexts w.
Proof.
  destruct prompt_params; [|done]. cbn. by rewrite insert_spec.
Qed.

Lemma record_outputs_frame (outputs : list Output) (w : World) :
  fim_cache (record_outputs outputs w).2 = fim_cache w /\
  contexts (record_outputs outputs w).2 = contexts w.
Proof.
  destruct outputs; [done|]. unfold record_outputs. by rewrite insert_spec.
Qed.

Lemma record_alerts_frame (sched : list nat) (alerts : list Alert)
    (w : World) :
  fim_cache (record_alerts sched alerts w).2 = fim_cache w /\
  contexts (record_alerts sched alerts w).2 = contexts w.
Proof.
  destruct alerts as [|first rest]; [done|].
  by destruct (record_alerts_spec sched first rest w)
    as (? & ? & _ & _ & _ & _ & _ & _ & ? & ?).
Qed.

Lemma record_steps_frame (sched : list nat) (c : PipelineContext)
    (w : World) :
  fim_cache (record_steps sched c w) = fim_cache w /\
  contexts (record_steps sched c w) = contexts w.
Proof.
  unfold record_steps.
  destruct (record_alerts_frame sched (alerts_raised c)
    (record_outputs (output_responses c)
       (record_request (input_request c) w).2).2) as [-> ->].
  destruct (record_outputs_frame (output_responses c)
    (record_request (input_request c) w).2) as [-> ->].
  apply record_request_frame.
Qed.

Lemma should_record_frame (context : option PipelineContext) (w : World) :
  effects (_should_record_context context w).2 = effects w /\
  contexts (_should_record_context context w).2 = contexts w.
Proof.
  unfold _should_record_context.
  destruct context as [c|]; [|done].
  destruct (stored_in_db c); [done|].
  destruct (input_request c) as [request|]; [|done].
  destruct (negb (String.eqb (p_type request) "fim")); [done|].
  by destruct (could_store_fim_request (fim_cache w) c).
Qed.

Lemma record_context_at (sched : list nat) (l : nat) (c : PipelineContext)
    (w : World) :
  contexts w !! l = Some c ->
  record_context sched (Some l) w =
  if (_should_record_context (Some c) w).1
  then set_metadata l "stored_in_db" (JBool true)
         (record_steps sched c (_should_record_context (Some c) w).2)
  else (_should_record_context (Some c) w).2.
Proof.
  intros Hl. unfold record_context, record_steps. rewrite Hl.
  destruct (_should_record_context (Some c) w) as [[] w0]; [|done]. cbn.
  destruct (record_request (input_request c) w0) as [? w1]. cbn.
  destruct (record_outputs (output_responses c) w1) as [? w2]. cbn.
  by destruct (record_alerts sched (alerts_raised c) w2).
Qed.

(** A context marked as stored is left alone, and so is the world. *)
Lemma record_context_stored (sched : list nat) (l : nat)
    (c : PipelineContext) (w : World) :
  contexts w !! l = Some c -> stored_in_db c = true ->
  record_context sched (Some l) w = w.
Proof.
  intros Hl Hs. rewrite (record_context_at _ _ _ _ Hl).
  unfold _should_record_context. by rewrite Hs.
Qed.

(** C3. For a context object at address [l]:
    - when the eligibility check passes, the call runs the three record
      steps on a world whose contexts are still unmarked, then sets
      [stored_in_db] to [True] on the object; a later call on the same
      object changes nothing at all;
    - when the check does not pass, the call has no effect on the
      database or the queue and the contexts are as they were, the flag
      included;
    - of two calls in a row at most one has effects;
    - a call without a context does nothing. *)
Theorem record_context_once (sched1 sched2 : list nat) (l : nat)
    (c : PipelineContext) (w : World) :
  contexts w !! l = Some c ->
  let check := _should_record_context (Some c) w in
  let w1 := record_context sched1 (Some l) w in
  (check.1 = true ->
   w1 = set_metadata l "stored_in_db" (JBool true)
          (record_steps sched1 c check.2) /\
   contexts (record_steps sched1 c check.2) = contexts w /\
   (exists c1, contexts w1 !! l = Some c1 /\ stored_in_db c1 = true) /\
   record_context sched2 (Some l) w1 = w1) /\
  (check.1 = false ->
   effects w1 = effects w /\ contexts w1 = contexts w) /\
  (effects (record_context sched2 (Some l) w1) = effects w1 \/
   effects w1 = effects w) /\
  record_context sched1 None w = w.
Proof.
  intros Hl check w1.
  assert (check.1 = true ->
          w1 = set_metadata l "stored_in_db" (JBool true)
                 (record_steps sched1 c check.2) /\
          contexts (record_steps sched1 c check.2) = contexts w /\
          (exists c1, contexts w1 !! l = Some c1 /\ stored_in_db c1 = true) /\
          record_context sched2 (Some l) w1 = w1) as Hpass.
  { intros Hcheck.
    assert (w1 = set_metadata l "stored_in_db" (JBool true)
                   (record_steps sched1 c check.2)) as Hw1.
    { subst w1 check. rewrite (record_context_at _ _ _ _ Hl).
      by rewrite Hcheck. }
    assert (contexts (record_steps sched1 c check.2) = contexts w) as Hc.
    { rewrite (proj2 (record_steps_frame _ _ _)).
      apply should_record_frame. }
    assert (exists c1, contexts w1 !! l = Some c1 /\ stored_in_db c1 = true)
      as (c1 & Hl1 & Hs1).
    { rewrite Hw1. unfold set_metadata. cbn [contexts].
      rewrite Hc, lookup_alter_eq, Hl. cbn.
      eexists. split; [done|]. unfold stored_in_db. cbn.
      by rewrite lookup_insert_eq. }
    repeat split; try done; [by exists c1|].
    by apply (record_context_stored _ _ c1). }
  assert (check.1 = false ->
          effects w1 = effects w /\ contexts w1 = contexts w) as Hskip.
  { intros Hcheck. subst w1. rewrite (record_context_at _ _ _ _ Hl).
    fold check. rewrite Hcheck. apply should_record_frame. }
  repeat split; try tauto.
  destruct (check.1) eqn:Hcheck.
  - left. by rewrite (proj2 (proj2 (proj2 (Hpass eq_refl)))).
  - right. by apply Hskip.
Qed.

(** C7. For a context with an input request and not marked as stored:
    when the request type is not [fim], the eligibility check answers
    [True] and leaves the world, the dedup cache included, as it is, for
    every cache and every state of it; when the type is [fim] and the
    cache rejects the context, [record_context] runs no insert and puts
    nothing on the queue, and the contexts are as they were. *)
Theorem fim_gate (sched : list nat) (l : nat) (c : PipelineContext)
    (request : Prompt) (w : World) :
  input_request c = Some request ->
  stored_in_db c = false ->
  (p_type request <> "fim" ->
   _should_record_context (Some c) w = (true, w)) /\
  (p_type request = "fim" ->
   (could_store_fim_request (fim_cache w) c).1 = false ->
   contexts w !! l = Some c ->
   effects (record_context sched (Some l) w) = effects w /\
   stored (record_context sched (Some l) w) = stored w /\
   alert_queue (record_context sched (Some l) w) = alert_queue w /\
   contexts (record_context sched (Some l) w) = contexts w).
Proof.
  intros Hreq Hstored. split.
  - intros Htype. unfold _should_record_context. rewrite Hstored, Hreq.
    apply String.eqb_neq in Htype. by rewrite Htype.
  - intros Htype Hreject Hl.
    assert ((_should_record_context (Some c) w).1 = false) as Hcheck.
    { unfold _should_record_context. rewrite Hstored, Hreq, Htype. cbn.
      by destruct (could_store_fim_request (fim_cache w) c). }
    rewrite (record_context_at _ _ _ _ Hl), Hcheck.
    destruct (should_record_frame (Some c) w) as [He Hc].
    unfold stored, alert_queue. by rewrite He, Hc.
Qed.

End ConnectionFacts.

Section ConnectionRuns.
Import Json Connection Samples.
#[local] Existing Instances Ref.sqlite Ref.seen_requests.

(** C2, at the failing input. [alert_a] is critical and recorded with
    timestamp [t1]; [alert_b], the last of the list, is not critical and
    has timestamp [t2]. The one notification, pushed for [alert_a],
    carries [t2]: the second loop reads the timestamp from the variable
    the first loop left bound, not from the recorded alert. *)
Theorem record_alerts_puts_last_timestamp :
  (record_alerts [] [alert_a; alert_b] (world_of [] (context_of "chat"))).1 =
    Some [Some alert_a; Some alert_b] /\
  alert_queue
    (record_alerts [] [alert_a; alert_b] (world_of [] (context_of "chat"))).2 =
    ["New alert detected: t2"].
Proof. split; vm_compute; reflexivity. Qed.

Lemma record_alerts_fan_out_witness :
  length (alert_queue
            (record_alerts [1; 2; 0]%nat [alert_a; alert_b; alert_c]
               (world_of [] (context_of "chat"))).2) = 2%nat.
Proof.
  destruct (record_alerts_fan_out [1; 2; 0]%nat alert_a [alert_b; alert_c]
              (world_of [] (context_of "chat")))
    as (recorded & execs & items & Hr & _ & _ & _ & _ & Hq & _ & Hex).
  rewrite Hq, length_app.
  rewrite (Hex alert_a alert_b alert_c); [reflexivity| |reflexivity..].
  vm_compute in Hr. injection Hr as <-. reflexivity.
Defined.

Lemma record_outputs_one_row_witness :
  JsonRef.loads
    (json_dumps (map o_output [out_a; out_b])) =
  Some (JArr [JStr "a"; JStr "b"]).
Proof.
  exact (proj2 (proj2 (proj2 (proj2
           (record_outputs_one_row out_a [out_b]
              (world_of [] (context_of "chat"))))))).
Defined.

Lemma record_context_once_witness :
  record_context [] (Some 7%nat)
    (record_context [] (Some 7%nat) (world_of [] (context_of "chat"))) =
  record_context [] (Some 7%nat) (world_of [] (context_of "chat")).
Proof.
  exact (proj2 (proj2 (proj2
           (proj1 (record_context_once [] [] 7%nat (context_of "chat")
                     (world_of [] (context_of "chat")) eq_refl)
              eq_refl)))).
Defined.

Lemma fim_gate_witness :
  _should_record_context (Some (context_of "chat"))
    (world_of ["r"] (context_of "chat")) =
    (true, world_of ["r"] (context_of "chat")) /\
  effects (record_context [] (Some 7%nat) (world_of ["r"] (context_of "fim")))
    = [].
Proof.
  split.
  - refine (proj1 (fim_gate [] 7%nat (context_of "chat") (prompt_of "chat")
                     (world_of ["r"] (context_of "chat")) eq_refl eq_refl) _).
    discriminate.
  - exact (proj1 (proj2 (fim_gate [] 7%nat (context_of "fim") (prompt_of "fim")
                           (world_of ["r"] (context_of "fim")) eq_refl eq_refl)
                    eq_refl eq_refl eq_refl)).
Defined.

End ConnectionRuns.

(** ** The heap and [copy.deepcopy] *)

Section HeapFacts.
Import Json Heap.

Lemma JValue_ind' (P : JValue -> Prop) :
  P JNull ->
  (forall b, P (JBool b)) ->
  (forall n, P (JInt n)) ->
  (forall f, P (JFloat f)) ->
  (forall s, P (JStr s)) ->
  (forall vs, Forall P vs -> P (JArr vs)) ->
  (forall d, Forall (fun kv => P kv.2) d -> P (JObj d)) ->
  forall v, P v.
Proof.
  intros Hnull Hbool Hint Hfloat Hstr Harr Hobj.
  fix IH 1. intros [|b|n|f|s|vs|d].
  - exact Hnull.
  - exact (Hbool b).
  - exact (Hint n).
  - exact (Hfloat f).
  - exact (Hstr s).
  - apply Harr. induction vs as [|v vs IHvs]; constructor;
      [exact (IH v) | exact IHvs].
  - apply Hobj. induction d as [|[k v] d IHd]; constructor;
      [exact (IH v) | exact IHd].
Qed.

Lemma extends_refl (h : heap) : extends h h.
Proof. by split. Qed.

Lemma extends_trans (h1 h2 h3 : heap) :
  extends h1 h2 -> extends h2 h3 -> extends h1 h3.
Proof.
  intros [Hl1 H1] [Hl2 H2]. split; [lia|].
  intros l Hl. rewrite H2 by lia. by apply H1.
Qed.

Lemma extends_alloc (h : heap) (o : pyobj) : extends h (h ++ [o]).
Proof.
  split; [rewrite length_app; lia|].
  intros l Hl. by apply lookup_app_l.
Qed.

Lemma extends_insert (h hc : heap) (y : nat) (o : pyobj) :
  extends h hc -> (length h <= y)%nat -> extends h (<[y := o]> hc).
Proof.
  intros [Hlen Hh] Hy. split; [by rewrite length_insert|].
  intros l Hl. rewrite list_lookup_insert_ne by lia. by apply Hh.
Qed.

Lemma setitem_at_spec (y : nat) (key : string) (value : pyval) (h h' : heap) :
  setitem_at y key value h = Some h' ->
  exists items, h !! y = Some (ODict items) /\
                h' = <[y := ODict (setitem key value items)]> h.
Proof.
  unfold setitem_at. destruct (h !! y) as [[items|items]|]; try done.
  intros [= <-]. by exists items.
Qed.

Lemma append_at_spec (y : nat) (value : pyval) (h h' : heap) :
  append_at y value h = Some h' ->
  exists items, h !! y = Some (OList items) /\
                h' = <[y := OList (items ++ [value])]> h.
Proof.
  unfold append_at. destruct (h !! y) as [[items|items]|]; try done.
  intros [= <-]. by exists items.
Qed.

Lemma copy_dict_items_frame copy (y : nat) (h : heap) :
  frames copy -> (length h <= y)%nat ->
  forall items memo hc memo' h',
    extends h hc ->
    copy_dict_items copy y items memo hc = Some (memo', h') ->
    extends h h'.
Proof.
  intros Hcopy Hy. induction items as [|[key value] items IH];
    intros memo hc memo' h' Hext Hloop; cbn in Hloop.
  - by injection Hloop as <- <-.
  - destruct (copy value memo hc) as [[[value' memo1] h1]|] eqn:Hc;
      [|done]. cbn in Hloop.
    destruct (setitem_at y key value' h1) as [h2|] eqn:Hs; [|done].
    cbn in Hloop. eapply IH; [|exact Hloop].
    apply setitem_at_spec in Hs as (its & _ & ->).
    apply extends_insert; [|done].
    eapply extends_trans; [done|]. by eapply Hcopy.
Qed.

Lemma copy_list_items_frame copy (y : nat) (h : heap) :
  frames copy -> (length h <= y)%nat ->
  forall items memo hc memo' h',
    extends h hc ->
    copy_list_items copy y items memo hc = Some (memo', h') ->
    extends h h'.
Proof.
  intros Hcopy Hy. induction items as [|a items IH];
    intros memo hc memo' h' Hext Hloop; cbn in Hloop.
  - by injection Hloop as <- <-.
  - destruct (copy a memo hc) as [[[a' memo1] h1]|] eqn:Hc; [|done].
    cbn in Hloop.
    destruct (append_at y a' h1) as [h2|] eqn:Hs; [|done].
    cbn in Hloop. eapply IH; [|exact Hloop].
    apply append_at_spec in Hs as (its & _ & ->).
    apply extends_insert; [|done].
    eapply extends_trans; [done|]. by eapply Hcopy.
Qed.

(** [copy.deepcopy] changes no object that exists when it is called. *)
Lemma deepcopy_frame (fuel : nat) : frames (deepcopy fuel).
Proof.
  induction fuel as [|fuel IH]; intros x memo h r memo' h' Hcopy;
    (destruct x as [| | | | |l];
     try (injection Hcopy as <- <- <-; apply extends_refl));
    cbn in Hcopy;
    (destruct (memo !! l) as [y|];
     [injection Hcopy as <- <- <-; apply extends_refl|]); [done|].
  destruct (h !! l) as [[items|items]|]; [| |done].
  - destruct (copy_dict_items (deepcopy fuel) (length h) items
                (<[l := length h]> memo) (h ++ [ODict []]))
      as [[memo1 h1]|] eqn:Hloop; [|done].
    injection Hcopy as <- <- <-.
    eapply (copy_dict_items_frame _ _ h IH); [done| |done].
    apply extends_alloc.
  - destruct (copy_list_items (deepcopy fuel) (length h) items
                (<[l := length h]> memo) (h ++ [OList []]))
      as [[memo1 h1]|] eqn:Hloop; [|done].
    injection Hcopy as <- <- <-.
    eapply (copy_list_items_frame _ _ h IH); [done| |done].
    apply extends_alloc.
Qed.

Lemma Forall_setitem {V : Type} (Q : V -> Prop) (k : string) (v : V)
    (items : list (string * V)) :
  Forall (fun kv => Q kv.2) items -> Q v ->
  Forall (fun kv => Q kv.2) (setitem k v items).
Proof.
  intros Hitems Hv. induction Hitems as [|[k' v'] items Hkv Hitems IH]; cbn.
  - by constructor.
  - destruct (String.eqb k k'); by constructor.
Qed.

Lemma separate_alloc (n : nat) (h : heap) (o : pyobj) :
  separate n h -> obj_from n o -> separate n (h ++ [o]).
Proof.
  intros Hsep Ho l o' Hl Hlook.
  apply lookup_app_Some in Hlook as [Hlook|[_ Hlook]]; [by eapply Hsep|].
  apply list_lookup_singleton_Some in Hlook as [_ <-]. done.
Qed.

Lemma separate_insert (n : nat) (h : heap) (y : nat) (o : pyobj) :
  separate n h -> obj_from n o -> separate n (<[y := o]> h).
Proof.
  intros Hsep Ho l o' Hl Hlook.
  destruct (decide (y = l)) as [->|Hne].
  - apply list_lookup_insert_Some in Hlook as [(_ & <- & _)|[? _]]; done.
  - rewrite list_lookup_insert_ne in Hlook by done. by eapply Hsep.
Qed.

Lemma copy_dict_items_from (n : nat) copy (y : nat) :
  frames copy -> builds_from n copy -> (n <= y)%nat ->
  forall items memo hc memo' h',
    memo_from n memo -> (n <= length hc)%nat -> separate n hc ->
    copy_dict_items copy y items memo hc = Some (memo', h') ->
    memo_from n memo' /\ separate n h'.
Proof.
  intros Hframe Hcopy Hy. induction items as [|[key value] items IH];
    intros memo hc memo' h' Hmemo Hlen Hsep Hloop; cbn in Hloop.
  - by injection Hloop as <- <-.
  - destruct (copy value memo hc) as [[[value' memo1] h1]|] eqn:Hc;
      [|done]. cbn in Hloop.
    destruct (setitem_at y key value' h1) as [h2|] eqn:Hs; [|done].
    cbn in Hloop.
    destruct (Hcopy _ _ _ _ _ _ Hmemo Hlen Hsep Hc) as (Hmemo1 & Hsep1 & Hv).
    destruct (Hframe _ _ _ _ _ _ Hc) as [Hlen1 _].
    apply setitem_at_spec in Hs as (its & Hits & ->).
    eapply IH; [exact Hmemo1| | |exact Hloop].
    + rewrite length_insert. lia.
    + apply separate_insert; [done|]. cbn.
      apply Forall_setitem; [|done]. exact (Hsep1 y _ Hy Hits).
Qed.

Lemma copy_list_items_from (n : nat) copy (y : nat) :
  frames copy -> builds_from n copy -> (n <= y)%nat ->
  forall items memo hc memo' h',
    memo_from n memo -> (n <= length hc)%nat -> separate n hc ->
    copy_list_items copy y items memo hc = Some (memo', h') ->
    memo_from n memo' /\ separate n h'.
Proof.
  intros Hframe Hcopy Hy. induction items as [|a items IH];
    intros memo hc memo' h' Hmemo Hlen Hsep Hloop; cbn in Hloop.
  - by injection Hloop as <- <-.
  - destruct (copy a memo hc) as [[[a' memo1] h1]|] eqn:Hc; [|done].
    cbn in Hloop.
    destruct (append_at y a' h1) as [h2|] eqn:Hs; [|done].
    cbn in Hloop.
    destruct (Hcopy _ _ _ _ _ _ Hmemo Hlen Hsep Hc) as (Hmemo1 & Hsep1 & Hv).
    destruct (Hframe _ _ _ _ _ _ Hc) as [Hlen1 _].
    apply append_at_spec in Hs as (its & Hits & ->).
    eapply IH; [exact Hmemo1| | |exact Hloop].
    + rewrite length_insert. lia.
    + apply separate_insert; [done|]. cbn.
      apply Forall_app. split; [exact (Hsep1 y _ Hy Hits)|].
      by constructor.
Qed.

(** [copy.deepcopy] started at a heap of [n] objects with an empty memo
    builds from [n] on: the copy reaches no object of the original. *)
Lemma deepcopy_from (n fuel : nat) : builds_from n (deepcopy fuel).
Proof.
  induction fuel as [|fuel IH];
    intros x memo h r memo' h' Hmemo Hlen Hsep Hcopy;
    (destruct x as [| | | | |l];
     try (by injection Hcopy as <- <- <-));
    cbn in Hcopy;
    (destruct (memo !! l) as [y|] eqn:Hl;
     [injection Hcopy as <- <- <-; repeat split; try done;
      by apply (Hmemo l)|]); [done|].
  assert (memo_from n (<[l := length h]> memo)) as Hmemo1.
  { intros l' y' [[_ <-]|[_ ?]]%lookup_insert_Some; [done|].
    by apply (Hmemo l'). }
  destruct (h !! l) as [[items|items]|]; [| |done].
  - destruct (copy_dict_items (deepcopy fuel) (length h) items
                (<[l := length h]> memo) (h ++ [ODict []]))
      as [[memo1 h1]|] eqn:Hloop; [|done].
    injection Hcopy as <- <- <-.
    assert (n <= length (h ++ [ODict []]))%nat as Hlen1
      by (rewrite length_app; cbn; lia).
    assert (separate n (h ++ [ODict []])) as Hsep1
      by (apply separate_alloc; [done|by constructor]).
    destruct (copy_dict_items_from n _ _ (deepcopy_frame fuel) IH Hlen
                _ _ _ _ _ Hmemo1 Hlen1 Hsep1 Hloop) as [? ?].
    done.
  - destruct (copy_list_items (deepcopy fuel) (length h) items
                (<[l := length h]> memo) (h ++ [OList []]))
      as [[memo1 h1]|] eqn:Hloop; [|done].
    injection Hcopy as <- <- <-.
    assert (n <= length (h ++ [OList []]))%nat as Hlen1
      by (rewrite length_app; cbn; lia).
    assert (separate n (h ++ [OList []])) as Hsep1
      by (apply separate_alloc; [done|by constructor]).
    destruct (copy_list_items_from n _ _ (deepcopy_frame fuel) IH Hlen
                _ _ _ _ _ Hmemo1 Hlen1 Hsep1 Hloop) as [? ?].
    done.
Qed.

Lemma repr_extends (h h' : heap) :
  extends h h' -> forall v x, repr h x v -> repr h' x v.
Proof.
  intros [_ Hext]. induction v as [| | | | |vs IH|d IH] using JValue_ind';
    intros x Hr; inversion Hr; subst; try constructor.
  - apply (repr_arr _ _ items).
    + rewrite Hext; [done|]. by eapply lookup_lt_Some.
    + clear Hr H0. induction H2 as [|x v xs vs Hxv _ IHxs];
        [constructor|].
      apply Forall_cons in IH as [IHv IHvs]. constructor; auto.
  - apply (repr_obj _ _ items).
    + rewrite Hext; [done|]. by eapply lookup_lt_Some.
    + clear Hr H0. induction H2 as [|i e xs es [Hk Hxe] _ IHxs];
        [constructor|].
      apply Forall_cons in IH as [IHv IHvs]. constructor; auto.
Qed.

Lemma alloc_json_spec (v : JValue) :
  forall h : heap,
    extends h (alloc_json v h).2 /\
    repr (alloc_json v h).2 (alloc_json v h).1 v.
Proof.
  induction v as [| | | | |vs IH|d IH] using JValue_ind'; intros h;
    try (split; [apply extends_refl|constructor]).
  - cbn [alloc_json].
    assert (forall h, extends h (alloc_list alloc_json vs h).2 /\
                      Forall2 (repr (alloc_list alloc_json vs h).2)
                        (alloc_list alloc_json vs h).1 vs) as Hlist.
    { clear h. induction vs as [|v vs IHvs]; intros h; cbn.
      - split; [apply extends_refl|constructor].
      - apply Forall_cons in IH as [IHv IH].
        destruct (IHv h) as [He Hr].
        destruct (alloc_json v h) as [x ha]. cbn in He, Hr.
        destruct (IHvs IH ha) as [He' Hr'].
        destruct (alloc_list alloc_json vs ha) as [xs hb]. cbn in *.
        split; [by eapply extends_trans|].
        constructor; [by eapply repr_extends|done]. }
    destruct (Hlist h) as [He Hr].
    destruct (alloc_list alloc_json vs h) as [items h1]. cbn in *.
    split; [eapply extends_trans; [done|apply extends_alloc]|].
    apply (repr_arr _ _ items); [by apply list_lookup_middle|].
    eapply Forall2_impl; [done|]. intros x v. apply repr_extends.
    apply extends_alloc.
  - cbn [alloc_json].
    assert (forall h, extends h (alloc_members alloc_json d h).2 /\
                      Forall2 (fun i e =>
                                 i.1 = e.1 /\
                                 repr (alloc_members alloc_json d h).2 i.2 e.2)
                        (alloc_members alloc_json d h).1 d) as Hlist.
    { clear h. induction d as [|[k v] d IHd]; intros h; cbn.
      - split; [apply extends_refl|constructor].
      - apply Forall_cons in IH as [IHv IH]. cbn in IHv.
        destruct (IHv h) as [He Hr].
        destruct (alloc_json v h) as [x ha]. cbn in He, Hr.
        destruct (IHd IH ha) as [He' Hr'].
        destruct (alloc_members alloc_json d ha) as [xs hb]. cbn in *.
        split; [by eapply extends_trans|].
        constructor; [split; [done|by eapply repr_extends]|done]. }
    destruct (Hlist h) as [He Hr].
    destruct (alloc_members alloc_json d h) as [items h1]. cbn in *.
    split; [eapply extends_trans; [done|apply extends_alloc]|].
    apply (repr_obj _ _ items); [by apply list_lookup_middle|].
    eapply Forall2_impl; [done|]. intros i e [Hk Hie]. split; [done|].
    eapply repr_extends; [apply extends_alloc|done].
Qed.

(** The filling loops keep a dict at [y] a dict, and a list a list. *)
Lemma copy_dict_items_dict_at copy (y : nat) :
  frames copy ->
  forall items memo hc memo' h',
    is_Some (hc !! y ≫= fun o => match o with
                                  | ODict its => Some its
                                  | OList _ => None
                                  end) ->
    copy_dict_items copy y items memo hc = Some (memo', h') ->
    exists its', h' !! y = Some (ODict its').
Proof.
  intros Hframe. induction items as [|[key value] items IH];
    intros memo hc memo' h' Hy Hloop; cbn in Hloop.
  - injection Hloop as <- <-.
    destruct (hc !! y) as [[its|its]|]; cbn in Hy; try by destruct Hy.
    by exists its.
  - destruct (copy value memo hc) as [[[value' memo1] h1]|] eqn:Hc;
      [|done]. cbn in Hloop.
    destruct (setitem_at y key value' h1) as [h2|] eqn:Hs; [|done].
    cbn in Hloop. eapply IH; [|exact Hloop].
    apply setitem_at_spec in Hs as (its & Hits & ->).
    rewrite list_lookup_insert_eq by (by eapply lookup_lt_Some). done.
Qed.

Lemma depth_arr_bound (vs : list JValue) (f : nat) :
  (depth (JArr vs) <= S f)%nat -> Forall (fun v => (depth v <= f)%nat) vs.
Proof.
  cbn. intros Hd. apply le_S_n in Hd.
  induction vs as [|v vs IH]; constructor; cbn in Hd; [lia|].
  apply IH. lia.
Qed.

Lemma depth_obj_bound (d : list (string * JValue)) (f : nat) :
  (depth (JObj d) <= S f)%nat ->
  Forall (fun kv => (depth kv.2 <= f)%nat) d.
Proof.
  cbn. intros Hd. apply le_S_n in Hd.
  induction d as [|kv d IH]; constructor; cbn in Hd; [lia|].
  apply IH. lia.
Qed.

Lemma copy_dict_items_total copy (y : nat) (h0 : heap) :
  frames copy -> (length h0 <= y)%nat ->
  forall items d,
    Forall2 (fun i e => i.1 = e.1 /\ repr h0 i.2 e.2) items d ->
    Forall (fun kv => returns_on h0 kv.2 copy) d ->
    forall memo hc its,
      extends h0 hc -> hc !! y = Some (ODict its) ->
      is_Some (copy_dict_items copy y items memo hc).
Proof.
  intros Hframe Hy items d Hitems.
  induction Hitems as [|[key value] [k v] items d [_ Hr] _ IH];
    intros Hcopy memo hc its Hext Hdict; cbn; [done|].
  apply Forall_cons in Hcopy as [Hv Hcopy]. cbn in Hr, Hv.
  destruct (Hv value memo hc Hr Hext) as [[[value' memo1] h1] Hc].
  rewrite Hc. cbn.
  pose proof (Hframe _ _ _ _ _ _ Hc) as Hext1.
  assert (h1 !! y = Some (ODict its)) as Hdict1.
  { destruct Hext1 as [_ Hsame]. rewrite Hsame; [done|].
    by eapply lookup_lt_Some. }
  unfold setitem_at. rewrite Hdict1. cbn.
  eapply (IH Hcopy).
  - apply extends_insert; [|done]. by eapply extends_trans.
  - apply list_lookup_insert_eq. by eapply lookup_lt_Some.
Qed.

Lemma copy_list_items_total copy (y : nat) (h0 : heap) :
  frames copy -> (length h0 <= y)%nat ->
  forall items vs,
    Forall2 (repr h0) items vs ->
    Forall (fun v => returns_on h0 v copy) vs ->
    forall memo hc its,
      extends h0 hc -> hc !! y = Some (OList its) ->
      is_Some (copy_list_items copy y items memo hc).
Proof.
  intros Hframe Hy items vs Hitems.
  induction Hitems as [|a v items vs Hr _ IH];
    intros Hcopy memo hc its Hext Hlist; cbn; [done|].
  apply Forall_cons in Hcopy as [Hv Hcopy].
  destruct (Hv a memo hc Hr Hext) as [[[a' memo1] h1] Hc].
  rewrite Hc. cbn.
  pose proof (Hframe _ _ _ _ _ _ Hc) as Hext1.
  assert (h1 !! y = Some (OList its)) as Hlist1.
  { destruct Hext1 as [_ Hsame]. rewrite Hsame; [done|].
    by eapply lookup_lt_Some. }
  unfold append_at. rewrite Hlist1. cbn.
  eapply (IH Hcopy).
  - apply extends_insert; [|done]. by eapply extends_trans.
  - apply list_lookup_insert_eq. by eapply lookup_lt_Some.
Qed.

(** [copy.deepcopy] returns on a JSON value when the fuel covers its
    depth. *)
Lemma deepcopy_total (h0 : heap) (v : JValue) :
  forall fuel : nat, (depth v <= fuel)%nat -> returns_on h0 v (deepcopy fuel).
Proof.
  induction v as [| | | | |vs IH|d IH] using JValue_ind';
    intros fuel Hfuel x memo h Hr Hext; inversion Hr; subst;
    try (by destruct fuel).
  - assert (deepcopy fuel (VRef l) memo h =
            match memo !! l with
            | Some y => Some (VRef y, memo, h)
            | None => deepcopy fuel (VRef l) memo h
            end) as -> by (destruct fuel; cbn; by destruct (memo !! l)).
    destruct (memo !! l) as [y|] eqn:Hmemo; [done|].
    destruct fuel as [|fuel]; [cbn in Hfuel; lia|].
    cbn [deepcopy]. rewrite Hmemo.
    assert (h !! l = Some (OList items)) as ->.
    { destruct Hext as [_ ->]; [done|]. by eapply lookup_lt_Some. }
    cbn [alloc].
    destruct (copy_list_items_total (deepcopy fuel) (length h) h0
                (deepcopy_frame fuel) ltac:(apply Hext) items vs H2)
      with (memo := <[l := length h]> memo) (hc := h ++ [OList []])
           (its := @nil pyval) as [[memo1 h1] ->]; [| | |done].
    + apply depth_arr_bound in Hfuel.
      eapply Forall_impl; [apply Forall_and; split; [exact IH|exact Hfuel]|].
      intros v [Hv Hd]. by apply Hv.
    + eapply extends_trans; [done|apply extends_alloc].
    + by apply list_lookup_middle.
  - assert (deepcopy fuel (VRef l) memo h =
            match memo !! l with
            | Some y => Some (VRef y, memo, h)
            | None => deepcopy fuel (VRef l) memo h
            end) as -> by (destruct fuel; cbn; by destruct (memo !! l)).
    destruct (memo !! l) as [y|] eqn:Hmemo; [done|].
    destruct fuel as [|fuel]; [cbn in Hfuel; lia|].
    cbn [deepcopy]. rewrite Hmemo.
    assert (h !! l = Some (ODict items)) as ->.
    { destruct Hext as [_ ->]; [done|]. by eapply lookup_lt_Some. }
    cbn [alloc].
    destruct (copy_dict_items_total (deepcopy fuel) (length h) h0
                (deepcopy_frame fuel) ltac:(apply Hext) items d H2)
      with (memo := <[l := length h]> memo) (hc := h ++ [ODict []])
           (its := @nil (string * pyval)) as [[memo1 h1] ->]; [| | |done].
    + apply depth_obj_bound in Hfuel.
      eapply Forall_impl; [apply Forall_and; split; [exact IH|exact Hfuel]|].
      intros kv [Hv Hd]. by apply Hv.
    + eapply extends_trans; [done|apply extends_alloc].
    + by apply list_lookup_middle.
Qed.

(** *** The copy stands for what the original stands for

    [D] is the set of addresses of the copies that are complete: they hold
    addresses of [D] only, and nothing is written to them again. A memo
    entry for an object smaller than the one being copied is complete;
    the copies in progress belong to enclosing objects, which are
    larger. *)

Lemma repr_functional (h : heap) (v1 : JValue) :
  forall x v2, repr h x v1 -> repr h x v2 -> v1 = v2.
Proof.
  induction v1 as [| | | | |vs IH|d IH] using JValue_ind';
    intros x v2 H1 H2; inversion H1; subst; inversion H2; subst; try done.
  - f_equal. rewrite H0 in H3. injection H3 as <-.
    clear H1 H2 H0. revert vs0 H5.
    induction H4 as [|x v xs vs Hxv _ IHxs]; intros vs0 H5;
      inversion H5; subst; [done|].
    apply Forall_cons in IH as [IHv IHvs]. f_equal; [by eapply IHv|].
    by apply IHxs.
  - rewrite H0 in H3. done.
  - rewrite H0 in H3. done.
  - f_equal. rewrite H0 in H3. injection H3 as <-.
    clear H1 H2 H0. revert d0 H5.
    induction H4 as [|i e xs es [Hk Hxe] _ IHxs]; intros d0 H5;
      inversion H5 as [|? e' ? es' [Hk' Hxe']]; subst; [done|].
    apply Forall_cons in IH as [IHv IHvs]. f_equal.
    + destruct e, e'; cbn in *. f_equal; [congruence|by eapply IHv].
    + by apply IHxs.
Qed.

Lemma repr_agree (D : nat -> Prop) (h h' : heap) :
  closed D h -> (forall a, D a -> h' !! a = h !! a) ->
  forall v x, val_in D x -> repr h x v -> repr h' x v.
Proof.
  intros Hclosed Hsame.
  induction v as [| | | | |vs IH|d IH] using JValue_ind';
    intros x Hx Hr; inversion Hr; subst; try constructor.
  - apply (repr_arr _ _ items); [by rewrite Hsame|].
    pose proof (Hclosed _ _ Hx H0) as Hin. cbn in Hin.
    clear Hr H0. induction H2 as [|x v xs vs Hxv _ IHxs]; [constructor|].
    apply Forall_cons in IH as [IHv IHvs].
    apply Forall_cons in Hin as [Hinx Hin]. constructor; auto.
  - apply (repr_obj _ _ items); [by rewrite Hsame|].
    pose proof (Hclosed _ _ Hx H0) as Hin. cbn in Hin.
    clear Hr H0. induction H2 as [|i e xs es [Hk Hxe] _ IHxs]; [constructor|].
    apply Forall_cons in IH as [IHv IHvs].
    apply Forall_cons in Hin as [Hinx Hin]. constructor; auto.
Qed.

Lemma val_in_mono (D D' : nat -> Prop) (x : pyval) :
  (forall a, D a -> D' a) -> val_in D x -> val_in D' x.
Proof. intros HD. destruct x; cbn; auto. Qed.

Lemma size_arr_items (vs : list JValue) :
  Forall (fun v => (size v < size (JArr vs))%nat) vs.
Proof.
  cbn. induction vs as [|v vs IH]; constructor; cbn; [lia|].
  eapply Forall_impl; [exact IH|]. cbn. intros; lia.
Qed.

Lemma size_obj_items (d : list (string * JValue)) :
  Forall (fun kv => (size kv.2 < size (JObj d))%nat) d.
Proof.
  cbn. induction d as [|kv d IH]; constructor; cbn; [lia|].
  eapply Forall_impl; [exact IH|]. cbn. intros; lia.
Qed.

Lemma wf_json_arr (vs : list JValue) :
  wf_json (JArr vs) -> Forall wf_json vs.
Proof.
  cbn. induction vs as [|v vs IH]; cbn; [constructor|].
  intros [Hv Hvs]. constructor; auto.
Qed.

Lemma wf_json_obj (d : list (string * JValue)) :
  wf_json (JObj d) -> NoDup (map fst d) /\ Forall (fun kv => wf_json kv.2) d.
Proof.
  cbn. intros [Hnd Hd]. split; [done|]. clear Hnd.
  induction d as [|kv d IH]; cbn in *; [constructor|].
  destruct Hd as [Hv Hd]. constructor; auto.
Qed.

Lemma setitem_fresh {V : Type} (k : string) (v : V) (d : list (string * V)) :
  k ∉ map fst d -> setitem k v d = d ++ [(k, v)].
Proof.
  induction d as [|[k' v'] d IH]; cbn; [done|].
  intros Hk. apply not_elem_of_cons in Hk as [Hne Hk].
  apply String.eqb_neq in Hne. rewrite Hne. by rewrite IH.
Qed.

Section Copy.
Variable h0 : heap.

Local Abbreviation memo_ok := (Heap.memo_ok h0).
Local Abbreviation memo_new := (Heap.memo_new h0).
Local Abbreviation copied := (Heap.copied h0).

Lemma copy_dict_items_copied copy (y s : nat) :
  frames copy ->
  forall items d,
    Forall2 (fun i e => i.1 = e.1 /\ repr h0 i.2 e.2) items d ->
    Forall (fun kv => copied copy kv.2 /\ wf_json kv.2 /\
                      (size kv.2 < s)%nat) d ->
    forall memo hc memo' h' (D : nat -> Prop) done done_d,
      extends h0 hc -> (length h0 <= y)%nat -> ~ D y ->
      hc !! y = Some (ODict done) ->
      Forall2 (fun i e => i.1 = e.1 /\ val_in D i.2 /\ repr hc i.2 e.2)
        done done_d ->
      NoDup (map fst (done_d ++ d)) ->
      memo_ok s D memo hc -> closed D hc ->
      (forall a, D a -> (a < length hc)%nat) ->
      copy_dict_items copy y items memo hc = Some (memo', h') ->
      exists (D' : nat -> Prop) final,
        (forall a, D a -> D' a) /\
        (forall a, D' a -> D a \/ (length hc <= a)%nat) /\
        (forall a, D' a -> (a < length h')%nat) /\
        (forall a, D a -> h' !! a = hc !! a) /\
        closed D' h' /\
        memo_ok s D' memo' h' /\
        memo ⊆ memo' /\
        memo_new s memo memo' /\
        h' !! y = Some (ODict final) /\
        Forall2 (fun i e => i.1 = e.1 /\ val_in D' i.2 /\ repr h' i.2 e.2)
          final (done_d ++ d) /\
        (length hc <= length h')%nat.
Proof.
  intros Hframe items d Hitems.
  induction Hitems as [|[k x] [k' v] items d [Hk Hxv] _ IH];
    intros Hd memo hc memo' h' D done done_d Hext Hy HDy Hdone Hdd Hnd
           Hmemo Hclosed Hbound Hloop; cbn in Hloop.
  - injection Hloop as <- <-. exists D, done. rewrite app_nil_r.
    split_and!; try done; [by left|].
    intros l y' v' Hn Hs. by rewrite Hn in Hs.
  - cbn in Hk, Hxv. subst k'.
    apply Forall_cons in Hd as [(Hcopy & Hwf & Hsize) Hd]. cbn in *.
    destruct (copy x memo hc) as [[[r memo1] h1]|] eqn:Hc; [|done].
    cbn in Hloop.
    destruct (setitem_at y k r h1) as [h2|] eqn:Hs; [|done]. cbn in Hloop.
    destruct (Hcopy x memo hc r memo1 h1 s D Hxv Hwf Hext Hsize Hmemo
                Hclosed Hbound Hc)
      as (D1 & HD1 & Hnew1 & Hbound1 & Hsame1 & Hclosed1 & Hmemo1 & Hsub1
          & Hmnew1 & Hr1 & Hrepr1).
    pose proof (Hframe _ _ _ _ _ _ Hc) as [Hlen1 Hext1].
    assert (y < length hc)%nat as Hylt by (by eapply lookup_lt_Some).
    assert (~ D1 y) as HD1y.
    { intros [?|?]%Hnew1; [done|lia]. }
    apply setitem_at_spec in Hs as (its & Hits & ->).
    rewrite Hext1, Hdone in Hits by done. injection Hits as <-.
    assert (k ∉ map fst done) as Hkfresh.
    { rewrite map_app in Hnd. cbn in Hnd.
      apply NoDup_app in Hnd as (_ & Hdisj & _).
      assert (map fst done = map fst done_d) as ->.
      { clear -Hdd.
        induction Hdd as [|[] [] ? ? [? _] _ IHdd]; cbn in *; congruence. }
      intros Hin. eapply Hdisj; [done|]. by left. }
    rewrite (setitem_fresh _ _ _ Hkfresh) in Hloop.
    set (h2 := <[y := ODict (done ++ [(k, r)])]> h1) in *.
    assert (forall a, D1 a -> h2 !! a = h1 !! a) as Hsame2.
    { intros a Ha. unfold h2. rewrite list_lookup_insert_ne; [done|].
      by intros ->. }
    assert (forall a, D a -> h2 !! a = hc !! a) as Hsame02.
    { intros a Ha. rewrite Hsame2 by auto. by apply Hsame1. }
    destruct (IH Hd memo1 h2 memo' h' D1 (done ++ [(k, r)])
                (done_d ++ [(k, v)]))
      as (D' & final & HD' & Hnew' & Hbound' & Hsame' & Hclosed' & Hmemo'
          & Hsub' & Hmnew' & Hfinal & Hall & Hlen'); try done.
    + unfold h2. apply extends_insert; [|done].
      eapply extends_trans; [done|]. by split.
    + unfold h2. apply list_lookup_insert_eq. lia.
    + apply Forall2_app.
      * eapply Forall2_impl; [exact Hdd|]. intros i e (? & Hi & Hie).
        split; [done|]. split; [by eapply val_in_mono|].
        by eapply (repr_agree D hc h2).
      * constructor; [|constructor]. cbn. split; [done|]. split; [done|].
        by eapply (repr_agree D1 h1 h2).
    + by rewrite <- app_assoc.
    + intros l y' v' Hl Hlv Hsz.
      destruct (Hmemo1 l y' v' Hl Hlv Hsz) as [HDy' Hry']. split; [done|].
      by eapply (repr_agree D1 h1 h2).
    + intros a o Ha Hlook. rewrite Hsame2 in Hlook by done.
      by eapply Hclosed1.
    + intros a Ha. unfold h2. rewrite length_insert. by apply Hbound1.
    + exists D', final. rewrite <- app_assoc in Hall. cbn in Hall.
      assert (length h2 = length h1) as Hlen2
        by (unfold h2; by rewrite length_insert).
      split_and!; try done.
      * auto.
      * intros a [Ha|Ha]%Hnew'; [|right; lia].
        destruct (Hnew1 a Ha); [by left|by right].
      * intros a Ha. rewrite Hsame' by auto. by apply Hsame02.
      * by etrans.
      * intros l y' v' Hn Hs Hlv.
        destruct (memo1 !! l) as [y1|] eqn:Hl1.
        -- pose proof (Hmnew1 l y1 v' Hn Hl1 Hlv). lia.
        -- by eapply Hmnew'.
      * lia.
Qed.
Lemma copy_list_items_copied copy (y s : nat) :
  frames copy ->
  forall items vs,
    Forall2 (repr h0) items vs ->
    Forall (fun v => copied copy v /\ wf_json v /\ (size v < s)%nat) vs ->
    forall memo hc memo' h' (D : nat -> Prop) done done_v,
      extends h0 hc -> (length h0 <= y)%nat -> ~ D y ->
      hc !! y = Some (OList done) ->
      Forall2 (fun i e => val_in D i /\ repr hc i e) done done_v ->
      memo_ok s D memo hc -> closed D hc ->
      (forall a, D a -> (a < length hc)%nat) ->
      copy_list_items copy y items memo hc = Some (memo', h') ->
      exists (D' : nat -> Prop) final,
        (forall a, D a -> D' a) /\
        (forall a, D' a -> D a \/ (length hc <= a)%nat) /\
        (forall a, D' a -> (a < length h')%nat) /\
        (forall a, D a -> h' !! a = hc !! a) /\
        closed D' h' /\
        memo_ok s D' memo' h' /\
        memo ⊆ memo' /\
        memo_new s memo memo' /\
        h' !! y = Some (OList final) /\
        Forall2 (fun i e => val_in D' i /\ repr h' i e) final (done_v ++ vs) /\
        (length hc <= length h')%nat.
Proof.
  intros Hframe items vs Hitems.
  induction Hitems as [|x v items vs Hxv _ IH];
    intros Hd memo hc memo' h' D done done_v Hext Hy HDy Hdone Hdd
           Hmemo Hclosed Hbound Hloop; cbn in Hloop.
  - injection Hloop as <- <-. exists D, done. rewrite app_nil_r.
    split_and!; try done; [by left|].
    intros l y' v' Hn Hs. by rewrite Hn in Hs.
  - apply Forall_cons in Hd as [(Hcopy & Hwf & Hsize) Hd].
    destruct (copy x memo hc) as [[[r memo1] h1]|] eqn:Hc; [|done].
    cbn in Hloop.
    destruct (append_at y r h1) as [h2|] eqn:Hs; [|done]. cbn in Hloop.
    destruct (Hcopy x memo hc r memo1 h1 s D Hxv Hwf Hext Hsize Hmemo
                Hclosed Hbound Hc)
      as (D1 & HD1 & Hnew1 & Hbound1 & Hsame1 & Hclosed1 & Hmemo1 & Hsub1
          & Hmnew1 & Hr1 & Hrepr1).
    pose proof (Hframe _ _ _ _ _ _ Hc) as [Hlen1 Hext1].
    assert (y < length hc)%nat as Hylt by (by eapply lookup_lt_Some).
    assert (~ D1 y) as HD1y.
    { intros [?|?]%Hnew1; [done|lia]. }
    apply append_at_spec in Hs as (its & Hits & ->).
    rewrite Hext1, Hdone in Hits by done. injection Hits as <-.
    set (h2 := <[y := OList (done ++ [r])]> h1) in *.
    assert (forall a, D1 a -> h2 !! a = h1 !! a) as Hsame2.
    { intros a Ha. unfold h2. rewrite list_lookup_insert_ne; [done|].
      by intros ->. }
    assert (forall a, D a -> h2 !! a = hc !! a) as Hsame02.
    { intros a Ha. rewrite Hsame2 by auto. by apply Hsame1. }
    destruct (IH Hd memo1 h2 memo' h' D1 (done ++ [r]) (done_v ++ [v]))
      as (D' & final & HD' & Hnew' & Hbound' & Hsame' & Hclosed' & Hmemo'
          & Hsub' & Hmnew' & Hfinal & Hall & Hlen'); try done.
    + unfold h2. apply extends_insert; [|done].
      eapply extends_trans; [done|]. by split.
    + unfold h2. apply list_lookup_insert_eq. lia.
    + apply Forall2_app.
      * eapply Forall2_impl; [exact Hdd|]. intros i e (Hi & Hie).
        split; [by eapply val_in_mono|].
        by eapply (repr_agree D hc h2).
      * constructor; [|constructor]. split; [done|].
        by eapply (repr_agree D1 h1 h2).
    + intros l y' v' Hl Hlv Hsz.
      destruct (Hmemo1 l y' v' Hl Hlv Hsz) as [HDy' Hry']. split; [done|].
      by eapply (repr_agree D1 h1 h2).
    + intros a o Ha Hlook. rewrite Hsame2 in Hlook by done.
      by eapply Hclosed1.
    + intros a Ha. unfold h2. rewrite length_insert. by apply Hbound1.
    + exists D', final. rewrite <- app_assoc in Hall. cbn in Hall.
      assert (length h2 = length h1) as Hlen2
        by (unfold h2; by rewrite length_insert).
      split_and!; try done.
      * auto.
      * intros a [Ha|Ha]%Hnew'; [|right; lia].
        destruct (Hnew1 a Ha); [by left|by right].
      * intros a Ha. rewrite Hsame' by auto. by apply Hsame02.
      * by etrans.
      * intros l y' v' Hn Hs Hlv.
        destruct (memo1 !! l) as [y1|] eqn:Hl1.
        -- pose proof (Hmnew1 l y1 v' Hn Hl1 Hlv). lia.
        -- by eapply Hmnew'.
      * lia.
Qed.

Lemma memo_ok_weaken (n s : nat) (D : nat -> Prop) (memo : gmap nat nat)
    (h : heap) :
  (s <= n)%nat -> memo_ok n D memo h -> memo_ok s D memo h.
Proof. intros Hs Hmemo l y v' Hl Hr Hsz. apply (Hmemo l); [done..|lia]. Qed.

Lemma copied_same (v : JValue) (n : nat) (D : nat -> Prop)
    (memo : gmap nat nat) (h : heap) (r : pyval) :
  val_in D r -> repr h r v -> (forall a, D a -> (a < length h)%nat) ->
  closed D h -> memo_ok n D memo h ->
  exists D' : nat -> Prop,
    (forall a, D a -> D' a) /\
    (forall a, D' a -> D a \/ (length h <= a)%nat) /\
    (forall a, D' a -> (a < length h)%nat) /\
    (forall a, D a -> h !! a = h !! a) /\
    closed D' h /\
    memo_ok n D' memo h /\
    memo ⊆ memo /\
    memo_new (S (size v)) memo memo /\
    val_in D' r /\
    repr h r v.
Proof.
  intros Hr Hrepr Hbound Hclosed Hmemo. exists D.
  split_and!; try done; [by left|].
  intros l y v' Hn Hs. by rewrite Hn in Hs.
Qed.

(** [copy.deepcopy] of what stands for [v] stands for [v]. *)
Lemma deepcopy_copied (fuel : nat) : forall v, copied (deepcopy fuel) v.
Proof.
  induction fuel as [|fuel IH]; intros v x memo h r memo' h' n D
    Hr Hwf Hext Hsize Hmemo Hclosed Hbound Hcopy;
    (destruct x as [| | | | |l];
     [injection Hcopy as <- <- <-; apply copied_same; try done;
      inversion Hr; constructor ..|]);
    cbn in Hcopy;
    (destruct (memo !! l) as [y|] eqn:Hl;
     [injection Hcopy as <- <- <-;
      destruct (Hmemo l y v Hl Hr Hsize) as [HDy Hry];
      by apply copied_same|]); [done|].
  assert (length h0 <= length h)%nat as Hlen0 by apply Hext.
  assert (~ D (length h)) as HDy.
  { intros Ha%Hbound. lia. }
  assert (forall o, closed D (h ++ [o])) as Hclosed1.
  { intros o a o' Ha Hlook. rewrite lookup_app_l in Hlook by auto.
    by eapply Hclosed. }
  assert (forall o a, D a -> (a < length (h ++ [o]))%nat) as Hbound1.
  { intros o a Ha%Hbound. rewrite length_app. lia. }
  assert (forall o, memo_ok (size v) D (<[l := length h]> memo) (h ++ [o]))
    as Hmemo1.
  { intros o l' y' v' [[-> _]|[Hne Hl']]%lookup_insert_Some Hlv Hsz.
    - rewrite (repr_functional _ _ _ _ Hlv Hr) in Hsz. lia.
    - destruct (Hmemo l' y' v' Hl' Hlv ltac:(lia)) as [HDy' Hry'].
      split; [done|]. eapply repr_extends; [apply extends_alloc|done]. }
  assert (forall (Df : nat -> Prop) memo1 h1,
            (forall a, D a -> Df a) ->
            (forall a, D a -> h1 !! a = h !! a) ->
            memo_ok (size v) Df memo1 h1 ->
            <[l := length h]> memo ⊆ memo1 ->
            memo_new (size v) (<[l := length h]> memo) memo1 ->
            repr h1 (VRef (length h)) v ->
            memo_ok n (fun a => Df a \/ a = length h) memo1 h1 /\
            memo ⊆ memo1 /\
            memo_new (S (size v)) memo memo1) as Hfinish.
  { intros Df memo1 h1 HDf Hsame Hmemof Hsub Hmnew Hry. split_and!.
    - intros l' y' v' Hl' Hlv Hsz.
      destruct (decide (size v' < size v)%nat) as [Hlt|Hge].
      { destruct (Hmemof l' y' v' Hl' Hlv Hlt). split; [by left|done]. }
      destruct (<[l := length h]> memo !! l') as [y1|] eqn:Hl1.
      + pose proof (lookup_weaken _ _ _ _ Hl1 Hsub) as Hl1'.
        rewrite Hl' in Hl1'. injection Hl1' as <-.
        apply lookup_insert_Some in Hl1 as [[-> <-]|[Hne Hl1]].
        * rewrite (repr_functional _ _ _ _ Hlv Hr). split; [by right|done].
        * destruct (Hmemo l' y' v' Hl1 Hlv Hsz) as [HDy' Hry'].
          split; [left; by apply HDf|].
          by eapply (repr_agree D h h1).
      + pose proof (Hmnew l' y' v' Hl1 Hl' Hlv). lia.
    - etrans; [|exact Hsub]. by apply insert_subseteq.
    - intros l' y' v' Hn Hs Hlv.
      destruct (decide (l' = l)) as [->|Hne].
      + rewrite (repr_functional _ _ _ _ Hlv Hr). lia.
      + assert (size v' < size v)%nat; [|lia].
        apply (Hmnew l' y' v'); [|done..].
        by rewrite lookup_insert_ne. }
  inversion Hr as [| | | | |l' items vs Hl0 Hitems|l' items d Hl0 Hitems];
    subst.
  - assert (h !! l = Some (OList items)) as Hlh.
    { destruct Hext as [_ ->]; [done|]. by eapply lookup_lt_Some. }
    rewrite Hlh in Hcopy.
    destruct (copy_list_items (deepcopy fuel) (length h) items
                (<[l := length h]> memo) (h ++ [OList []]))
      as [[memo1 h1]|] eqn:Hloop; [|done].
    injection Hcopy as <- <- <-.
    assert (Forall (fun v => copied (deepcopy fuel) v /\ wf_json v /\
                             (size v < size (JArr vs))%nat) vs) as Hkids.
    { pose proof (wf_json_arr _ Hwf) as Hwfs.
      pose proof (size_arr_items vs) as Hsz.
      apply Forall_and. split; [by apply Forall_forall|].
      apply Forall_and. by split. }
    assert (extends h0 (h ++ [OList []])) as Hext1.
    { eapply extends_trans; [done|apply extends_alloc]. }
    assert ((h ++ [OList []]) !! length h = Some (OList [])) as Hy1
      by (by apply list_lookup_middle).
    destruct (copy_list_items_copied (deepcopy fuel) (length h)
                (size (JArr vs)) (deepcopy_frame fuel) items vs Hitems Hkids
                (<[l := length h]> memo) (h ++ [OList []]) memo1 h1 D [] []
                Hext1 Hlen0 HDy Hy1 (List.Forall2_nil _) (Hmemo1 _) (Hclosed1 _)
                (Hbound1 _) Hloop)
      as (Df & final & HDf & Hnewf & Hboundf & Hsamef & Hclosedf & Hmemof
          & Hsubf & Hmnewf & Hfinal & Hall & Hlenf).
    assert (forall a, D a -> h1 !! a = h !! a) as Hsame.
    { intros a Ha. rewrite Hsamef by done. apply lookup_app_l. auto. }
    assert (repr h1 (VRef (length h)) (JArr vs)) as Hry.
    { apply (repr_arr _ _ final); [done|].
      eapply Forall2_impl; [exact Hall|]. by intros ? ? [_ ?]. }
    destruct (Hfinish Df memo1 h1 HDf Hsame Hmemof Hsubf Hmnewf Hry)
      as (Hm1 & Hm2 & Hm3).
    rewrite length_app in Hlenf. cbn in Hlenf.
    exists (fun a => Df a \/ a = length h). split_and!; try done.
    + auto.
    + intros a [[?|Ha]%Hnewf| ->]; [by left| |right; lia].
      rewrite length_app in Ha. right. lia.
    + intros a [?%Hboundf| ->]; lia.
    + intros a o [Ha| ->] Hlook.
      * pose proof (Hclosedf a o Ha Hlook) as Ho.
        destruct o; cbn in *; (eapply Forall_impl; [exact Ho|]);
          intros; (eapply (val_in_mono Df); [intros; by left|done]).
      * rewrite Hfinal in Hlook. injection Hlook as <-. cbn.
        clear -Hall. induction Hall as [|? ? ? ? [Hi _] _ IHall];
          constructor; [|done].
        eapply (val_in_mono Df); [intros; by left|done].
    + cbn. by right.
  - assert (h !! l = Some (ODict items)) as Hlh.
    { destruct Hext as [_ ->]; [done|]. by eapply lookup_lt_Some. }
    rewrite Hlh in Hcopy.
    destruct (copy_dict_items (deepcopy fuel) (length h) items
                (<[l := length h]> memo) (h ++ [ODict []]))
      as [[memo1 h1]|] eqn:Hloop; [|done].
    injection Hcopy as <- <- <-.
    destruct (wf_json_obj _ Hwf) as [Hnd Hwfs].
    assert (Forall (fun kv => copied (deepcopy fuel) kv.2 /\ wf_json kv.2 /\
                              (size kv.2 < size (JObj d))%nat) d) as Hkids.
    { pose proof (size_obj_items d) as Hsz.
      apply Forall_and. split; [apply Forall_forall; intros; apply IH|].
      apply Forall_and. by split. }
    assert (extends h0 (h ++ [ODict []])) as Hext1.
    { eapply extends_trans; [done|apply extends_alloc]. }
    assert ((h ++ [ODict []]) !! length h = Some (ODict [])) as Hy1
      by (by apply list_lookup_middle).
    destruct (copy_dict_items_copied (deepcopy fuel) (length h)
                (size (JObj d)) (deepcopy_frame fuel) items d Hitems Hkids
                (<[l := length h]> memo) (h ++ [ODict []]) memo1 h1 D [] []
                Hext1 Hlen0 HDy Hy1 (List.Forall2_nil _) Hnd (Hmemo1 _)
                (Hclosed1 _) (Hbound1 _) Hloop)
      as (Df & final & HDf & Hnewf & Hboundf & Hsamef & Hclosedf & Hmemof
          & Hsubf & Hmnewf & Hfinal & Hall & Hlenf).
    assert (forall a, D a -> h1 !! a = h !! a) as Hsame.
    { intros a Ha. rewrite Hsamef by done. apply lookup_app_l. auto. }
    assert (repr h1 (VRef (length h)) (JObj d)) as Hry.
    { apply (repr_obj _ _ final); [done|].
      eapply Forall2_impl; [exact Hall|]. by intros ? ? (? & _ & ?). }
    destruct (Hfinish Df memo1 h1 HDf Hsame Hmemof Hsubf Hmnewf Hry)
      as (Hm1 & Hm2 & Hm3).
    rewrite length_app in Hlenf. cbn in Hlenf.
    exists (fun a => Df a \/ a = length h). split_and!; try done.
    + auto.
    + intros a [[?|Ha]%Hnewf| ->]; [by left| |right; lia].
      rewrite length_app in Ha. right. lia.
    + intros a [?%Hboundf| ->]; lia.
    + intros a o [Ha| ->] Hlook.
      * pose proof (Hclosedf a o Ha Hlook) as Ho.
        destruct o; cbn in *; (eapply Forall_impl; [exact Ho|]);
          intros; (eapply (val_in_mono Df); [intros; by left|done]).
      * rewrite Hfinal in Hlook. injection Hlook as <-. cbn.
        clear -Hall. induction Hall as [|? ? ? ? (_ & Hi & _) _ IHall];
          constructor; [|done].
        eapply (val_in_mono Df); [intros; by left|done].
    + cbn. by right.
Qed.
End Copy.

Lemma deepcopy_repr (fuel : nat) (h0 : heap) (x : pyval) (v : JValue)
    (r : pyval) (memo' : gmap nat nat) (h' : heap) :
  repr h0 x v -> wf_json v ->
  deepcopy fuel x ∅ h0 = Some (r, memo', h') ->
  repr h' r v.
Proof.
  intros Hr Hwf Hcopy.
  assert (memo_ok h0 (S (size v)) (fun _ => False) ∅ h0) as Hmemo.
  { intros l y v' Hl. by rewrite lookup_empty in Hl. }
  assert (closed (fun _ => False) h0) as Hclosed by (by intros a o []).
  destruct (deepcopy_copied h0 fuel v x ∅ h0 r memo' h' (S (size v))
              (fun _ => False) Hr Hwf (extends_refl h0) (le_n _)
              Hmemo Hclosed ltac:(by intros a []) Hcopy)
    as (D' & _ & _ & _ & _ & _ & _ & _ & _ & _ & Hrepr).
  done.
Qed.

(** A change at [y] is not seen from a value smaller than the one at
    [y]. *)
Lemma repr_insert_above (h : heap) (y : nat) (o : pyobj) (vy : JValue) :
  repr h (VRef y) vy ->
  forall v x, (size v < size vy)%nat -> repr h x v -> repr (<[y := o]> h) x v.
Proof.
  intros Hy. induction v as [| | | | |vs IH|d IH] using JValue_ind';
    intros x Hsize Hr; inversion Hr; subst; try constructor.
  - assert (l <> y) as Hne.
    { intros ->. rewrite (repr_functional _ _ _ _ Hr Hy) in Hsize. lia. }
    apply (repr_arr _ _ items); [by rewrite list_lookup_insert_ne|].
    assert (Forall (fun v => (size v < size vy)%nat) vs) as Hsz.
    { eapply Forall_impl; [apply size_arr_items|]. cbn. intros. cbn in Hsize. lia. }
    clear Hr H0 Hsize. induction H2 as [|x v xs vs' Hxv _ IHxs]; [constructor|].
    apply Forall_cons in IH as [IHv IHvs].
    apply Forall_cons in Hsz as [Hszv Hszs]. constructor; auto.
  - assert (l <> y) as Hne.
    { intros ->. rewrite (repr_functional _ _ _ _ Hr Hy) in Hsize. lia. }
    apply (repr_obj _ _ items); [by rewrite list_lookup_insert_ne|].
    assert (Forall (fun kv => (size kv.2 < size vy)%nat) d) as Hsz.
    { eapply Forall_impl; [apply size_obj_items|]. cbn. intros. cbn in Hsize. lia. }
    clear Hr H0 Hsize.
    induction H2 as [|i e xs es [Hk Hxe] _ IHxs]; [constructor|].
    apply Forall_cons in IH as [IHv IHvs].
    apply Forall_cons in Hsz as [Hszv Hszs]. constructor; auto.
Qed.

Lemma repr_items_insert_above (h : heap) (y : nat) (o : pyobj)
    (vy : JValue) (items : list (string * pyval))
    (d : list (string * JValue)) :
  repr h (VRef y) vy ->
  Forall (fun kv => (size kv.2 < size vy)%nat) d ->
  Forall2 (fun i e => i.1 = e.1 /\ repr h i.2 e.2) items d ->
  Forall2 (fun i e => i.1 = e.1 /\ repr (<[y := o]> h) i.2 e.2) items d.
Proof.
  intros Hy Hsz Hall. induction Hall as [|i e xs es [Hk Hie] _ IHall];
    [constructor|].
  apply Forall_cons in Hsz as [Hsze Hszs]. constructor; [|by apply IHall].
  split; [done|]. by eapply repr_insert_above.
Qed.

Lemma Forall2_setitem (R : pyval -> JValue -> Prop) (k : string)
    (x : pyval) (v : JValue) (items : list (string * pyval))
    (d : list (string * JValue)) :
  Forall2 (fun i e => i.1 = e.1 /\ R i.2 e.2) items d -> R x v ->
  Forall2 (fun i e => i.1 = e.1 /\ R i.2 e.2)
    (setitem k x items) (setitem k v d).
Proof.
  intros Hitems Hxv.
  induction Hitems as [|[k1 x1] [k2 v2] items d [Hk Hr] Hrest IH]; cbn in *.
  - by constructor.
  - subst k2. destruct (String.eqb k k1); by constructor.
Qed.

End HeapFacts.

(** ** The body adapter *)

Section BodyAdapterFacts.
Import Py Json Heap Adapter BodyAdapter.

Lemma assoc_setitem_eq {V : Type} (k : string) (v : V)
    (d : list (string * V)) :
  assoc k (setitem k v d) = Some v.
Proof.
  induction d as [|[k' v'] d IH]; cbn.
  - by rewrite String.eqb_refl.
  - destruct (String.eqb k k') eqn:Hk; cbn.
    + by rewrite String.eqb_refl.
    + by rewrite Hk.
Qed.

Lemma assoc_setitem_ne {V : Type} (k k' : string) (v : V)
    (d : list (string * V)) :
  k <> k' -> assoc k' (setitem k v d) = assoc k' d.
Proof.
  intros Hne. induction d as [|[k0 v0] d IH]; cbn.
  - apply not_eq_sym, String.eqb_neq in Hne. by rewrite Hne.
  - destruct (String.eqb k k0) eqn:Hk; cbn; [|by rewrite IH].
    apply String.eqb_eq in Hk as <-.
    apply not_eq_sym, String.eqb_neq in Hne. by rewrite Hne.
Qed.

(** The copy of a dict that is not in the memo is the next address, and a
    dict is there when the copy is done. *)
Lemma deepcopy_dict_root (fuel l : nat) (items : list (string * pyval))
    (memo memo' : gmap nat nat) (h h' : heap) (r : pyval) :
  h !! l = Some (ODict items) -> memo !! l = None ->
  deepcopy fuel (VRef l) memo h = Some (r, memo', h') ->
  r = VRef (length h) /\ exists its, h' !! length h = Some (ODict its).
Proof.
  intros Hl Hmemo Hcopy. destruct fuel as [|fuel]; cbn in Hcopy;
    rewrite Hmemo in Hcopy; [done|].
  rewrite Hl in Hcopy. cbn in Hcopy.
  destruct (copy_dict_items (deepcopy fuel) (length h) items
              (<[l := length h]> memo) (h ++ [ODict []]))
    as [[memo1 h1]|] eqn:Hloop; [|done].
  injection Hcopy as <- <- <-. split; [done|].
  eapply (copy_dict_items_dict_at _ _ (deepcopy_frame fuel)); [|done].
  by rewrite list_lookup_middle.
Qed.

(** What [set_destination_info] returns on a JSON object: the copy is at
    the next address, and the two assignments are made on it. *)
Lemma set_destination_info_spec (fuel : nat) (model_route : ModelRoute)
    (data : pyval) (d : list (string * JValue)) (h0 : heap) :
  repr h0 data (JObj d) -> (depth (JObj d) <= fuel)%nat ->
  exists (its : list (string * pyval)) (memo : gmap nat nat) (h1 : heap),
    deepcopy fuel data ∅ h0 = Some (VRef (length h0), memo, h1) /\
    h1 !! length h0 = Some (ODict its) /\
    set_destination_info fuel model_route data h0 =
    Some (Ret (VRef (length h0)),
          <[length h0 :=
              ODict (setitem "base_url"
                       (VStr (_get_provider_formatted_url model_route))
                       (setitem "model"
                          (VStr (name (route_model model_route))) its))]> h1).
Proof.
  intros Hr Hfuel.
  destruct (deepcopy_total h0 (JObj d) fuel Hfuel data ∅ h0 Hr
              (extends_refl h0)) as [[[r memo] h1] Hcopy].
  inversion Hr as [| | | | | |l items d' Hl Hitems]; subst.
  destruct (deepcopy_dict_root _ _ _ _ _ _ _ _ Hl (lookup_empty l) Hcopy)
    as [-> [its Hits]].
  exists its, memo, h1. split; [done|]. split; [done|].
  unfold set_destination_info. rewrite Hcopy. cbn.
  unfold setitem_at. rewrite Hits. cbn.
  rewrite list_lookup_insert_eq by (by eapply lookup_lt_Some). cbn.
  by rewrite list_insert_insert_eq.
Qed.

(** C8. For every route and every JSON object [d] that [data] stands for,
    with fuel for its depth, [set_destination_info] returns a dict whose
    [model] is the name of the route's model and whose [base_url] is the
    endpoint followed by [/v1] for [openai] and [openrouter], and the
    endpoint as it is for [ollama], [anthropic] and [llamacpp]. *)
Theorem set_destination_info_fields (fuel : nat) (model_route : ModelRoute)
    (data : pyval) (d : list (string * JValue)) (h0 : heap) :
  repr h0 data (JObj d) -> (depth (JObj d) <= fuel)%nat ->
  exists (y : nat) (items : list (string * pyval)) (h' : heap),
    set_destination_info fuel model_route data h0 = Some (Ret (VRef y), h') /\
    h' !! y = Some (ODict items) /\
    assoc "model" items = Some (VStr (name (route_model model_route))) /\
    assoc "base_url" items =
      Some (VStr
              match provider_type (route_endpoint model_route) with
              | openai | openrouter =>
                  endpoint (route_endpoint model_route) +:+ "/v1"
              | ollama | anthropic | llamacpp =>
                  endpoint (route_endpoint model_route)
              end).
Proof.
  intros Hr Hfuel.
  destruct (set_destination_info_spec fuel model_route data d h0 Hr Hfuel)
    as (its & memo & h1 & _ & Hits & ->).
  eexists _, _, _. split; [done|]. split.
  { apply list_lookup_insert_eq. by eapply lookup_lt_Some. }
  split.
  - by rewrite assoc_setitem_ne, assoc_setitem_eq.
  - rewrite assoc_setitem_eq. unfold _get_provider_formatted_url.
    by destruct (provider_type (route_endpoint model_route)).
Qed.

(** C9. For every route and every JSON object [d] that [data] stands for,
    with fuel for its depth, [set_destination_info] returns a dict at a
    new address; every object of the heap it was called on is where and
    as it was, so [data] still stands for [d]; the new objects hold no
    address of an old one, so nothing done to the result later reaches
    the original; and, [d] having no key twice, the result stands for [d]
    with [model] and [base_url] set. *)
Theorem set_destination_info_copies (fuel : nat) (model_route : ModelRoute)
    (data : pyval) (d : list (string * JValue)) (h0 : heap) :
  repr h0 data (JObj d) -> (depth (JObj d) <= fuel)%nat ->
  exists (y : nat) (h' : heap),
    set_destination_info fuel model_route data h0 = Some (Ret (VRef y), h') /\
    (length h0 <= y)%nat /\
    extends h0 h' /\
    repr h' data (JObj d) /\
    separate (length h0) h' /\
    (wf_json (JObj d) ->
     repr h' (VRef y)
       (JObj (setitem "base_url"
                (JStr (_get_provider_formatted_url model_route))
                (setitem "model" (JStr (name (route_model model_route)))
                   d)))).
Proof.
  intros Hr Hfuel.
  destruct (set_destination_info_spec fuel model_route data d h0 Hr Hfuel)
    as (its & memo & h1 & Hcopy & Hits & ->).
  assert (wf_json (JObj d) ->
          repr (<[length h0 :=
                    ODict (setitem "base_url"
                             (VStr (_get_provider_formatted_url model_route))
                             (setitem "model"
                                (VStr (name (route_model model_route)))
                                its))]> h1)
            (VRef (length h0))
            (JObj (setitem "base_url"
                     (JStr (_get_provider_formatted_url model_route))
                     (setitem "model"
                        (JStr (name (route_model model_route))) d))))
    as Hresult.
  { intros Hwf.
    pose proof (deepcopy_repr _ _ _ _ _ _ _ Hr Hwf Hcopy) as Hcopied.
    inversion Hcopied as [| | | | | |? its' ? Hits' Hall]; subst.
    rewrite Hits in Hits'. injection Hits' as <-.
    eapply repr_obj.
    { apply list_lookup_insert_eq. by eapply lookup_lt_Some. }
    apply (Forall2_setitem (repr _)); [|constructor].
    apply (Forall2_setitem (repr _)); [|constructor].
    eapply repr_items_insert_above; [exact Hcopied| |exact Hall].
    apply size_obj_items. }
  pose proof (deepcopy_frame _ _ _ _ _ _ _ Hcopy) as Hext.
  assert (extends h0
            (<[length h0 :=
                 ODict (setitem "base_url"
                          (VStr (_get_provider_formatted_url model_route))
                          (setitem "model"
                             (VStr (name (route_model model_route))) its))]>
               h1)) as Hext' by (by apply extends_insert).
  eexists _, _. split; [done|]. split; [done|]. split; [done|].
  split; [by eapply repr_extends|]. split; [|done].
  assert (separate (length h0) h0) as Hsep0.
  { intros l o Hl Hlook. apply lookup_lt_Some in Hlook. lia. }
  assert (memo_from (length h0) ∅) as Hmemo0.
  { intros l y Hl. by rewrite lookup_empty in Hl. }
  destruct (deepcopy_from (length h0) fuel data ∅ h0 _ _ _
              Hmemo0 (le_n _) Hsep0 Hcopy) as (_ & Hsep & _).
  apply separate_insert; [done|]. cbn.
    apply Forall_setitem; [|done]. apply Forall_setitem; [|done].
    exact (Hsep _ _ (le_n _) Hits).
Qed.

End BodyAdapterFacts.

Section BodyAdapterRuns.
Import Py Json Heap Adapter BodyAdapter Samples.

(** The sample body on an empty heap: the message at address [0], the
    list of messages at [1], the body at [2]. *)
Lemma body_on_heap :
  alloc_json body [] =
  (VRef 2,
   [ODict [("role", VStr "user")];
    OList [VRef 0];
    ODict [("model", VStr "m"); ("messages", VRef 1)]]).
Proof. reflexivity. Qed.

(** The run for the route to OpenRouter at [http://x]: the copy of the
    body is at [3], of the list at [4], of the message at [5]; the three
    objects of the original are as they were. *)
Lemma set_destination_info_run :
  set_destination_info 3 (route_of "http://x" openrouter)
    (alloc_json body []).1 (alloc_json body []).2 =
  Some (Ret (VRef 3),
        [ODict [("role", VStr "user")];
         OList [VRef 0];
         ODict [("model", VStr "m"); ("messages", VRef 1)];
         ODict [("model", VStr "gpt"); ("messages", VRef 4);
                ("base_url", VStr "http://x/v1")];
         OList [VRef 5];
         ODict [("role", VStr "user")]]).
Proof. vm_compute. reflexivity. Qed.

Lemma set_destination_info_fields_witness :
  (exists y items h',
     set_destination_info 3 (route_of "http://x" openrouter)
       (alloc_json body []).1 (alloc_json body []).2 =
       Some (Ret (VRef y), h') /\
     h' !! y = Some (ODict items) /\
     assoc "model" items = Some (VStr "gpt") /\
     assoc "base_url" items = Some (VStr "http://x/v1")) /\
  (exists y items h',
     set_destination_info 3 (route_of "http://y" ollama)
       (alloc_json body []).1 (alloc_json body []).2 =
       Some (Ret (VRef y), h') /\
     h' !! y = Some (ODict items) /\
     assoc "model" items = Some (VStr "gpt") /\
     assoc "base_url" items = Some (VStr "http://y")).
Proof.
  split.
  - exact (set_destination_info_fields 3 (route_of "http://x" openrouter)
             (alloc_json body []).1
             [("model", JStr "m");
              ("messages", JArr [JObj [("role", JStr "user")]])]
             (alloc_json body []).2
             (proj2 (alloc_json_spec body []))
             ltac:(vm_compute; lia)).
  - exact (set_destination_info_fields 3 (route_of "http://y" ollama)
             (alloc_json body []).1
             [("model", JStr "m");
              ("messages", JArr [JObj [("role", JStr "user")]])]
             (alloc_json body []).2
             (proj2 (alloc_json_spec body []))
             ltac:(vm_compute; lia)).
Defined.

Lemma body_wf : wf_json body.
Proof.
  cbn. split_and!; try done;
    match goal with
    | |- NoDup ?l => exact (bool_decide_unpack (NoDup l) I)
    end.
Qed.

Lemma set_destination_info_copies_witness :
  exists y h',
    set_destination_info 3 (route_of "http://x" openrouter)
      (alloc_json body []).1 (alloc_json body []).2 =
      Some (Ret (VRef y), h') /\
    (3 <= y)%nat /\
    extends (alloc_json body []).2 h' /\
    repr h' (alloc_json body []).1 body /\
    separate 3 h' /\
    repr h' (VRef y)
      (JObj [("model", JStr "gpt");
             ("messages", JArr [JObj [("role", JStr "user")]]);
             ("base_url", JStr "http://x/v1")]).
Proof.
  destruct (set_destination_info_copies 3 (route_of "http://x" openrouter)
              (alloc_json body []).1
              [("model", JStr "m");
               ("messages", JArr [JObj [("role", JStr "user")]])]
              (alloc_json body []).2
              (proj2 (alloc_json_spec body []))
              ltac:(vm_compute; lia))
    as (y & h' & Hrun & Hy & Hext & Hsame & Hsep & Hcopy).
  exists y, h'. repeat split; try assumption; try apply Hext.
  exact (Hcopy body_wf).
Defined.

End BodyAdapterRuns.

(** * Further properties of the code *)

(** ** More on [str.split] and [str.strip] *)

Section StripFacts.
Import Py.

Lemma append_empty (t : string) : EmptyString +:+ t = t.
Proof. reflexivity. Qed.

Lemma rstrip_idem s : rstrip (rstrip s) = rstrip s.
Proof.
  induction s as [|c s IH]; [done|].
  cbn [rstrip]. destruct (rstrip s) as [|a t] eqn:Hr.
  - destruct (isspace c) eqn:Hc; [done|]. cbn. by rewrite Hc.
  - cbn [rstrip] in *. by rewrite IH.
Qed.

Lemma rstrip_cons c s :
  isspace c = false -> exists t, rstrip (String c s) = String c t.
Proof.
  intros Hc. cbn [rstrip]. destruct (rstrip s); [rewrite Hc|]; eauto.
Qed.

Lemma lstrip_head s :
  lstrip s = EmptyString \/
  exists c t, lstrip s = String c t /\ isspace c = false.
Proof.
  induction s as [|c s IH]; [by left|].
  cbn [lstrip]. destruct (isspace c) eqn:Hc; [done|]. right. eauto.
Qed.

(** A stripped text is empty or starts with a character that is no
    space. *)
Lemma strip_head s :
  strip s = EmptyString \/
  exists c t, strip s = String c t /\ isspace c = false.
Proof.
  unfold strip. destruct (lstrip_head s) as [->|(c & t & -> & Hc)]; [by left|].
  destruct (rstrip_cons c t Hc) as [t' ->]. right. eauto.
Qed.

Lemma lstrip_strip s : lstrip (strip s) = strip s.
Proof.
  destruct (strip_head s) as [->|(c & t & -> & Hc)]; [done|].
  cbn. by rewrite Hc.
Qed.

(** Stripping twice is stripping once. *)
Lemma strip_idem s : strip (strip s) = strip s.
Proof. unfold strip at 1. rewrite lstrip_strip. apply rstrip_idem. Qed.

Lemma rstrip_all_space s : all_space s -> rstrip s = EmptyString.
Proof.
  induction s as [|c s IH]; [done|].
  intros [Hc Hs]%all_space_cons. cbn. by rewrite (IH Hs), Hc.
Qed.

Lemma rstrip_app_space (s ws : string) :
  all_space ws -> rstrip (s +:+ ws) = rstrip s.
Proof.
  intros Hws. induction s as [|c s IH].
  - rewrite append_empty. by apply rstrip_all_space.
  - rewrite append_cons. cbn [rstrip]. by rewrite IH.
Qed.

Lemma lstrip_app_space (ws s : string) :
  all_space ws -> lstrip (ws +:+ s) = lstrip s.
Proof.
  induction ws as [|c ws IH]; [done|].
  intros [Hc Hws]%all_space_cons. rewrite append_cons. cbn [lstrip].
  rewrite Hc. auto.
Qed.

(** Spaces after a stripped text go with the strip. *)
Lemma strip_app_space (s ws : string) :
  strip s = s -> all_space ws -> strip (s +:+ ws) = s.
Proof.
  intros Hs Hws. destruct (strip_head s) as [He|(c & t & He & Hc)];
    rewrite Hs in He; subst s.
  - rewrite append_empty. by apply strip_all_space.
  - unfold strip. rewrite append_cons. cbn [lstrip]. rewrite Hc.
    rewrite <- append_cons, (rstrip_app_space _ _ Hws).
    unfold strip in Hs. cbn [lstrip] in Hs. by rewrite Hc in Hs.
Qed.

(** A stripped text keeps through padding with spaces. *)
Lemma strip_padded (a s b : string) :
  all_space a -> all_space b -> strip s = s -> strip (a +:+ s +:+ b) = s.
Proof.
  intros Ha Hb Hs. unfold strip at 1. rewrite (lstrip_app_space _ _ Ha).
  by apply strip_app_space.
Qed.

End StripFacts.

(** *** The separator [data:]

    No end of [data:] is a start of it, so a [data:] in a text is found
    where it stands, whatever is before it. *)

Section SplitDataFacts.
Import Py.

Local Ltac next_char x c :=
  destruct x as [|c x];
  [intros _; rewrite append_empty, append_cons; cbn [String.prefix];
   by destruct (ascii_dec _ _)
  |rewrite append_cons; cbn [String.prefix]].

Lemma prefix_data_append (x b : string) :
  x <> EmptyString ->
  String.prefix "data:" x = false ->
  String.prefix "data:" (x +:+ "data:" +:+ b) = false.
Proof.
  intros Hx.
  destruct x as [|c1 x]; [done|]. rewrite append_cons. cbn [String.prefix].
  destruct (ascii_dec "d" c1) as [<-|]; [|done].
  next_char x c2. destruct (ascii_dec "a" c2) as [<-|]; [|done].
  next_char x c3. destruct (ascii_dec "t" c3) as [<-|]; [|done].
  next_char x c4. destruct (ascii_dec "a" c4) as [<-|]; [|done].
  next_char x c5. destruct (ascii_dec ":" c5) as [<-|]; [|done].
  by destruct x.
Qed.

Lemma split_go_data_first (pre b : string) :
  contains "data:" pre = false ->
  split_go "data:" (pre +:+ "data:" +:+ b) 0 =
  (pre, let '(p, ps) := split_go "data:" b 0 in p :: ps).
Proof.
  induction pre as [|c pre IH]; intros Hc.
  - rewrite append_empty. apply split_go_at_sep.
  - cbn [contains] in Hc. apply orb_false_iff in Hc as [Hp Hc].
    pose proof (prefix_data_append (String c pre) b ltac:(done) Hp) as Hp'.
    change (String c pre +:+ "data:" +:+ b)
      with (String c (pre +:+ "data:" +:+ b)) in *.
    cbn [split_go]. rewrite Hp', (IH Hc). done.
Qed.

(** The item [1] of the split is the text between the first [data:] and
    the second, or the end. *)
Lemma split_data_item1 (pre mid rest : string) :
  contains "data:" pre = false ->
  contains "data:" mid = false ->
  (parts ← split (pre +:+ "data:" +:+ mid) "data:"; getitem parts 1) = Ret mid
  /\
  (parts ← split (pre +:+ "data:" +:+ mid +:+ "data:" +:+ rest) "data:";
   getitem parts 1) = Ret mid.
Proof.
  intros Hpre Hmid. unfold split. split.
  - rewrite (split_go_data_first _ _ Hpre), (split_go_absent _ _ Hmid). done.
  - rewrite (split_go_data_first _ _ Hpre), (split_go_data_first _ _ Hmid).
    by destruct (split_go "data:" rest 0).
Qed.

Lemma prefix_data_app_space (x ws : string) :
  all_space ws ->
  String.prefix "data:" x = false ->
  String.prefix "data:" (x +:+ ws) = false.
Proof.
  intros Hws.
  assert (forall p a, isspace a = false ->
            String.prefix (String a p) ws = false) as Hshort.
  { intros p a Ha. destruct ws as [|w ws']; [done|].
    apply all_space_cons in Hws as [Hw _]. cbn [String.prefix].
    destruct (ascii_dec a w) as [<-|]; [congruence|done]. }
  destruct x as [|c1 x]; [intros _; by apply Hshort|].
  rewrite append_cons. cbn [String.prefix].
  destruct (ascii_dec "d" c1) as [<-|]; [|done].
  destruct x as [|c2 x]; [intros _; by apply Hshort|].
  rewrite append_cons. cbn [String.prefix].
  destruct (ascii_dec "a" c2) as [<-|]; [|done].
  destruct x as [|c3 x]; [intros _; by apply Hshort|].
  rewrite append_cons. cbn [String.prefix].
  destruct (ascii_dec "t" c3) as [<-|]; [|done].
  destruct x as [|c4 x]; [intros _; by apply Hshort|].
  rewrite append_cons. cbn [String.prefix].
  destruct (ascii_dec "a" c4) as [<-|]; [|done].
  destruct x as [|c5 x]; [intros _; by apply Hshort|].
  rewrite append_cons. cbn [String.prefix].
  destruct (ascii_dec ":" c5) as [<-|]; [|done].
  by destruct x.
Qed.

Lemma contains_data_app_space (s ws : string) :
  all_space ws ->
  contains "data:" s = false -> contains "data:" (s +:+ ws) = false.
Proof.
  intros Hws. induction s as [|c s IH]; intros Hc.
  - rewrite append_empty. by apply contains_data_all_space.
  - cbn [contains] in Hc. apply orb_false_iff in Hc as [Hp Hc].
    pose proof (prefix_data_app_space (String c s) ws Hws Hp) as Hp'.
    change (String c s +:+ ws) with (String c (s +:+ ws)) in *.
    cbn [contains]. by rewrite Hp', (IH Hc).
Qed.

End SplitDataFacts.

(** *** The separator [;] *)

Section SplitSemicolonFacts.
Import Py.

Lemma prefix_semicolon (c : ascii) (s : string) :
  String.prefix ";" (String c s) = true <-> c = ";"%char.
Proof.
  cbn [String.prefix]. destruct (ascii_dec ";" c) as [<-|Hne].
  - by destruct s.
  - split; [done|]. by intros ->.
Qed.

Lemma contains_semicolon_cons (c : ascii) (s : string) :
  contains ";" (String c s) = false <->
  c <> ";"%char /\ contains ";" s = false.
Proof.
  cbn [contains]. rewrite orb_false_iff.
  pose proof (prefix_semicolon c s) as Hp.
  destruct (String.prefix ";" (String c s)).
  - split; [by intros [? _]|]. intros [Hc _]. destruct Hc. by apply Hp.
  - split; intros [_ Hs]; (split; [|done]); [|done].
    intros Hc. apply Hp in Hc. done.
Qed.

Lemma contains_semicolon_app (s t : string) :
  contains ";" (s +:+ t) = false <->
  contains ";" s = false /\ contains ";" t = false.
Proof.
  induction s as [|c s IH].
  - rewrite append_empty. cbn. tauto.
  - rewrite append_cons, !contains_semicolon_cons, IH. tauto.
Qed.

Lemma contains_semicolon_all_space (s : string) :
  all_space s -> contains ";" s = false.
Proof.
  induction s as [|c s IH]; [done|].
  intros [Hc Hs]%all_space_cons. apply contains_semicolon_cons.
  split; [by intros ->|auto].
Qed.

Lemma contains_semicolon_lstrip (s : string) :
  contains ";" s = false -> contains ";" (lstrip s) = false.
Proof.
  induction s as [|c s IH]; [done|]. intros Hs. cbn [lstrip].
  destruct (isspace c); [|done]. apply IH.
  by apply contains_semicolon_cons in Hs as [_ ?].
Qed.

Lemma contains_semicolon_rstrip (s : string) :
  contains ";" s = false -> contains ";" (rstrip s) = false.
Proof.
  induction s as [|c s IH]; [done|].
  intros [Hc Hs]%contains_semicolon_cons. specialize (IH Hs).
  cbn [rstrip]. destruct (rstrip s) as [|a t].
  - destruct (isspace c); [done|]. by apply contains_semicolon_cons.
  - by apply contains_semicolon_cons.
Qed.

Lemma contains_semicolon_strip (s : string) :
  contains ";" s = false -> contains ";" (strip s) = false.
Proof.
  intros Hs. by apply contains_semicolon_rstrip, contains_semicolon_lstrip.
Qed.

(** No piece of a split on [;] holds a [;]. *)
Lemma split_go_semicolon_pieces (s : string) :
  Forall (fun piece => contains ";" piece = false)
         ((split_go ";" s 0).1 :: (split_go ";" s 0).2).
Proof.
  induction s as [|c s IH]; [by repeat constructor|].
  cbn [split_go]. pose proof (prefix_semicolon c s) as Hp.
  destruct (String.prefix ";" (String c s)).
  - cbn [String.length Nat.sub fst snd].
    destruct (split_go ";" s 0) as [p ps]. by constructor.
  - destruct (split_go ";" s 0) as [p ps]. cbn [fst snd] in *.
    apply Forall_cons in IH as [Hp' Hps]. constructor; [|done].
    apply contains_semicolon_cons. split; [|done].
    intros Hc. apply Hp in Hc. done.
Qed.

Lemma split_go_semicolon_first (pre s : string) :
  contains ";" pre = false ->
  split_go ";" (pre +:+ ";" +:+ s) 0 =
  (pre, (split_go ";" s 0).1 :: (split_go ";" s 0).2).
Proof.
  induction pre as [|c pre IH]; intros Hpre.
  - rewrite append_empty, split_go_at_sep. by destruct (split_go ";" s 0).
  - apply contains_semicolon_cons in Hpre as [Hc Hpre].
    rewrite append_cons. cbn [split_go].
    pose proof (prefix_semicolon c (pre +:+ ";" +:+ s)) as Hp.
    destruct (String.prefix ";" (String c (pre +:+ ";" +:+ s))).
    + destruct Hc. by apply Hp.
    + by rewrite (IH Hpre).
Qed.

End SplitSemicolonFacts.

(** ** The formatters on any chunk *)

Section FormatFacts.
Import Py Json Adapter.
Context `{JsonLib} `{ChunkLib}.

(** X1. The one way [format] fails. For every provider type and every
    chunk, [format] raises [e] exactly when [e] is [IndexError], the
    provider is not Ollama and the chunk holds no [data:]; in every other
    case it returns a string. It never raises the [MuxingAdapterError] of
    an unsupported provider, and the Ollama formatter never raises. *)
Theorem format_raises_index_error_only (uuid chunk : string)
    (dest_prov : ProviderType) (e : exn) :
  format uuid chunk dest_prov = Raise e <->
  e = IndexError /\ dest_prov <> ollama /\ contains "data:" chunk = false.
Proof.
  split.
  - intros Hf.
    assert (raises (format uuid chunk dest_prov)) as Hr by (by rewrite Hf).
    apply format_raises_iff in Hr as [Hp Hc]. split_and!; [|done..].
    rewrite format_eq in Hf.
    destruct dest_prov; try done;
      rewrite ?_format_openai_absent, ?_format_antropic_absent in Hf by done;
      congruence.
  - intros (-> & Hp & Hc). rewrite format_eq.
    destruct dest_prov; try done;
      by rewrite ?_format_openai_absent, ?_format_antropic_absent.
Qed.

Lemma format_raise (uuid chunk : string) (dest_prov : ProviderType) :
  dest_prov <> ollama -> contains "data:" chunk = false ->
  format uuid chunk dest_prov = Raise IndexError.
Proof.
  intros Hp Hc. rewrite format_eq.
  destruct dest_prov; try done;
    by rewrite ?_format_openai_absent, ?_format_antropic_absent.
Qed.

Lemma format_raise_inv (uuid chunk : string) (dest_prov : ProviderType)
    (e : exn) :
  format uuid chunk dest_prov = Raise e ->
  dest_prov <> ollama /\ contains "data:" chunk = false.
Proof.
  intros Hf. apply (proj1 (format_raises_iff uuid chunk dest_prov)).
  by rewrite Hf.
Qed.

(** Two chunks with the same item [1] are formatted alike. *)
Lemma format_piece (uuid chunk1 chunk2 piece : string)
    (dest_prov : ProviderType) :
  dest_prov <> ollama ->
  (parts ← split chunk1 "data:"; getitem parts 1) = Ret piece ->
  (parts ← split chunk2 "data:"; getitem parts 1) = Ret piece ->
  format uuid chunk1 dest_prov = format uuid chunk2 dest_prov.
Proof.
  intros Hp H1 H2. rewrite !format_eq.
  destruct dest_prov; try done;
    by rewrite ?(_format_openai_piece _ _ H1), ?(_format_openai_piece _ _ H2),
      ?(_format_antropic_piece _ _ _ H1), ?(_format_antropic_piece _ _ _ H2).
Qed.

(** X2. A formatter that strips the prefix reads one field of the chunk:
    the text between the first [data:] and the second, or the end. What
    stands before the first [data:] (an [event:] or [id:] line) and
    everything from the second [data:] on (a second event in the same
    chunk) does not reach the result. *)
Theorem format_reads_first_data_field (uuid pre mid rest : string)
    (dest_prov : ProviderType) :
  dest_prov <> ollama ->
  contains "data:" pre = false ->
  contains "data:" mid = false ->
  format uuid (pre +:+ "data:" +:+ mid) dest_prov =
    format uuid ("data:" +:+ mid) dest_prov /\
  format uuid (pre +:+ "data:" +:+ mid +:+ "data:" +:+ rest) dest_prov =
    format uuid ("data:" +:+ mid) dest_prov.
Proof.
  intros Hp Hpre Hmid.
  destruct (split_data_item1 pre mid rest Hpre Hmid) as [H1 H2].
  destruct (split_data_item1 EmptyString mid rest eq_refl Hmid) as [Hmid0 _].
  split; by apply format_piece with mid.
Qed.

(** X3. Where the Anthropic formatter passes the text through. When the
    text after [data:], stripped, is no JSON, or is JSON but no object, or
    is an object whose content ([delta], or [content_block] when [delta]
    is absent or falsy) is truthy and no object, the [try] block raises
    and the result is the stripped text, as the OpenAI formatter gives it
    for a text that is no JSON. *)
Theorem anthropic_passthrough (uuid chunk piece : string) :
  (parts ← split chunk "data:"; getitem parts 1) = Ret piece ->
  json_loads (strip piece) = None \/
  (exists v, json_loads (strip piece) = Some v /\ forall d, v <> JObj d) \/
  (exists d x,
     json_loads (strip piece) = Some (JObj d) /\
     or_ (get_item d "delta" (JObj []))
         (get_item d "content_block" (JObj [])) = x /\
     truthy x = true /\ forall items, x <> JObj items) ->
  _format_antropic uuid chunk = Ret (strip piece) /\
  (json_loads (strip piece) = None ->
   _format_openai chunk = Ret (strip piece)).
Proof.
  intros Hpiece Hcase.
  rewrite (_format_antropic_piece _ _ _ Hpiece), strip_idem. split.
  - destruct Hcase as [->|[(v & -> & Hv)|(d & x & -> & Hx & Ht & Hno)]].
    + done.
    + destruct v; try done. by destruct (Hv d).
    + cbn. rewrite Hx, Ht. cbn. destruct x; try done. by destruct (Hno d0).
  - intros Hloads. by rewrite (_format_openai_piece _ _ Hpiece), Hloads.
Qed.

(** X4. Where the text of an Anthropic chunk comes from. For an event
    that parses to an object: a [delta] that is a non-empty object gives
    the text, whatever [content_block] holds; [content_block] is read only
    when [delta] is absent or falsy. The text is the [text] item of that
    object, or the empty string, and the finish reason is [stop] for type
    [message_stop] and absent for every other type. *)
Theorem anthropic_text_source (uuid chunk piece : string)
    (d items : list (string * JValue)) :
  (parts ← split chunk "data:"; getitem parts 1) = Ret piece ->
  json_loads (strip piece) = Some (JObj d) ->
  items <> [] ->
  assoc "delta" d = Some (JObj items) \/
  (assoc "content_block" d = Some (JObj items) /\
   (assoc "delta" d = None \/
    exists x, assoc "delta" d = Some x /\ truthy x = false)) ->
  _format_antropic uuid chunk =
  Ret (try_except
         (model_dump_json
            (Samples.anthropic_chunk uuid
               (if eq_str (get_item d "type" (JStr EmptyString)) "message_stop"
                then Some "stop" else None)
               (get_item items "text" (JStr EmptyString))))
         (strip piece)).
Proof.
  intros Hpiece Hloads Hne Hcase.
  rewrite (_format_antropic_piece _ _ _ Hpiece), strip_idem, Hloads. cbn.
  assert (or_ (get_item d "delta" (JObj []))
              (get_item d "content_block" (JObj [])) = JObj items) as ->.
  { unfold or_, get_item.
    destruct Hcase as [->|[-> [->|(x & -> & Hx)]]].
    - by destruct items.
    - done.
    - by rewrite Hx. }
  destruct items as [|item items]; [done|]. done.
Qed.

(** X5. A frame can be read back. For a stripped text [t] without
    [data:], the OpenAI formatter on the frame [data:t] followed by two
    newlines does what it does on [data:t]; when [t] is no JSON, it gives
    [t] back, so what was passed through once passes through a second
    adapter unchanged. *)
Theorem openai_frame_round_trip (t : string) :
  strip t = t ->
  contains "data:" t = false ->
  _format_openai (_format_as_openai_chunk t) = _format_openai ("data:" +:+ t)
  /\
  (json_loads t = None -> _format_openai (_format_as_openai_chunk t) = Ret t).
Proof.
  intros Hs Hc.
  set (nl := String "010" (String "010" EmptyString)).
  assert (all_space nl) as Hnl.
  { intros c Hin. cbn in Hin. by destruct Hin as [<-|[<-|[]]]. }
  assert ((parts ← split (_format_as_openai_chunk t) "data:";
           getitem parts 1) = Ret (t +:+ nl)) as H1.
  { unfold _format_as_openai_chunk, split. fold nl.
    rewrite split_go_at_sep, (split_go_absent "data:" (t +:+ nl)); [done|].
    by apply contains_data_app_space. }
  assert ((parts ← split ("data:" +:+ t) "data:"; getitem parts 1) = Ret t)
    as H2.
  { unfold split. by rewrite split_go_at_sep, (split_go_absent _ _ Hc). }
  rewrite (_format_openai_piece _ _ H1), (_format_openai_piece _ _ H2).
  rewrite (strip_app_space _ _ Hs Hnl), Hs. split; [done|].
  by intros ->.
Qed.

End FormatFacts.

(** ** The stream adapter on any stream *)

Section StreamFacts.
Import Py Json Adapter.
Context `{JsonLib} `{ChunkLib}.

Lemma stream_app (uuids : nat -> string) (i : nat) (cs1 cs2 : list string)
    (dest_prov : ProviderType) :
  _format_streaming_response uuids i (cs1 ++ cs2) dest_prov =
  let '(frames1, e1) := _format_streaming_response uuids i cs1 dest_prov in
  match e1 with
  | Some e => (frames1, Some e)
  | None =>
      let '(frames2, e2) :=
        _format_streaming_response uuids (i + length cs1) cs2 dest_prov in
      (frames1 ++ frames2, e2)
  end.
Proof.
  revert i. induction cs1 as [|c cs1 IH]; intros i.
  - cbn. rewrite Nat.add_0_r.
    by destruct (_format_streaming_response uuids i cs2 dest_prov).
  - cbn [app _format_streaming_response length].
    destruct (format (uuids i) c dest_prov) as [s|e]; [|done].
    rewrite IH.
    replace (i + S (length cs1))%nat with (S i + length cs1)%nat by lia.
    destruct (_format_streaming_response uuids (S i) cs1 dest_prov)
      as [f1 [e1|]];
      destruct (negb (str_truthy s)); try done;
      by destruct (_format_streaming_response uuids (S i + length cs1) cs2
                     dest_prov).
Qed.

Lemma stream_no_raise (uuids : nat -> string) (i : nat) (cs : list string)
    (dest_prov : ProviderType) :
  dest_prov = ollama \/ Forall (fun c => contains "data:" c = true) cs ->
  (_format_streaming_response uuids i cs dest_prov).2 = None.
Proof.
  intros Hok. revert i. induction cs as [|c cs IH]; intros i; [done|].
  cbn [_format_streaming_response].
  destruct (format (uuids i) c dest_prov) as [s|e] eqn:Hf.
  - assert (dest_prov = ollama \/
            Forall (fun c => contains "data:" c = true) cs) as Hok'.
    { destruct Hok as [?|Hall]; [by left|right]. by inversion Hall. }
    specialize (IH Hok' (S i)).
    destruct (negb (str_truthy s)); [done|].
    by destruct (_format_streaming_response uuids (S i) cs dest_prov).
  - apply format_raise_inv in Hf as [Hp Hc].
    destruct Hok as [?|Hall]; [done|]. inversion Hall; congruence.
Qed.

(** X6. The stream adapter over two parts of a stream. When the run over
    the first part ends with an exception, the run over the whole is that
    run: nothing of the second part is read. Otherwise the frames of the
    whole are the frames of the first part followed by the frames of the
    second part, formatted with the uuids that follow, and the run ends as
    the run over the second part ends. *)
Theorem stream_of_two_parts (uuids : nat -> string) (i : nat)
    (cs1 cs2 : list string) (dest_prov : ProviderType) :
  let run1 := _format_streaming_response uuids i cs1 dest_prov in
  let run2 :=
    _format_streaming_response uuids (i + length cs1) cs2 dest_prov in
  (run1.2 <> None ->
   _format_streaming_response uuids i (cs1 ++ cs2) dest_prov = run1) /\
  (run1.2 = None ->
   _format_streaming_response uuids i (cs1 ++ cs2) dest_prov =
   (run1.1 ++ run2.1, run2.2)).
Proof.
  cbv zeta. rewrite stream_app.
  destruct (_format_streaming_response uuids i cs1 dest_prov) as [f1 [e1|]];
    cbn [fst snd]; [by split|].
  split; [intros Hn; by destruct Hn|]. intros _.
  by destruct (_format_streaming_response uuids (i + length cs1) cs2
                 dest_prov).
Qed.

(** X7. The stream ends at the first chunk without [data:]. For a
    provider other than Ollama, when the chunks before [bad] all hold
    [data:] and [bad] does not, the frames yielded are those of the chunks
    before [bad], the generator ends with [IndexError], and none of the
    chunks after [bad] is formatted, whatever they are. *)
Theorem stream_stops_at_first_bad_chunk (uuids : nat -> string) (i : nat)
    (ok : list string) (bad : string) (rest : list string)
    (dest_prov : ProviderType) :
  dest_prov <> ollama ->
  Forall (fun c => contains "data:" c = true) ok ->
  contains "data:" bad = false ->
  (_format_streaming_response uuids i ok dest_prov).2 = None /\
  _format_streaming_response uuids i (ok ++ bad :: rest) dest_prov =
  ((_format_streaming_response uuids i ok dest_prov).1, Some IndexError).
Proof.
  intros Hp Hok Hbad.
  pose proof (stream_no_raise uuids i ok dest_prov (or_intror Hok)) as Hnone.
  split; [done|]. rewrite stream_app.
  destruct (_format_streaming_response uuids i ok dest_prov) as [f1 e1].
  cbn in Hnone. subst e1. cbn [_format_streaming_response].
  rewrite (format_raise _ _ _ Hp Hbad). by rewrite app_nil_r.
Qed.

(** X8. When the stream runs to its end. The generator ends without an
    exception exactly when the provider is Ollama or every chunk holds
    [data:]. *)
Theorem stream_ends_normally_iff (uuids : nat -> string) (i : nat)
    (cs : list string) (dest_prov : ProviderType) :
  (_format_streaming_response uuids i cs dest_prov).2 = None <->
  dest_prov = ollama \/ Forall (fun c => contains "data:" c = true) cs.
Proof.
  split; [|apply stream_no_raise].
  revert i. induction cs as [|c cs IH]; intros i; [by right|].
  cbn [_format_streaming_response].
  destruct (format (uuids i) c dest_prov) as [s|e] eqn:Hf; [|done].
  intros Hn.
  assert ((_format_streaming_response uuids (S i) cs dest_prov).2 = None)
    as Hn'.
  { destruct (negb (str_truthy s)); [done|].
    by destruct (_format_streaming_response uuids (S i) cs dest_prov). }
  destruct (IH _ Hn') as [?|Hall]; [by left|].
  destruct (decide (dest_prov = ollama)) as [?|Hp]; [by left|right].
  constructor; [|done].
  destruct (contains "data:" c) eqn:Hc; [done|].
  rewrite (format_raise _ _ _ Hp Hc) in Hf. done.
Qed.

(** X9. What a frame is. The stream adapter yields at most one frame for
    a chunk, and every frame it yields is [data:], then the non-empty
    string [format] returned for one of the chunks, with the uuid of that
    chunk's place, then two newlines. *)
Theorem stream_frames_shape (uuids : nat -> string) (i : nat)
    (cs : list string) (dest_prov : ProviderType) :
  let frames := (_format_streaming_response uuids i cs dest_prov).1 in
  (length frames <= length cs)%nat /\
  Forall (fun frame =>
            exists (k : nat) (chunk : string) (c : ascii) (s : string),
              cs !! k = Some chunk /\
              format (uuids (i + k)%nat) chunk dest_prov = Ret (String c s) /\
              frame = "data:" +:+ String c s
                      +:+ String "010" (String "010" EmptyString)) frames.
Proof.
  revert i. induction cs as [|chunk cs IH]; intros i; [by split; cbn|].
  cbn [_format_streaming_response].
  destruct (format (uuids i) chunk dest_prov) as [s|e] eqn:Hf;
    [|split; cbn; [lia|done]].
  specialize (IH (S i)). cbn zeta in IH. destruct IH as [Hlen Hall].
  assert (Forall (fun frame =>
            exists (k : nat) (chunk' : string) (c : ascii) (s : string),
              (chunk :: cs) !! k = Some chunk' /\
              format (uuids (i + k)%nat) chunk' dest_prov = Ret (String c s) /\
              frame = "data:" +:+ String c s
                      +:+ String "010" (String "010" EmptyString))
            (_format_streaming_response uuids (S i) cs dest_prov).1) as Hall'.
  { eapply Forall_impl; [exact Hall|].
    intros frame (k & chunk' & c & s' & Hk & Hfk & ->).
    exists (S k), chunk', c, s'. split; [done|]. split; [|done].
    by replace (i + S k)%nat with (S i + k)%nat by lia. }
  destruct s as [|a s]; cbn [negb str_truthy length].
  - split; [lia|done].
  - destruct (_format_streaming_response uuids (S i) cs dest_prov) as [fs e].
    cbn [fst snd length] in *. split; [lia|]. constructor; [|done].
    exists 0%nat, chunk, a, s. rewrite Nat.add_0_r. by split_and!.
Qed.

End StreamFacts.

Section FormatRuns.
Import Py Json JsonRef Adapter Samples.
#[local] Existing Instances Ref.json Ref.litellm.

Lemma format_reads_first_data_field_witness :
  format "u" "id: 1 data: [DONE] data: {}" openrouter = Ret "[DONE]".
Proof.
  etransitivity;
    [exact (proj2 (format_reads_first_data_field "u" "id: 1 " " [DONE] "
                     " {}" openrouter ltac:(discriminate) eq_refl eq_refl))
    |reflexivity].
Defined.

Lemma anthropic_passthrough_witness :
  _format_antropic "u" "data: [1] " = Ret "[1]".
Proof.
  refine (proj1 (anthropic_passthrough "u" "data: [1] " " [1] " eq_refl _)).
  right. left. exists (JArr [JInt 1]). split; [reflexivity|discriminate].
Defined.

Lemma anthropic_text_source_witness :
  exists text : string,
    model_dump_json (anthropic_chunk "u" None (JStr "hi")) = Some text /\
    _format_antropic "u" content_block_delta = Ret text.
Proof.
  eexists. split; [reflexivity|].
  etransitivity;
    [exact (anthropic_text_source "u" content_block_delta
              (" {" +:+ q "type" +:+ ": " +:+ q "content_block_delta" +:+ ", "
               +:+ q "delta" +:+ ": {" +:+ q "text" +:+ ": " +:+ q "hi"
               +:+ "}}")
              [("type", JStr "content_block_delta");
               ("delta", JObj [("text", JStr "hi")])]
              [("text", JStr "hi")]
              ltac:(vm_compute; reflexivity) ltac:(vm_compute; reflexivity)
              ltac:(discriminate) (or_introl eq_refl))
    |vm_compute; reflexivity].
Defined.

Lemma openai_frame_round_trip_witness :
  _format_openai (_format_as_openai_chunk "[DONE]") = Ret "[DONE]".
Proof.
  exact (proj2 (openai_frame_round_trip "[DONE]" eq_refl eq_refl) eq_refl).
Defined.

Lemma stream_stops_at_first_bad_chunk_witness :
  _format_streaming_response (fun _ => "u") 0
    ["data: [DONE]"; ": ping"; "data: lost"] openai =
  (["data:[DONE]" +:+ String "010" (String "010" EmptyString)],
   Some IndexError).
Proof.
  etransitivity;
    [exact (proj2 (stream_stops_at_first_bad_chunk (fun _ => "u") 0%nat
                     ["data: [DONE]"] ": ping" ["data: lost"] openai
                     ltac:(discriminate)
                     ltac:(repeat constructor) eq_refl))
    |reflexivity].
Defined.

End FormatRuns.

(** ** The recorder on any context *)

Section RecorderFacts.
Import Json Connection.
Context `{Engine} `{FimCache}.

Lemma stored_app (w w' : World) (new : list Effect) :
  effects w' = effects w ++ new ->
  stored w' =
  stored w ++
  omap (fun e => match e with Execute _ r => r | Put _ => None end) new /\
  alert_queue w' =
  alert_queue w ++
  omap (fun e => match e with Put m => Some m | Execute _ _ => None end) new.
Proof. intros He. unfold stored, alert_queue. by rewrite He, !omap_app. Qed.

(** The contexts [record_context] goes on with: not yet recorded, with a
    request, and, for a FIM request, accepted by the cache. *)
Lemma should_record_true (c : PipelineContext) (w : World) :
  (_should_record_context (Some c) w).1 = true <->
  stored_in_db c = false /\
  exists request, input_request c = Some request /\
    (p_type request <> "fim" \/
     (could_store_fim_request (fim_cache w) c).1 = true).
Proof.
  unfold _should_record_context.
  destruct (stored_in_db c); [cbn; split; [done|by intros [? _]]|].
  destruct (input_request c) as [request|];
    [|cbn; split; [done|by intros [_ (? & ? & _)]]].
  destruct (String.eqb_spec (p_type request) "fim") as [Heq|Hne]; cbn.
  - destruct (could_store_fim_request (fim_cache w) c) as [b cache]. cbn.
    split.
    + intros ->. split; [done|]. exists request. split; [done|by right].
    + intros [_ (r & [= <-] & [Hr|Hr])]; done.
  - split; [|done]. intros _. split; [done|].
    exists request. split; [done|by left].
Qed.

Lemma stored_should_record (context : option PipelineContext) (w : World) :
  stored (_should_record_context context w).2 = stored w.
Proof.
  unfold stored. by rewrite (proj1 (should_record_frame context w)).
Qed.

Lemma effects_set_metadata (l : nat) (k : string) (v : JValue) (w : World) :
  effects (set_metadata l k v w) = effects w.
Proof. reflexivity. Qed.

(** What the three record steps add to the effects. *)
Lemma record_steps_effects (sched : list nat) (c : PipelineContext)
    (request : Prompt) (w : World) :
  input_request c = Some request ->
  let returned := execute (stored w) (RPrompt request) in
  let outs :=
    match output_responses c with
    | [] => []
    | first :: _ =>
        let row :=
          ROutput {| o_id := o_id first;
                     o_prompt_id := o_prompt_id first;
                     o_timestamp := o_timestamp first;
                     o_output :=
                       json_dumps (map o_output (output_responses c)) |} in
        [Execute row (execute (stored w ++ option_list returned) row)]
    end in
  exists (recorded : list (option Alert)) (execs : list Effect)
         (items : list string),
    effects (record_steps sched c w) =
      effects w ++ Execute (RPrompt request) returned :: outs ++ execs
                ++ map Put items /\
    length recorded = length (alerts_raised c) /\
    length execs = length (alerts_raised c) /\
    Forall (fun e => is_Some (exec_pair e)) execs /\
    omap exec_pair execs ≡ₚ zip (map RAlert (alerts_raised c)) recorded /\
    length items = length (filter (fun r => is_critical r) recorded).
Proof.
  intros Hreq returned outs. unfold record_steps. rewrite Hreq.
  cbn [record_request]. rewrite insert_spec. cbn [snd model_dump Prompt_model].
  fold returned.
  set (w1 := emit (Execute (RPrompt request) returned) w).
  assert (stored w1 = stored w ++ option_list returned) as Hs1.
  { rewrite (proj1 (stored_app w w1 [Execute (RPrompt request) returned]
                      eq_refl)).
    by destruct returned. }
  assert (effects (record_outputs (output_responses c) w1).2 =
          effects w ++ Execute (RPrompt request) returned :: outs) as He2.
  { subst outs. destruct (output_responses c) as [|first rest]; [done|].
    cbn [record_outputs]. rewrite insert_spec. cbn [snd emit effects].
    rewrite Hs1. cbn [model_dump Output_model]. subst w1. cbn [emit effects].
    rewrite <- app_assoc. cbn [app]. reflexivity. }
  set (w2 := (record_outputs (output_responses c) w1).2) in *.
  destruct (alerts_raised c) as [|first rest] eqn:Ha.
  - exists [], [], []. cbn [record_alerts snd map app].
    rewrite He2, !app_nil_r. split_and!; try reflexivity. constructor.
  - destruct (record_alerts_spec sched first rest w2)
      as (recorded & execs & _ & Hlen & Hlen' & Hall & Hperm & He & _).
    cbn zeta in He.
    exists recorded, execs,
      (map (fun _ => "New alert detected: " +:+
                     a_timestamp (List.last (first :: rest) first))
           (filter (fun r => is_critical r) recorded)).
    split_and!; [|exact Hlen|exact Hlen'|exact Hall|exact Hperm
                 |rewrite !length_map; reflexivity].
    rewrite He, He2, <- app_assoc. reflexivity.
Qed.

(** X10. The statements of one [record_context], in their order. For a
    context that is to be recorded, the effects added are: the insert of
    the prompt, run on the rows stored before; then, when there are output
    fragments, one insert of the output row, run on what the first insert
    left; then one insert for each alert raised, in the order of the
    schedule; then the notifications, at most one for each alert. Nothing
    else is executed or put on the queue. *)
Theorem record_context_statement_order (sched : list nat) (l : nat)
    (c : PipelineContext) (w : World) :
  contexts w !! l = Some c ->
  (_should_record_context (Some c) w).1 = true ->
  exists (request : Prompt) (outs execs : list Effect) (items : list string),
    input_request c = Some request /\
    effects (record_context sched (Some l) w) =
      effects w ++
      Execute (RPrompt request) (execute (stored w) (RPrompt request))
        :: outs ++ execs ++ map Put items /\
    outs =
      match output_responses c with
      | [] => []
      | first :: _ =>
          let row :=
            ROutput {| o_id := o_id first;
                       o_prompt_id := o_prompt_id first;
                       o_timestamp := o_timestamp first;
                       o_output :=
                         json_dumps (map o_output (output_responses c)) |} in
          [Execute row
             (execute (stored w ++
                       option_list (execute (stored w) (RPrompt request)))
                      row)]
      end /\
    Forall (fun e => is_Some (exec_pair e)) execs /\
    (omap exec_pair execs).*1 ≡ₚ map RAlert (alerts_raised c) /\
    (length items <= length (alerts_raised c))%nat.
Proof.
  intros Hl Hshould.
  destruct (proj1 (should_record_true c w) Hshould)
    as (_ & request & Hreq & _).
  rewrite (record_context_at _ _ _ _ Hl), Hshould, effects_set_metadata.
  destruct (record_steps_effects sched c request
              (_should_record_context (Some c) w).2 Hreq)
    as (recorded & execs & items & He & Hlen & Hlen' & Hall & Hperm & Hitems).
  rewrite stored_should_record, (proj1 (should_record_frame _ _)) in He.
  eexists request, _, execs, items.
  split_and!; [exact Hreq|exact He|reflexivity|exact Hall| |].
  - rewrite Hperm, fst_zip; [done|]. rewrite length_map. lia.
  - rewrite Hitems. etransitivity; [apply length_filter|]. lia.
Qed.

(** What [record_context] adds to the effects; for a context that is to be
    recorded, the insert of the prompt is the first of it. *)
Lemma record_context_effects (sched : list nat) (context : option nat)
    (w : World) :
  exists new, effects (record_context sched context w) = effects w ++ new /\
    forall l c, context = Some l -> contexts w !! l = Some c ->
      (_should_record_context (Some c) w).1 = true -> new <> [].
Proof.
  destruct context as [l|]; [|exists []; by rewrite app_nil_r].
  destruct (contexts w !! l) as [c|] eqn:Hl.
  - rewrite (record_context_at _ _ _ _ Hl).
    destruct (_should_record_context (Some c) w).1 eqn:Hs.
    + destruct (proj1 (should_record_true c w) Hs)
        as (_ & request & Hreq & _).
      destruct (record_steps_effects sched c request
                  (_should_record_context (Some c) w).2 Hreq)
        as (recorded & execs & items & He & _).
      rewrite (proj1 (should_record_frame _ _)) in He.
      rewrite effects_set_metadata, He. eexists. split; [done|]. done.
    + exists []. rewrite app_nil_r. split; [apply should_record_frame|].
      intros l' c' [= <-] [= <-]. congruence.
  - unfold record_context. rewrite Hl. exists []. rewrite app_nil_r.
    split; [done|]. intros l' c' [= <-] Hl'. congruence.
Qed.

(** X11. When [record_context] writes. For a context object at [l], the
    call executes a statement exactly when the context is not marked as
    stored, has a request, and the request is no FIM request or the FIM
    cache accepts it. In every other case it leaves the effects as they
    were. *)
Theorem record_context_writes_iff (sched : list nat) (l : nat)
    (c : PipelineContext) (w : World) :
  contexts w !! l = Some c ->
  effects (record_context sched (Some l) w) <> effects w <->
  stored_in_db c = false /\
  exists request, input_request c = Some request /\
    (p_type request <> "fim" \/
     (could_store_fim_request (fim_cache w) c).1 = true).
Proof.
  intros Hl. rewrite <- should_record_true. split.
  - intros Hne. rewrite (record_context_at _ _ _ _ Hl) in Hne.
    destruct (_should_record_context (Some c) w).1 eqn:Hs; [done|].
    destruct Hne. apply should_record_frame.
  - intros Hs.
    destruct (record_context_effects sched (Some l) w) as (new & -> & Hnew).
    specialize (Hnew l c eq_refl Hl Hs).
    intros He. apply Hnew. apply (f_equal length) in He.
    rewrite length_app in He. destruct new; [done|]. cbn in He. lia.
Qed.

Lemma record_context_contexts (sched : list nat) (context : option nat)
    (w : World) :
  contexts (record_context sched context w) = contexts w \/
  exists l c,
    context = Some l /\ contexts w !! l = Some c /\
    contexts (record_context sched context w) =
    <[l := {| input_request := input_request c;
              output_responses := output_responses c;
              alerts_raised := alerts_raised c;
              metadata := <["stored_in_db" := JBool true]> (metadata c) |}]>
      (contexts w).
Proof.
  destruct context as [l|]; [|by left].
  destruct (contexts w !! l) as [c|] eqn:Hl.
  - rewrite (record_context_at _ _ _ _ Hl).
    destruct (_should_record_context (Some c) w).1 eqn:Hs.
    + right. exists l, c. split_and!; [done..|].
      cbn [set_metadata contexts].
      rewrite (proj2 (record_steps_frame _ _ _)),
        (proj2 (should_record_frame _ _)).
      apply map_eq. intros l'. destruct (decide (l' = l)) as [->|Hne].
      * by rewrite lookup_alter_eq, lookup_insert_eq, Hl.
      * by rewrite lookup_alter_ne, lookup_insert_ne.
    + left. apply should_record_frame.
  - left. unfold record_context. by rewrite Hl.
Qed.

(** X12. What [record_context] leaves alone. The effects only grow. No
    context object appears or goes; every context keeps its request, its
    output fragments, its alerts and every metadata item other than
    [stored_in_db]; and a context other than the one passed in is left as
    it is. *)
Theorem record_context_frame (sched : list nat) (context : option nat)
    (w : World) (l : nat) :
  let w1 := record_context sched context w in
  (exists new, effects w1 = effects w ++ new) /\
  (contexts w1 !! l = None <-> contexts w !! l = None) /\
  forall c, contexts w !! l = Some c ->
    exists c1, contexts w1 !! l = Some c1 /\
      input_request c1 = input_request c /\
      output_responses c1 = output_responses c /\
      alerts_raised c1 = alerts_raised c /\
      (forall k, k <> "stored_in_db" -> metadata c1 !! k = metadata c !! k) /\
      (context <> Some l -> c1 = c).
Proof.
  intros w1. split.
  { destruct (record_context_effects sched context w) as (new & He & _).
    eauto. }
  destruct (record_context_contexts sched context w)
    as [Hc|(l0 & c0 & -> & Hl0 & Hc)]; subst w1; rewrite Hc.
  - split; [done|]. intros c Hl. exists c. by split_and!.
  - destruct (decide (l = l0)) as [->|Hne].
    + rewrite lookup_insert_eq, Hl0. split; [done|].
      intros c [= <-]. eexists. split; [done|]. cbn. split_and!; try done.
      intros k Hk. by rewrite lookup_insert_ne.
    + rewrite lookup_insert_ne by done. split; [done|].
      intros c Hl. exists c. by split_and!.
Qed.

(** What the engine answered: each statement of the task group carries the
    engine's answer to it, and each finished task the model of that
    answer. *)
Lemma run_tasks_answers (order : list nat) :
  forall (tasks tasks' : list Task) (w w' : World),
    run_tasks order tasks w = (tasks', w') ->
    exists execs : list Effect,
      effects w' = effects w ++ execs /\
      Forall (fun e => exists rows a,
                e = Execute (RAlert a) (execute rows (RAlert a))) execs /\
      (Forall (fun t => forall r, outcome t = Some r ->
                 exists rows,
                   r = execute rows (RAlert (coro_model t)) ≫= model_class)
              tasks ->
       Forall (fun t => forall r, outcome t = Some r ->
                 exists rows,
                   r = execute rows (RAlert (coro_model t)) ≫= model_class)
              tasks').
Proof.
  induction order as [|i order IH]; intros tasks tasks' w w' Hrun.
  - injection Hrun as <- <-. exists []. rewrite app_nil_r. by split_and!.
  - cbn [run_tasks] in Hrun.
    destruct (tasks !! i) as [[model [r|]]|] eqn:Hi;
      [by apply IH| |by apply IH].
    rewrite insert_spec in Hrun.
    destruct (IH _ _ _ _ Hrun) as (execs & He & Hall & Hans).
    exists (Execute (RAlert model) (execute (stored w) (RAlert model)) :: execs).
    split_and!.
    + rewrite He. cbn. by rewrite <- app_assoc.
    + constructor; [eauto|done].
    + intros Htasks. apply Hans. apply Forall_insert; [done|].
      intros r [= <-]. cbn. eauto.
Qed.

Lemma record_alerts_answers (sched : list nat) (first : Alert)
    (rest : list Alert) (w : World) :
  let alerts := first :: rest in
  let item := "New alert detected: " +:+ a_timestamp (List.last alerts first) in
  exists (recorded : list (option Alert)) (execs : list Effect),
    (record_alerts sched alerts w).1 = Some recorded /\
    effects (record_alerts sched alerts w).2 =
      effects w ++ execs ++
      map Put (map (fun _ => item) (filter (fun r => is_critical r) recorded))
    /\
    Forall (fun e => exists rows a,
              e = Execute (RAlert a) (execute rows (RAlert a))) execs /\
    (omap exec_pair execs).*1 ≡ₚ map RAlert alerts /\
    omap exec_pair execs ≡ₚ zip (map RAlert alerts) recorded /\
    Forall2 (fun a r => exists rows,
               r = execute rows (RAlert a) ≫= model_class) alerts recorded.
Proof.
  intros alerts item.
  destruct (record_alerts_spec sched first rest w)
    as (recorded & execs & Hr & Hlen & Hlen' & Hall & Hperm & He & _).
  cbv zeta in *. fold alerts in Hr, Hlen, Hlen', Hperm, He. fold item in He.
  exists recorded, execs. split; [exact Hr|]. split; [exact He|].
  revert Hr He. subst alerts item. rewrite record_alerts_cons.
  cbv zeta. set (alerts := first :: rest) in *.
  destruct (task_group sched (map create_task alerts) w) as [tasks w1] eqn:Hg.
  pose proof (task_group_done _ _ _ _ _ Hg) as Hdone.
  unfold task_group in Hg.
  destruct (run_tasks_answers _ _ _ _ _ Hg) as (execs' & He' & Hall' & Hans).
  destruct (run_tasks_spec _ _ _ _ _ Hg) as (_ & _ & _ & _ & Hm & _).
  destruct (collect_results_spec (List.last alerts first) tasks [] w1)
    as (Hr' & Hc' & _).
  destruct (collect_results (List.last alerts first) tasks [] w1)
    as [recorded' w2] eqn:Hcol.
  cbn [fst snd] in *. intros [= <-] He. cbn in Hr'. subst recorded'.
  assert (execs' = execs) as ->.
  { rewrite Hc', He', map_map, <- app_assoc in He.
    apply app_inv_head in He. by apply app_inv_tail in He. }
  split; [exact Hall'|]. split.
  { rewrite Hperm, fst_zip; [done|]. rewrite length_map. lia. }
  split; [exact Hperm|].
  assert (map coro_model tasks = alerts) as Hid.
  { rewrite Hm, map_map. apply map_id. }
  assert (Forall (fun t => forall r, outcome t = Some r ->
                 exists rows,
                   r = execute rows (RAlert (coro_model t)) ≫= model_class)
                 tasks) as Htasks.
  { apply Hans. apply Forall_forall. intros t Ht r.
    apply list_elem_of_In, in_map_iff in Ht as (a & <- & _). done. }
  rewrite <- Hid. clear -Htasks Hdone.
  induction tasks as [|t tasks IH]; [constructor|].
  apply Forall_cons in Htasks as [Ht Htasks].
  apply Forall_cons in Hdone as [Hd Hdone].
  cbn. constructor; [|by apply IH].
  unfold result. destruct (outcome t) as [r|] eqn:Ho; [eauto|].
  by apply is_Some_None in Hd.
Qed.

Lemma length_omap_le {A B : Type} (f : A -> option B) (l : list A) :
  (length (omap f l) <= length l)%nat.
Proof.
  induction l as [|a l IH]; [done|]. cbn. destruct (f a); cbn; lia.
Qed.

Lemma returned_puts (items : list string) :
  omap (fun e => match e with Execute _ r => r | Put _ => None end)
       (map Put items) = [].
Proof. by induction items. Qed.

Lemma answered_exec_pair (execs : list Effect) :
  Forall (fun e => exists rows a,
            e = Execute (RAlert a) (execute rows (RAlert a))) execs ->
  Forall (fun e => is_Some (exec_pair e)) execs.
Proof.
  intros Hall. eapply Forall_impl; [exact Hall|]. by intros e (rows & a & ->).
Qed.

Lemma length_filter_zip_snd {A B : Type} (P : B -> Prop)
    `{forall b, Decision (P b)} (l : list A) (k : list B) :
  length l = length k ->
  length (filter (fun p => P p.2) (zip l k)) = length (filter P k).
Proof.
  revert k. induction l as [|a l IH]; intros [|b k] Hlen; try done.
  cbn [zip zip_with]. rewrite !filter_cons. cbn [snd].
  injection Hlen as Hlen. destruct (decide (P b)); cbn; by rewrite IH.
Qed.

Lemma length_filter_impl {A : Type} (P Q : A -> Prop)
    `{forall a, Decision (P a)} `{forall a, Decision (Q a)} (l : list A) :
  (forall a, P a -> Q a) ->
  (length (filter P l) <= length (filter Q l))%nat.
Proof.
  intros Himpl. induction l as [|a l IH]; [done|].
  rewrite !filter_cons. destruct (decide (P a)) as [Hp|Hp].
  - rewrite decide_True by auto. cbn. lia.
  - destruct (decide (Q a)); cbn; lia.
Qed.

(** The rows that came back are no fewer than the results that are not
    [None]. *)
Lemma length_returned (execs : list Effect) :
  (length (filter (fun p : Row * option Alert => is_Some p.2)
             (omap exec_pair execs)) <=
   length (omap (fun e => match e with Execute _ r => r | Put _ => None end)
             execs))%nat.
Proof.
  induction execs as [|[p r|m] execs IH]; [done| |done].
  change (omap exec_pair (Execute p r :: execs))
    with ((p, r ≫= model_class) :: omap exec_pair execs).
  rewrite filter_cons. cbn [snd].
  destruct r as [row|]; cbn.
  - destruct (decide _); cbn; lia.
  - destruct (decide _) as [[? ?]|]; [done|]. cbn. lia.
Qed.

(** X13. No notification without a stored row. Whatever the schedule and
    the engine, [record_alerts] adds to the database the rows that came
    back and to the queue its notifications, no more notifications than
    rows and no more rows than alerts; and every alert in the list it
    returns is a row that was stored. *)
Theorem record_alerts_notifies_only_stored (sched : list nat)
    (alerts : list Alert) (w : World) :
  let out := record_alerts sched alerts w in
  exists (rows : list Row) (items : list string),
    stored out.2 = stored w ++ rows /\
    alert_queue out.2 = alert_queue w ++ items /\
    (length items <= length rows <= length alerts)%nat /\
    forall recorded a,
      out.1 = Some recorded -> Some a ∈ recorded -> RAlert a ∈ rows.
Proof.
  destruct alerts as [|first rest].
  { exists [], []. cbn. rewrite !app_nil_r. split_and!; done. }
  cbv zeta.
  destruct (record_alerts_answers sched first rest w)
    as (recorded & execs & Hr & He & Hans & Hfst & Hperm & Hrec).
  cbv zeta in *. set (alerts := first :: rest) in *.
  pose proof (answered_exec_pair _ Hans) as Hall.
  destruct (stored_app _ _ _ He) as [Hs Hq].
  rewrite omap_app, returned_puts, app_nil_r in Hs.
  rewrite omap_app, (alert_queue_execs _ Hall), alert_queue_puts, app_nil_l
    in Hq.
  assert (length recorded = length alerts) as Hlen.
  { symmetry. by eapply Forall2_length. }
  eexists _, _. split; [exact Hs|]. split; [exact Hq|]. split_and!.
  - rewrite length_map.
    etransitivity;
      [apply (length_filter_impl _ (fun r : option Alert => is_Some r))|].
    { intros [a|]; [by eauto|done]. }
    rewrite <- (length_filter_zip_snd (fun r : option Alert => is_Some r)
                  (map RAlert alerts)) by (by rewrite length_map).
    rewrite <- Hperm. apply length_returned.
  - etransitivity; [apply length_omap_le|].
    rewrite <- (omap_exec_pair_length _ Hall), <- (length_fmap fst), Hfst.
    by rewrite length_map.
  - intros recorded' a Hr' Ha. rewrite Hr in Hr'. injection Hr' as <-.
    apply list_elem_of_lookup in Ha as [i Hi].
    destruct (lookup_lt_is_Some_2 (map RAlert alerts) i) as [x Hx].
    { rewrite length_map, <- Hlen. by eapply lookup_lt_Some. }
    assert ((x, Some a) ∈ omap exec_pair execs) as Hin.
    { rewrite Hperm. apply list_elem_of_lookup. exists i.
      apply lookup_zip_with_Some. eauto. }
    apply list_elem_of_omap in Hin as (e & He' & Hpair).
    apply list_elem_of_omap. exists e. split; [done|].
    destruct e as [p [row|]|m]; cbn in *; [|done..].
    injection Hpair as _ Hrow. by destruct row as [| |a']; simplify_eq.
Qed.

(** With an engine whose answer to a statement does not depend on the rows
    stored, the task group's schedule shows in the order of the rows
    only. *)
Lemma record_alerts_stateless (f : Row -> option Row) (sched : list nat)
    (first : Alert) (rest : list Alert) (w : World) :
  (forall rows params, execute rows params = f params) ->
  let alerts := first :: rest in
  let out := record_alerts sched alerts w in
  let recorded := map (fun a => f (RAlert a) ≫= model_class) alerts in
  out.1 = Some recorded /\
  alert_queue out.2 =
    alert_queue w ++
    map (fun _ => "New alert detected: " +:+
                  a_timestamp (List.last alerts first))
        (filter (fun r => is_critical r) recorded) /\
  exists rows, stored out.2 = stored w ++ rows /\
               rows ≡ₚ omap (fun a => f (RAlert a)) alerts.
Proof.
  intros Hf alerts out recorded0.
  destruct (record_alerts_answers sched first rest w)
    as (recorded & execs & Hr & He & Hans & Hfst & Hperm & Hrec).
  cbv zeta in *. fold alerts in Hr, He, Hfst, Hperm, Hrec. fold out in Hr, He.
  assert (recorded = recorded0) as ->.
  { subst recorded0. clear -Hrec Hf.
    induction Hrec as [|a r l k (rows & ->) _ IH]; [done|].
    cbn. by rewrite Hf, IH. }
  pose proof (answered_exec_pair _ Hans) as Hall.
  destruct (stored_app _ _ _ He) as [Hs Hq].
  rewrite omap_app, returned_puts, app_nil_r in Hs.
  rewrite omap_app, (alert_queue_execs _ Hall), alert_queue_puts, app_nil_l
    in Hq.
  split; [exact Hr|]. split; [exact Hq|].
  eexists. split; [exact Hs|].
  assert (omap (fun e => match e with Execute _ r => r | Put _ => None end)
               execs = omap f (omap exec_pair execs).*1) as ->.
  { clear -Hans Hf. induction Hans as [|e execs (rows & a & ->) _ IH]; [done|].
    change (omap exec_pair (Execute (RAlert a) (execute rows (RAlert a))
                              :: execs))
      with ((RAlert a, execute rows (RAlert a) ≫= model_class)
              :: omap exec_pair execs).
    cbn. rewrite Hf. destruct (f (RAlert a)); cbn; by rewrite IH. }
  rewrite Hfst. clear. induction alerts as [|a alerts IH]; [done|].
  cbn. destruct (f (RAlert a)); by rewrite IH.
Qed.

(** X14. The results are by place, not by completion. With an engine
    whose answer to an insert does not depend on the rows already stored,
    two runs of [record_alerts] under different schedules of the task
    group return the same list, the result of each alert at that alert's
    place, and put the same notifications on the queue; the databases
    they leave hold the same rows, in the order of completion. *)
Theorem record_alerts_schedule_independent (f : Row -> option Row)
    (sched1 sched2 : list nat) (alerts : list Alert) (w : World) :
  (forall rows params, execute rows params = f params) ->
  let out1 := record_alerts sched1 alerts w in
  let out2 := record_alerts sched2 alerts w in
  out1.1 = out2.1 /\
  (forall recorded, out1.1 = Some recorded ->
     recorded = map (fun a => f (RAlert a) ≫= model_class) alerts) /\
  alert_queue out1.2 = alert_queue out2.2 /\
  stored out1.2 ≡ₚ stored out2.2.
Proof.
  intros Hf. destruct alerts as [|first rest]; [done|]. cbv zeta.
  destruct (record_alerts_stateless f sched1 first rest w Hf)
    as (Hr1 & Hq1 & rows1 & Hs1 & Hp1).
  destruct (record_alerts_stateless f sched2 first rest w Hf)
    as (Hr2 & Hq2 & rows2 & Hs2 & Hp2).
  cbv zeta in *. rewrite Hr1, Hr2, Hq1, Hq2, Hs1, Hs2.
  split_and!; [done| |done|].
  - by intros recorded [= <-].
  - by rewrite Hp1, Hp2.
Qed.

Lemma insert_rejected {M : Type} `{Model M} (model : M) (w : World) :
  (forall rows params, execute rows params = None) ->
  stored (_insert_pydantic_model model w).2 = stored w /\
  alert_queue (_insert_pydantic_model model w).2 = alert_queue w.
Proof.
  intros Hrej. rewrite insert_spec, Hrej. cbn [snd].
  unfold stored, alert_queue. cbn [emit effects].
  rewrite !omap_app. cbn. by rewrite !app_nil_r.
Qed.

Lemma record_steps_rejected (sched : list nat) (c : PipelineContext)
    (w : World) :
  (forall rows params, execute rows params = None) ->
  stored (record_steps sched c w) = stored w /\
  alert_queue (record_steps sched c w) = alert_queue w.
Proof.
  intros Hrej. unfold record_steps.
  set (w1 := (record_request (input_request c) w).2).
  assert (stored w1 = stored w /\ alert_queue w1 = alert_queue w) as [Hs1 Hq1].
  { subst w1. destruct (input_request c); [|done]. by apply insert_rejected. }
  set (w2 := (record_outputs (output_responses c) w1).2).
  assert (stored w2 = stored w /\ alert_queue w2 = alert_queue w) as [Hs2 Hq2].
  { subst w2. rewrite <- Hs1, <- Hq1.
    destruct (output_responses c); [done|]. by apply insert_rejected. }
  rewrite <- Hs2, <- Hq2. destruct (alerts_raised c) as [|first rest]; [done|].
  destruct (record_alerts_stateless (fun _ => None) sched first rest w2 Hrej)
    as (_ & Hq & rows & Hs & Hp).
  cbv zeta in *. rewrite Hq, Hs.
  assert (rows = []) as ->.
  { apply Permutation_nil_r. rewrite Hp. clear.
    generalize (first :: rest). intros l. by induction l. }
  rewrite app_nil_r. split; [done|].
  assert (filter (fun r : option Alert => is_critical r)
            (map (fun a : Alert => None ≫= model_class) (first :: rest)) = [])
    as ->.
  { generalize (first :: rest). intros l. by induction l. }
  by rewrite app_nil_r.
Qed.

(** X15. A context whose rows were all refused is not tried again. When
    the engine fails on every statement, [record_context] on a context
    that is to be recorded stores no row and puts nothing on the queue,
    and still marks the context as stored: a second call for the same
    context does nothing, so the context is never written. *)
Theorem record_context_rejected_not_retried (sched sched2 : list nat)
    (l : nat) (c : PipelineContext) (w : World) :
  (forall rows params, execute rows params = None) ->
  contexts w !! l = Some c ->
  (_should_record_context (Some c) w).1 = true ->
  let w1 := record_context sched (Some l) w in
  stored w1 = stored w /\
  alert_queue w1 = alert_queue w /\
  (exists c1, contexts w1 !! l = Some c1 /\ stored_in_db c1 = true) /\
  record_context sched2 (Some l) w1 = w1.
Proof.
  intros Hrej Hl Hs w1. subst w1.
  rewrite (record_context_at _ _ _ _ Hl), Hs.
  set (w0 := (_should_record_context (Some c) w).2).
  destruct (record_steps_rejected sched c w0 Hrej) as [Hst Hq].
  assert (contexts (record_steps sched c w0) !! l = Some c) as Hl'.
  { rewrite (proj2 (record_steps_frame _ _ _)).
    subst w0. by rewrite (proj2 (should_record_frame _ _)). }
  set (c1 := {| input_request := input_request c;
                output_responses := output_responses c;
                alerts_raised := alerts_raised c;
                metadata := <["stored_in_db" := JBool true]> (metadata c) |}).
  assert (contexts (set_metadata l "stored_in_db" (JBool true)
                      (record_steps sched c w0)) !! l = Some c1) as Hc1.
  { cbn [set_metadata contexts]. by rewrite lookup_alter_eq, Hl'. }
  assert (stored_in_db c1 = true) as Hflag.
  { unfold stored_in_db, c1. cbn. by rewrite lookup_insert_eq. }
  split_and!.
  - unfold stored in *. rewrite effects_set_metadata, Hst.
    subst w0. by rewrite (proj1 (should_record_frame _ _)).
  - unfold alert_queue in *. rewrite effects_set_metadata, Hq.
    subst w0. by rewrite (proj1 (should_record_frame _ _)).
  - eauto.
  - by apply (record_context_stored _ _ c1).
Qed.

End RecorderFacts.

Section RecorderRuns.
Import Json Connection Samples.

(** The chat context on the reference engine: the prompt, the one output
    row, the two alerts, and the notification for the critical one. *)
Lemma record_context_statement_order_witness :
  exists (outs execs : list Effect) (items : list string),
    effects (@record_context Ref.sqlite Ref.seen_requests [] (Some 7%nat)
               (world_of [] (context_of "chat"))) =
    Execute (RPrompt (prompt_of "chat")) (Some (RPrompt (prompt_of "chat")))
      :: outs ++ execs ++ map Put items /\
    length outs = 1%nat /\
    (omap exec_pair execs).*1 ≡ₚ [RAlert alert_a; RAlert alert_b].
Proof.
  destruct (@record_context_statement_order Ref.sqlite Ref.seen_requests
              [] 7%nat (context_of "chat") (world_of [] (context_of "chat"))
              eq_refl eq_refl)
    as (request & outs & execs & items & Hreq & He & Houts & _ & Hperm & _).
  injection Hreq as <-. exists outs, execs, items.
  split; [exact He|]. split; [by rewrite Houts|exact Hperm].
Defined.

Lemma record_context_writes_iff_witness :
  effects (@record_context Ref.sqlite Ref.seen_requests [] (Some 7%nat)
             (world_of ["r"] (context_of "fim"))) <>
  effects (world_of ["r"] (context_of "fim")) <->
  stored_in_db (context_of "fim") = false /\
  exists request,
    input_request (context_of "fim") = Some request /\
    (p_type request <> "fim" \/
     (@could_store_fim_request Ref.seen_requests ["r"] (context_of "fim")).1
     = true).
Proof.
  exact (@record_context_writes_iff Ref.sqlite Ref.seen_requests [] 7%nat
           (context_of "fim") (world_of ["r"] (context_of "fim")) eq_refl).
Defined.

Lemma record_alerts_schedule_independent_witness :
  (@record_alerts Ref.unconstrained Ref.seen_requests [2; 0]%nat
     [alert_a; alert_b; alert_c] (world_of [] (context_of "chat"))).1 =
  (@record_alerts Ref.unconstrained Ref.seen_requests []
     [alert_a; alert_b; alert_c] (world_of [] (context_of "chat"))).1.
Proof.
  exact (proj1 (@record_alerts_schedule_independent Ref.unconstrained
                  Ref.seen_requests Some [2; 0]%nat [] _ _
                  (fun _ _ => eq_refl))).
Defined.

Lemma record_context_rejected_not_retried_witness :
  stored (@record_context Ref.read_only Ref.seen_requests [] (Some 7%nat)
            (world_of [] (context_of "chat"))) = [] /\
  exists c1,
    contexts (@record_context Ref.read_only Ref.seen_requests [] (Some 7%nat)
                (world_of [] (context_of "chat"))) !! 7%nat = Some c1 /\
    stored_in_db c1 = true.
Proof.
  destruct (@record_context_rejected_not_retried Ref.read_only
              Ref.seen_requests [] [] 7%nat (context_of "chat")
              (world_of [] (context_of "chat")) (fun _ _ => eq_refl)
              eq_refl eq_refl) as (Hs & _ & Hc & _).
  split; [exact Hs|exact Hc].
Defined.

End RecorderRuns.

(** ** The body adapter on other bodies and on its own result *)

Section RerouteFacts.
Import Py Json Heap Adapter BodyAdapter.

Lemma copy_list_items_list_at copy (y : nat) :
  frames copy ->
  forall items memo hc memo' h',
    is_Some (hc !! y ≫= fun o => match o with
                                  | OList its => Some its
                                  | ODict _ => None
                                  end) ->
    copy_list_items copy y items memo hc = Some (memo', h') ->
    exists its', h' !! y = Some (OList its').
Proof.
  intros Hframe. induction items as [|a items IH];
    intros memo hc memo' h' Hy Hloop; cbn in Hloop.
  - injection Hloop as <- <-.
    destruct (hc !! y) as [[its|its]|]; cbn in Hy; try by destruct Hy.
    by exists its.
  - destruct (copy a memo hc) as [[[a' memo1] h1]|] eqn:Hc; [|done].
    cbn in Hloop.
    destruct (append_at y a' h1) as [h2|] eqn:Hs; [|done].
    cbn in Hloop. eapply IH; [|exact Hloop].
    apply append_at_spec in Hs as (its & Hits & ->).
    rewrite list_lookup_insert_eq by (by eapply lookup_lt_Some). done.
Qed.

(** The copy of a list is a list, at the first free address. *)
Lemma deepcopy_list_root (fuel l : nat) (items : list pyval)
    (memo memo' : gmap nat nat) (h h' : heap) (r : pyval) :
  h !! l = Some (OList items) -> memo !! l = None ->
  deepcopy fuel (VRef l) memo h = Some (r, memo', h') ->
  r = VRef (length h) /\ exists its, h' !! length h = Some (OList its).
Proof.
  intros Hl Hmemo Hcopy. destruct fuel as [|fuel]; cbn in Hcopy;
    rewrite Hmemo in Hcopy; [done|].
  rewrite Hl in Hcopy. cbn in Hcopy.
  destruct (copy_list_items (deepcopy fuel) (length h) items
              (<[l := length h]> memo) (h ++ [OList []]))
    as [[memo1 h1]|] eqn:Hloop; [|done].
  injection Hcopy as <- <- <-. split; [done|].
  eapply (copy_list_items_list_at _ _ (deepcopy_frame fuel)); [|done].
  by rewrite list_lookup_middle.
Qed.

(** X16. A body that is no dict. When [data] stands for a JSON value that
    is not an object (a list, a string, a number, [null]),
    [set_destination_info] raises [TypeError] at the first item
    assignment, after the copy is made; the objects that were there before
    the call are as they were. *)
Theorem set_destination_info_type_error (fuel : nat) (model_route : ModelRoute)
    (data : pyval) (v : JValue) (h0 : heap) :
  repr h0 data v -> (forall d, v <> JObj d) -> (depth v <= fuel)%nat ->
  exists h' : heap,
    set_destination_info fuel model_route data h0 =
      Some (Raise TypeError, h') /\
    extends h0 h'.
Proof.
  intros Hr Hv Hfuel.
  destruct (deepcopy_total h0 v fuel Hfuel data ∅ h0 Hr (extends_refl h0))
    as [[[r memo] h1] Hcopy].
  pose proof (deepcopy_frame _ _ _ _ _ _ _ Hcopy) as Hext.
  exists h1. split; [|done].
  unfold set_destination_info. rewrite Hcopy. cbn.
  inversion Hr as [| | | | |l items vs Hl Hitems|l items d Hl Hitems]; subst;
    try (destruct fuel; cbn in Hcopy; injection Hcopy as <- <- <-; done).
  - destruct (deepcopy_list_root _ _ _ _ _ _ _ _ Hl (lookup_empty l) Hcopy)
      as [-> [its Hits]].
    cbn. unfold setitem_at. by rewrite Hits.
  - by destruct (Hv d).
Qed.

Lemma setitem_setitem {V : Type} (k : string) (v v' : V)
    (d : list (string * V)) :
  setitem k v (setitem k v' d) = setitem k v d.
Proof.
  induction d as [|[k0 v0] d IH]; cbn.
  - by rewrite String.eqb_refl.
  - destruct (String.eqb_spec k k0) as [->|Hne]; cbn.
    + by rewrite String.eqb_refl.
    + destruct (String.eqb_spec k k0); [done|]. by rewrite IH.
Qed.

(** Two assignments change places when the key of the second is already
    there: no key is appended in a different order. *)
Lemma setitem_comm {V : Type} (k k' : string) (v v' : V)
    (d : list (string * V)) :
  k ∈ map fst d -> k <> k' ->
  setitem k v (setitem k' v' d) = setitem k' v' (setitem k v d).
Proof.
  intros Hin Hne. induction d as [|[k0 v0] d IH];
    [by apply elem_of_nil in Hin|].
  cbn in Hin. cbn [setitem].
  destruct (String.eqb_spec k' k0) as [->|Hne'];
    destruct (String.eqb_spec k k0) as [->|Hne'']; try done; cbn [setitem].
  - rewrite String.eqb_refl. by destruct (String.eqb_spec k k0).
  - rewrite String.eqb_refl. by destruct (String.eqb_spec k' k0).
  - destruct (String.eqb_spec k k0); [done|].
    destruct (String.eqb_spec k' k0); [done|].
    rewrite IH; [done|]. apply elem_of_cons in Hin as [?|?]; done.
Qed.

Lemma keys_setitem {V : Type} (k : string) (v : V) (d : list (string * V)) :
  map fst (setitem k v d) =
  if bool_decide (k ∈ map fst d) then map fst d else map fst d ++ [k].
Proof.
  induction d as [|[k0 v0] d IH]; [done|]. cbn [setitem].
  destruct (String.eqb_spec k k0) as [->|Hne]; cbn.
  - rewrite bool_decide_eq_true_2; [done|]. by left.
  - rewrite IH. destruct (bool_decide (k ∈ map fst d)) eqn:Hd.
    + apply bool_decide_eq_true in Hd.
      rewrite bool_decide_eq_true_2; [done|]. by right.
    + apply bool_decide_eq_false in Hd.
      rewrite bool_decide_eq_false_2; [done|].
      intros [?|?]%elem_of_cons; done.
Qed.

Lemma wf_json_setitem (k : string) (v : JValue)
    (d : list (string * JValue)) :
  wf_json (JObj d) -> wf_json v -> wf_json (JObj (setitem k v d)).
Proof.
  intros [Hnd Hd] Hv. split.
  - rewrite keys_setitem. destruct (bool_decide (k ∈ map fst d)) eqn:Hk;
      [done|].
    apply bool_decide_eq_false in Hk. apply NoDup_app. split_and!; [done| |].
    + intros x Hx [->|[]%elem_of_nil]%elem_of_cons. done.
    + apply NoDup_singleton.
  - clear Hnd. induction d as [|[k0 v0] d IH]; cbn in *; [done|].
    destruct Hd as [Hv0 Hd]. destruct (String.eqb k k0); cbn; auto.
Qed.

Lemma depth_setitem (k : string) (v : JValue) (d : list (string * JValue)) :
  depth v = 0%nat ->
  (depth (JObj (setitem k v d)) <= depth (JObj d))%nat.
Proof.
  intros Hv. cbn. apply le_n_S.
  induction d as [|[k0 v0] d IH]; cbn; [lia|].
  destruct (String.eqb k k0); cbn in *; lia.
Qed.

(** What the rewritten copy stands for. *)
Lemma set_destination_info_repr (fuel : nat) (model_route : ModelRoute)
    (data : pyval) (d : list (string * JValue)) (h0 : heap) :
  repr h0 data (JObj d) -> wf_json (JObj d) -> (depth (JObj d) <= fuel)%nat ->
  exists h' : heap,
    set_destination_info fuel model_route data h0 =
      Some (Ret (VRef (length h0)), h') /\
    extends h0 h' /\
    repr h' (VRef (length h0))
      (JObj (setitem "base_url"
               (JStr (_get_provider_formatted_url model_route))
               (setitem "model" (JStr (name (route_model model_route))) d))).
Proof.
  intros Hr Hwf Hfuel.
  destruct (set_destination_info_spec fuel model_route data d h0 Hr Hfuel)
    as (its & memo & h1 & Hcopy & Hits & ->).
  pose proof (deepcopy_frame _ _ _ _ _ _ _ Hcopy) as Hext.
  eexists. split; [done|]. split; [by apply extends_insert|].
  pose proof (deepcopy_repr _ _ _ _ _ _ _ Hr Hwf Hcopy) as Hcopied.
  inversion Hcopied as [| | | | | |? its' ? Hits' Hall]; subst.
  rewrite Hits in Hits'. injection Hits' as <-.
  eapply repr_obj.
  { apply list_lookup_insert_eq. by eapply lookup_lt_Some. }
  apply (Forall2_setitem (repr _)); [|constructor].
  apply (Forall2_setitem (repr _)); [|constructor].
  eapply repr_items_insert_above; [exact Hcopied| |exact Hall].
  apply size_obj_items.
Qed.

(** X17. Routing what was routed. [set_destination_info] for [route2] on
    the result of [set_destination_info] for [route1] returns a third
    object, which stands for the same JSON as the body rewritten for
    [route2] alone: the values of the first route are overwritten in
    place, and no item is added twice or moved. The first result and the
    original body are as they were after the second call. *)
Theorem set_destination_info_reroute (fuel : nat) (route1 route2 : ModelRoute)
    (data : pyval) (d : list (string * JValue)) (h0 : heap) :
  repr h0 data (JObj d) -> wf_json (JObj d) -> (depth (JObj d) <= fuel)%nat ->
  let rewritten (r : ModelRoute) :=
    JObj (setitem "base_url" (JStr (_get_provider_formatted_url r))
            (setitem "model" (JStr (name (route_model r))) d)) in
  exists (y1 y2 : nat) (h1 h2 : heap),
    set_destination_info fuel route1 data h0 = Some (Ret (VRef y1), h1) /\
    set_destination_info fuel route2 (VRef y1) h1 = Some (Ret (VRef y2), h2) /\
    repr h2 (VRef y2) (rewritten route2) /\
    repr h2 (VRef y1) (rewritten route1) /\
    repr h2 data (JObj d) /\
    y1 <> y2.
Proof.
  intros Hr Hwf Hfuel rewritten.
  destruct (set_destination_info_repr fuel route1 data d h0 Hr Hwf Hfuel)
    as (h1 & Hrun1 & Hext1 & Hr1).
  set (d1 := setitem "base_url" (JStr (_get_provider_formatted_url route1))
               (setitem "model" (JStr (name (route_model route1))) d)) in *.
  assert (wf_json (JObj d1)) as Hwf1
    by (do 2 (apply wf_json_setitem; [|done]); done).
  assert (depth (JObj d1) <= fuel)%nat as Hfuel1.
  { etransitivity; [apply depth_setitem; done|].
    etransitivity; [apply depth_setitem; done|]. done. }
  destruct (set_destination_info_repr fuel route2 _ d1 h1 Hr1 Hwf1 Hfuel1)
    as (h2 & Hrun2 & Hext2 & Hr2).
  exists (length h0), (length h1), h1, h2.
  split; [exact Hrun1|]. split; [exact Hrun2|]. split_and!.
  - replace (rewritten route2) with
      (JObj (setitem "base_url" (JStr (_get_provider_formatted_url route2))
               (setitem "model" (JStr (name (route_model route2))) d1)));
      [exact Hr2|].
    subst rewritten d1. cbv beta. f_equal.
    rewrite (setitem_comm "model" "base_url"), !setitem_setitem;
      [done| |done].
    rewrite keys_setitem.
    destruct (bool_decide ("model" ∈ map fst d)) eqn:Hm.
    + by apply bool_decide_eq_true in Hm.
    + apply elem_of_app. right. by left.
  - by eapply repr_extends.
  - eapply repr_extends; [exact Hext2|]. by eapply repr_extends.
  - inversion Hr1 as [| | | | | |? ? ? Hl _]; subst.
    apply lookup_lt_Some in Hl. lia.
Qed.

End RerouteFacts.

Section RerouteRuns.
Import Py Json Heap Adapter BodyAdapter Samples.

(** A list of messages passed where the body is expected. *)
Lemma set_destination_info_type_error_witness :
  exists h' : heap,
    set_destination_info 1 (route_of "http://x" openai) (VRef 0)
      [OList [VStr "hi"]] = Some (Raise TypeError, h') /\
    extends [OList [VStr "hi"]] h'.
Proof.
  refine (set_destination_info_type_error 1 (route_of "http://x" openai)
            (VRef 0) (JArr [JStr "hi"]) [OList [VStr "hi"]] _ _ _).
  - eapply repr_arr; [reflexivity|]. repeat constructor.
  - discriminate.
  - cbn. lia.
Defined.

(** The sample body routed to OpenRouter, and the result routed to
    Ollama. *)
Lemma set_destination_info_reroute_witness :
  exists (y1 y2 : nat) (h1 h2 : heap),
    set_destination_info 3 (route_of "http://x" openrouter)
      (alloc_json body []).1 (alloc_json body []).2 =
      Some (Ret (VRef y1), h1) /\
    set_destination_info 3 (route_of "http://y" ollama) (VRef y1) h1 =
      Some (Ret (VRef y2), h2) /\
    repr h2 (VRef y2)
      (JObj [("model", JStr "gpt");
             ("messages", JArr [JObj [("role", JStr "user")]]);
             ("base_url", JStr "http://y")]).
Proof.
  destruct (set_destination_info_reroute 3 (route_of "http://x" openrouter)
              (route_of "http://y" ollama)
              (alloc_json body []).1
              [("model", JStr "m");
               ("messages", JArr [JObj [("role", JStr "user")]])]
              (alloc_json body []).2
              (proj2 (alloc_json_spec body [])) body_wf
              ltac:(cbn; lia))
    as (y1 & y2 & h1 & h2 & H1 & H2 & Hr & _).
  exists y1, y2, h1, h2. split; [exact H1|]. split; [exact H2|exact Hr].
Defined.

End RerouteRuns.

(** ** Creating the database *)

Section InitDbFacts.
Import Py InitDb.

Lemma statements_eq (schema : string) :
  statements schema =
  Ret (map strip
         (List.filter (fun stmt => str_truthy (strip stmt))
            ((split_go ";" schema 0).1 :: (split_go ";" schema 0).2))).
Proof.
  unfold statements, split. by destruct (split_go ";" schema 0).
Qed.

(** X18. What goes to the engine. For every schema text the list
    comprehension returns, and each statement of its list is not empty,
    has no space at either end and holds no [;]. *)
Theorem statements_clean (schema : string) :
  exists l : list string,
    statements schema = Ret l /\
    Forall (fun statement =>
              statement <> EmptyString /\
              strip statement = statement /\
              contains ";" statement = false) l.
Proof.
  rewrite statements_eq. eexists. split; [done|].
  pose proof (split_go_semicolon_pieces schema) as Hp.
  induction Hp as [|piece pieces Hpiece _ IH]; [constructor|].
  cbn [List.filter]. destruct (str_truthy (strip piece)) eqn:Ht; [|done].
  cbn [map]. constructor; [|done]. split_and!.
  - by destruct (strip piece).
  - apply strip_idem.
  - by apply contains_semicolon_strip.
Qed.

(** X19. A schema file read back. For a file written statement by
    statement, each statement stripped, without [;], between two runs of
    spaces and closed by [;], with nothing but spaces after the last [;],
    the statements executed are the statements written, in their order;
    a statement that is empty (two [;] with nothing but spaces between)
    is left out. *)
Theorem statements_round_trip (items : list (string * string * string))
    (tail : string) :
  Forall (fun item =>
            all_space item.1.1 /\ all_space item.2 /\
            strip item.1.2 = item.1.2 /\
            contains ";" item.1.2 = false) items ->
  all_space tail ->
  statements (schema_text items tail) =
  Ret (List.filter str_truthy (map (fun item => item.1.2) items)).
Proof.
  intros Hitems Htail. induction Hitems as [|[[a s] b] items Hitem _ IH].
  - rewrite statements_eq. cbn [schema_text].
    rewrite (split_go_absent _ _ (contains_semicolon_all_space _ Htail)).
    cbn [fst snd List.filter]. by rewrite (strip_all_space _ Htail).
  - cbn [fst snd] in Hitem. destruct Hitem as (Ha & Hb & Hs & Hc).
    rewrite statements_eq in *. cbn [schema_text].
    rewrite <- (append_assoc s), <- (append_assoc a).
    rewrite split_go_semicolon_first.
    2:{ rewrite !contains_semicolon_app.
        auto using contains_semicolon_all_space. }
    cbn [fst snd List.filter map].
    rewrite (strip_padded _ _ _ Ha Hb Hs).
    injection IH as IH.
    destruct (str_truthy s); cbn [map];
      by rewrite ?(strip_padded _ _ _ Ha Hb Hs), IH.
Qed.

Section Engine.
Context `{Sqlite}.

Lemma execute_each_spec (statements : list string) :
  forall (ran : list string) (st : State),
    let out := execute_each ran statements st in
    db_file out.2 = db_file st /\
    schema_sql out.2 = schema_sql st /\
    ((out.1 = None /\ executed out.2 = executed st ++ statements /\
      forall ok statement rest,
        statements = ok ++ statement :: rest ->
        conn_execute (ran ++ ok) statement = true) \/
     exists ok statement rest,
       statements = ok ++ statement :: rest /\
       executed out.2 = executed st ++ ok ++ [statement] /\
       out.1 = Some (ExecuteError statement) /\
       conn_execute (ran ++ ok) statement = false).
Proof.
  induction statements as [|statement rest IH]; intros ran st.
  - cbn. split_and!; [done..|]. left. rewrite app_nil_r. split_and!; [done..|].
    by intros [|??] ? ? ?.
  - cbn [execute_each]. destruct (conn_execute ran statement) eqn:Hrun.
    + specialize (IH (ran ++ [statement])
                    {| db_file := db_file st;
                       schema_sql := schema_sql st;
                       executed := executed st ++ [statement] |}).
      cbv zeta in IH. cbn [db_file schema_sql executed] in IH.
      destruct IH as (Hd & Hs &
        [(He & Hx & Hall)|(ok & s' & rest' & -> & Hx & He & Hno)]).
      * split; [done|]. split; [done|]. left. split; [done|].
        rewrite Hx, <- app_assoc. split; [done|].
        intros [|s0 ok] s1 rest1 Heq; cbn in Heq; injection Heq as <- Heq.
        -- by rewrite app_nil_r.
        -- specialize (Hall _ _ _ Heq). by rewrite <- app_assoc in Hall.
      * split; [done|]. split; [done|]. right.
        exists (statement :: ok), s', rest'. split; [done|].
        rewrite Hx, <- !app_assoc. split; [done|]. split; [done|].
        by rewrite <- app_assoc in Hno.
    + cbn. split; [done|]. split; [done|]. right.
      exists [], statement, rest. by rewrite app_nil_r.
Qed.

(** X20. The schema is executed in order, up to the first failure. When
    there is no database file and the schema file is there, [init_db]
    passes the statements of the schema to the engine one by one, in
    their order. Either all of them return and [init_db] returns, or one
    statement raises: [init_db] ends with that exception, the statements
    before it were executed, and none after it is. *)
Theorem init_db_runs_schema_in_order (st : State) (schema : string) :
  db_file st = false -> schema_sql st = Some schema ->
  let out := init_db st in
  exists l : list string,
    statements schema = Ret l /\
    ((out.1 = None /\ executed out.2 = executed st ++ l /\
      forall ok statement rest,
        l = ok ++ statement :: rest -> conn_execute ok statement = true) \/
     exists ok statement rest,
       l = ok ++ statement :: rest /\
       executed out.2 = executed st ++ ok ++ [statement] /\
       out.1 = Some (ExecuteError statement) /\
       conn_execute ok statement = false).
Proof.
  intros Hdb Hschema. unfold init_db. rewrite Hdb, Hschema.
  rewrite statements_eq. eexists. split; [done|].
  destruct (execute_each_spec
              (map strip
                 (List.filter (fun stmt => str_truthy (strip stmt))
                    ((split_go ";" schema 0).1 :: (split_go ";" schema 0).2)))
              [] (begin st)) as (_ & _ & Hcases).
  exact Hcases.
Qed.

Lemma init_db_db_file (st : State) :
  begin_creates_file = true ->
  schema_sql st <> None ->
  db_file (init_db st).2 = true.
Proof.
  intros Hbegin Hschema. unfold init_db.
  destruct (db_file st) eqn:Hdb; [done|].
  destruct (schema_sql st) as [schema|]; [|done].
  rewrite statements_eq.
  rewrite (proj1 (execute_each_spec _ [] (begin st))).
  cbn. by rewrite Hbegin, orb_true_r.
Qed.

(** X21. The schema is tried once. With an engine that creates the
    database file when a connection is opened: the [init_db] that
    [init_db_sync] calls after the constructor executes nothing, so
    [init_db_sync] does what the constructor does; and after any
    [init_db] that found the schema file, also one that ended with the
    exception of a statement, a later [init_db] finds the database file
    and returns at once, leaving the rest of the schema unexecuted. *)
Theorem init_db_is_tried_once (st : State) :
  begin_creates_file = true ->
  init_db_sync st = DbRecorder__init__ st /\
  (schema_sql st <> None ->
   init_db (init_db st).2 = (None, (init_db st).2)).
Proof.
  intros Hbegin.
  assert (forall st', db_file st' = true -> init_db st' = (None, st'))
    as Hskip by (intros st' Hdb; unfold init_db; by rewrite Hdb).
  split.
  - unfold init_db_sync, DbRecorder__init__.
    destruct (db_file st) eqn:Hdb; cbn [negb]; [by apply Hskip|].
    destruct (init_db st) as [[e|] st1] eqn:Hinit; [done|].
    rewrite Hskip; [done|].
    destruct (schema_sql st) as [schema|] eqn:Hschema.
    + pose proof (init_db_db_file st Hbegin) as Hfile.
      rewrite Hinit, Hschema in Hfile. by apply Hfile.
    + unfold init_db in Hinit. by rewrite Hdb, Hschema in Hinit.
  - intros Hschema. apply Hskip. by apply init_db_db_file.
Qed.

End Engine.

End InitDbFacts.

Section InitDbRuns.
Import Py InitDb Samples.

(** Two statements, an empty one between them, a newline at the end. *)
Lemma statements_round_trip_witness :
  statements
    (schema_text [(" ", "CREATE TABLE a (x)", EmptyString);
                  (String "010" EmptyString, EmptyString, " ");
                  (String "010" EmptyString, "CREATE TABLE b (y)", " ")]
                 (String "010" EmptyString)) =
  Ret ["CREATE TABLE a (x)"; "CREATE TABLE b (y)"].
Proof.
  refine (statements_round_trip _ _ _ _).
  - repeat constructor; cbn;
      try (intros c Hc; cbn in Hc; intuition (subst; reflexivity)).
  - intros c Hc. cbn in Hc. intuition (subst; reflexivity).
Defined.

(** On the fresh install the second statement repeats the first and
    fails: two statements were passed to the engine, the third never. *)
Lemma init_db_runs_schema_in_order_witness :
  (@init_db Ref.sqlite3 fresh_install).1 =
    Some (ExecuteError "CREATE TABLE a (x)") /\
  executed (@init_db Ref.sqlite3 fresh_install).2 =
    ["CREATE TABLE a (x)"; "CREATE TABLE a (x)"].
Proof.
  destruct (@init_db_runs_schema_in_order Ref.sqlite3 fresh_install _
              eq_refl eq_refl)
    as (l & Hl & [(He & _)|(ok & statement & rest & _ & _ & _ & _)]).
  - vm_compute in He. discriminate He.
  - split; vm_compute; reflexivity.
Defined.

Lemma init_db_is_tried_once_witness :
  @init_db_sync Ref.sqlite3 fresh_install =
    @DbRecorder__init__ Ref.sqlite3 fresh_install /\
  @init_db Ref.sqlite3 (@init_db Ref.sqlite3 fresh_install).2 =
    (None, (@init_db Ref.sqlite3 fresh_install).2).
Proof.
  destruct (@init_db_is_tried_once Ref.sqlite3 fresh_install eq_refl)
    as [Hsync Hagain].
  split; [exact Hsync|]. apply Hagain. discriminate.
Defined.

End InitDbRuns.
